(** * Anvil: the critic update engine and the training orchestrators

    A shallow embedding of [anvil/updaters/critics.py] and
    [anvilrl/agents/base_agents.py], and the properties of the repository's
    specification that concern them.

    - [Critics] embeds the critic updaters.  Batches are lists of real
      numbers (the usual idealisation of floating point), a torch tensor
      is a batch that may be attached to an autograd graph, parameters
      live in a store indexed by identity and are handed around in
      generators, and the calls made to the optimizer are recorded in the
      order in which they are made.
    - [Agents] embeds the two orchestrators as programs of a state and
      exception monad over the agent object; the [while] loop that waits
      for episodes to complete takes fuel. *)

From Stdlib Require Import String Ascii Reals Lra Lia ZArith Bool PeanoNat List.
Import ListNotations.

(** Python exceptions that the embedded code can raise. *)
Inductive exn : Type :=
| AttributeError (attr : string)
| ZeroDivisionError
| ValueError
| IndexError
| RuntimeError
| TypeError.

Module Critics.

Local Open Scope R_scope.

(** ** Tensors, parameters, and the torch calls of [run_optimizer] *)

Inductive result (A : Type) : Type :=
| Ok (a : A)
| Raise (e : exn).
Arguments Ok {A} a.
Arguments Raise {A} e.

Definition bind {A B : Type} (r : result A) (k : A -> result B) : result B :=
  match r with
  | Ok a => k a
  | Raise e => Raise e
  end.

Notation "x <- c1 ;; c2" := (bind c1 (fun x => c2))
  (at level 61, c1 at next level, right associativity).

(** A batch of values, one per sample. *)
Definition Tensor := list R.

(** A parameter is identified by its position in the store; it carries its
    value and the gradient accumulated by [backward].  Parameters are
    scalars: a tensor of weights is the list of its entries. *)
Definition pid := nat.

Record Param : Type := { data : R; grad : R }.

Definition Store := pid -> Param.

Inductive TorchCall : Type :=
| zero_grad_call
| backward_call
| clip_grad_norm_call (max_norm : R)
| step_call.

(** The mutable world of an update: the parameters, and the calls made so
    far on the optimizer, the loss and [torch.nn.utils]. *)
Record Torch : Type := { store : Store; calls : list TorchCall }.

(** A scalar loss with its autograd graph, summarised by the gradient that
    [backward] adds to each parameter. *)
Record Loss : Type := { loss_value : R; loss_grad : pid -> R }.

(** [loss += other] *)
Definition loss_add (l1 l2 : Loss) : Loss :=
  {| loss_value := loss_value l1 + loss_value l2;
     loss_grad := fun p => loss_grad l1 p + loss_grad l2 p |}.

(** An optimizer built by [optimizer_class(params, lr=lr)]; it is fresh at
    every update, so its rule only reads the parameter and the rate. *)
Record Optimizer : Type :=
  { param_groups : list pid;
    lr : R;
    update_rule : R -> Param -> R }.

Definition upd (s : Store) (p : pid) (v : Param) : Store :=
  fun q => if Nat.eqb q p then v else s q.

Definition for_each (ps : list pid) (f : Param -> Param) (s : Store)
  : Store :=
  fold_left (fun s p => upd s p (f (s p))) ps s.

Definition log_call (c : TorchCall) (s : Store) (t : Torch) : Torch :=
  {| store := s; calls := calls t ++ [c] |}.

(** [optimizer.zero_grad()] *)
Definition zero_grad (o : Optimizer) (t : Torch) : Torch :=
  log_call zero_grad_call
    (for_each (param_groups o)
       (fun x => {| data := data x; grad := 0 |}) (store t)) t.

(** [loss.backward()]: every parameter receives its share of the gradient. *)
Definition backward (l : Loss) (t : Torch) : Torch :=
  log_call backward_call
    (fun p => {| data := data (store t p);
                 grad := grad (store t p) + loss_grad l p |}) t.

Definition sum_sq (ps : list pid) (s : Store) : R :=
  fold_right (fun p acc => grad (s p) * grad (s p) + acc) 0 ps.

(** The 2-norm of the gradients of the listed parameters. *)
Definition total_norm (ps : list pid) (s : Store) : R := sqrt (sum_sq ps s).

Definition clip_eps : R := / 1000000.

Definition clip_coef (ps : list pid) (max_norm : R) (s : Store) : R :=
  Rmin (max_norm / (total_norm ps s + clip_eps)) 1.

(** [torch.nn.utils.clip_grad_norm_(parameters, max_norm)]: the gradients
    of the listed parameters are scaled in place, one after the other, by
    [max_norm / (total_norm + 1e-6)] clamped to at most 1. *)
Definition clip_grad_norm_ (ps : list pid) (max_norm : R) (t : Torch) : Torch :=
  let c := clip_coef ps max_norm (store t) in
  log_call (clip_grad_norm_call max_norm)
    (for_each ps (fun x => {| data := data x; grad := grad x * c |}) (store t)) t.

(** [optimizer.step()] *)
Definition step (o : Optimizer) (t : Torch) : Torch :=
  log_call step_call
    (for_each (param_groups o)
       (fun x => {| data := update_rule o (lr o) x; grad := grad x |})
       (store t)) t.

(** [BaseCriticUpdater]: the fields set by [__init__].  The optimizer
    class is given by its update rule. *)
Record BaseCriticUpdater : Type :=
  { optimizer_class : R -> Param -> R;
    updater_lr : R;
    max_grad : R }.

(** The optimizer that [optimizer_class] builds over a list of parameters
    with the rate of the updater. *)
Definition new_optimizer (self : BaseCriticUpdater) (params : list pid)
  : Optimizer :=
  {| param_groups := params;
     lr := updater_lr self;
     update_rule := optimizer_class self |}.

(** [BaseCriticUpdater.run_optimizer] *)
Definition run_optimizer (self : BaseCriticUpdater) (optimizer : Optimizer)
  (loss : Loss) (critic_parameters : list pid) (t : Torch) : Torch :=
  let t := zero_grad optimizer t in
  let t := backward loss t in
  let t := if Rlt_dec 0 (max_grad self)
           then clip_grad_norm_ critic_parameters (max_grad self) t
           else t in
  step optimizer t.


(** ** Torch tensors, generators, and the library calls that raise *)

Notation "' pat <- c1 ;; c2" :=
  (bind c1 (fun x => match x with pat => c2 end))
  (at level 61, pat pattern, c1 at next level, right associativity).

(** A torch tensor as a network returns it: its entries, and whether it
    requires a gradient, that is, whether it is attached to an autograd
    graph. *)
Record TTensor : Type := { entries : Tensor; requires_grad : bool }.

(** A tensor without graph. *)
Definition detached (v : Tensor) : TTensor :=
  {| entries := v; requires_grad := false |}.

(** [x.numpy()]: torch refuses a tensor that requires a gradient. *)
Definition numpy (x : TTensor) : result Tensor :=
  if requires_grad x then Raise RuntimeError else Ok (entries x).

(** Element-wise binary operation on two batches of the same length. *)
Fixpoint zip_with (f : R -> R -> R) (a b : Tensor) : result Tensor :=
  match a, b with
  | [], [] => Ok []
  | x :: a', y :: b' => r <- zip_with f a' b' ;; Ok (f x y :: r)
  | _, _ => Raise RuntimeError
  end.

(** Element-wise binary operation with torch's broadcasting: a batch of
    one entry is stretched over the other batch; otherwise the lengths have
    to agree. *)
Definition broadcast (f : R -> R -> R) (a b : Tensor) : result Tensor :=
  match a, b with
  | [x], _ => Ok (map (f x) b)
  | _, [y] => Ok (map (fun x => f x y) a)
  | _, _ => zip_with f a b
  end.

(** [T.min(a, b)] *)
Definition T_min (a b : TTensor) : result TTensor :=
  v <- broadcast Rmin (entries a) (entries b) ;;
  Ok {| entries := v; requires_grad := requires_grad a || requires_grad b |}.

(** A generator of parameters, as [parameters()] answers it: the
    parameters that it has yet to yield.  The updaters hand one generator
    object first to the constructor of the optimizer and then to
    [run_optimizer]; what the first has read, the second does not see. *)
Definition Generator := list pid.

(** [a += b] on two generators: a generator has no [__iadd__] and no
    [__add__]. *)
Definition generator_iadd (a b : Generator) : result Generator :=
  Raise TypeError.

(** [self.optimizer_class(critic_parameters, lr=self.lr)]: the constructor
    of a torch optimizer reads the generator to its end and refuses an
    empty list of parameters.  It answers the optimizer, and the generator
    as it leaves it. *)
Definition construct_optimizer (self : BaseCriticUpdater) (params : Generator)
  : result (Optimizer * Generator) :=
  match params with
  | [] => Raise ValueError
  | _ :: _ => Ok (new_optimizer self params, [])
  end.

(** The loss tensor of an updater: the scalar with its graph, and whether
    it requires a gradient. *)
Record LossTensor : Type := { graph : Loss; loss_requires_grad : bool }.

(** [loss += other] on loss tensors. *)
Definition loss_iadd (l1 l2 : LossTensor) : LossTensor :=
  {| graph := loss_add (graph l1) (graph l2);
     loss_requires_grad := loss_requires_grad l1 || loss_requires_grad l2 |}.

(** [self.run_optimizer(optimizer, loss, critic_parameters)] as the updaters
    call it: [loss.backward()] raises on a loss that does not require a
    gradient, and [run_optimizer] is left by that exception. *)
Definition call_run_optimizer (self : BaseCriticUpdater) (optimizer : Optimizer)
  (loss : LossTensor) (critic_parameters : Generator) (t : Torch)
  : result Torch :=
  if loss_requires_grad loss
  then Ok (run_optimizer self optimizer (graph loss) critic_parameters t)
  else Raise RuntimeError.

(** Modelled from the spec: [soft_q_target] of
    [anvil.signal_processing.sample_estimators], which is not part of the
    sources at hand: [target = reward + gamma * (1 - done) * (Q_next - alpha
    * log_prob)], entry by entry. *)
Fixpoint soft_q_target (rewards dones q_values log_probs : Tensor)
  (alpha gamma : R) : result Tensor :=
  match rewards, dones, q_values, log_probs with
  | [], [], [], [] => Ok []
  | r :: rewards', d :: dones', q :: q_values', l :: log_probs' =>
      rest <- soft_q_target rewards' dones' q_values' log_probs' alpha gamma ;;
      Ok (r + gamma * (1 - d) * (q - alpha * l) :: rest)
  | _, _, _, _ => Raise ValueError
  end.

Section Regression.

(** Observations and actions are opaque. *)
Variables Obs Act : Type.

(** A network: the parameters that the generator of [parameters()] yields,
    in order, and its forward pass, which reads the current parameter
    values. *)
Record Net : Type :=
  { parameters : list pid;
    forward : Store -> Obs -> option Act -> TTensor }.

Record Distribution : Type :=
  { rsample : Act;
    log_prob : Act -> TTensor }.

(** An actor-critic model.  [critic2], [target_critic] and [target_critic2]
    are attributes that an instance may or may not have ([hasattr]). *)
Record ActorCritic : Type :=
  { actor : Net;
    critic : Net;
    critic2 : option Net;
    target_critic : option Net;
    target_critic2 : option Net;
    get_action_distribution : Store -> Obs -> Distribution;
    forward_critic : Store -> Obs -> option Act -> TTensor }.

(** [Union[Critic, ActorCritic]], told apart by [isinstance(model, Critic)]. *)
Inductive Model : Type :=
| a_Critic (c : Net)
| an_ActorCritic (m : ActorCritic).

Definition hasattr {A : Type} (o : option A) : bool :=
  match o with Some _ => true | None => false end.

Definition getattr {A : Type} (name : string) (o : option A) : result A :=
  match o with
  | Some a => Ok a
  | None => Raise (AttributeError name)
  end.

(** The updaters [ValueRegression], [QRegression] and [SoftQRegression]
    add the same field to the base class. *)
Record Updater : Type :=
  { base :> BaseCriticUpdater;
    loss_class : TTensor -> TTensor -> Loss }.

Record UpdaterLog : Type := { loss : R }.

(** [self.loss_class(prediction, target)]: the loss requires a gradient
    when one of its arguments does. *)
Definition compute_loss (self : Updater) (prediction target : TTensor)
  : LossTensor :=
  {| graph := loss_class self prediction target;
     loss_requires_grad := requires_grad prediction || requires_grad target |}.

(** [BaseCriticUpdater._get_model_parameters] *)
Definition _get_model_parameters (model : Model) : result Generator :=
  match model with
  | a_Critic c => Ok (parameters c)
  | an_ActorCritic m =>
      let critic_parameters := parameters (critic m) in
      match critic2 m with
      | Some c2 => generator_iadd critic_parameters (parameters c2)
      | None => Ok critic_parameters
      end
  end.

(** [ValueRegression.__call__] *)
Definition ValueRegression_call (self : Updater) (model : Model)
  (observations : Obs) (returns : TTensor) (t : Torch)
  : result (UpdaterLog * Torch) :=
  critic_parameters <- _get_model_parameters model ;;
  '(optimizer, critic_parameters) <-
    construct_optimizer self critic_parameters ;;
  let vals :=
    match model with
    | a_Critic c => forward c (store t) observations None
    | an_ActorCritic m => forward_critic m (store t) observations None
    end in
  let loss := compute_loss self vals returns in
  t <- call_run_optimizer self optimizer loss critic_parameters t ;;
  Ok ({| loss := loss_value (graph loss) |}, t).

(** [QRegression.__call__] *)
Definition QRegression_call (self : Updater) (model : Model)
  (observations : Obs) (returns : TTensor) (actions : option Act) (t : Torch)
  : result (UpdaterLog * Torch) :=
  critic_parameters <- _get_model_parameters model ;;
  '(optimizer, critic_parameters) <-
    construct_optimizer self critic_parameters ;;
  let q_values :=
    match model with
    | a_Critic c => forward c (store t) observations actions
    | an_ActorCritic m => forward_critic m (store t) observations actions
    end in
  let loss := compute_loss self q_values returns in
  t <- call_run_optimizer self optimizer loss critic_parameters t ;;
  Ok ({| loss := loss_value (graph loss) |}, t).

(** [SoftQRegression.__call__], lines 193 to 201: the next-state Q-values. *)
Definition next_q_values (model : ActorCritic) (s : Store)
  (next_observations : Obs) (next_actions : Act) : result TTensor :=
  if hasattr (target_critic model) then
    tc <- getattr "target_critic" (target_critic model) ;;
    if hasattr (critic2 model) then
      let q_values1 := forward tc s next_observations (Some next_actions) in
      tc2 <- getattr "target_critic2" (target_critic2 model) ;;
      let q_values2 := forward tc2 s next_observations (Some next_actions) in
      T_min q_values1 q_values2
    else
      Ok (forward tc s next_observations (Some next_actions))
  else
    Ok (forward (critic model) s next_observations (Some next_actions)).

(** [SoftQRegression.__call__], lines 189 to 205: the regression target. *)
Definition q_target (model : ActorCritic) (s : Store) (next_observations : Obs)
  (rewards dones : Tensor) (alpha gamma : R) : result Tensor :=
  let next_action_distributions :=
    get_action_distribution model s next_observations in
  let next_actions := rsample next_action_distributions in
  let log_probs := log_prob next_action_distributions next_actions in
  q_values <- next_q_values model s next_observations next_actions ;;
  q_values <- numpy q_values ;;
  log_probs <- numpy log_probs ;;
  soft_q_target rewards dones q_values log_probs alpha gamma.

(** [SoftQRegression.__call__], lines 207 to 209: the loss against a
    target. *)
Definition soft_q_loss (self : Updater) (model : ActorCritic) (s : Store)
  (observations : Obs) (actions : Act) (target : Tensor) : LossTensor :=
  let loss :=
    compute_loss self (forward (critic model) s observations (Some actions))
      (detached target) in
  match critic2 model with
  | Some c2 =>
      loss_iadd loss
        (compute_loss self (forward c2 s observations (Some actions))
           (detached target))
  | None => loss
  end.

(** [SoftQRegression.__call__] *)
Definition SoftQRegression_call (self : Updater) (model : ActorCritic)
  (observations next_observations : Obs) (actions : Act)
  (rewards dones : Tensor) (alpha gamma : R) (t : Torch)
  : result (UpdaterLog * Torch) :=
  critic_parameters <- _get_model_parameters (an_ActorCritic model) ;;
  '(optimizer, critic_parameters) <-
    construct_optimizer self critic_parameters ;;
  target <- q_target model (store t) next_observations rewards dones
              alpha gamma ;;
  let loss := soft_q_loss self model (store t) observations actions target in
  t <- call_run_optimizer self optimizer loss critic_parameters t ;;
  Ok ({| loss := loss_value (graph loss) |}, t).

(** The next-state Q-values as the specification words them: the minimum
    of the two target critics when the model has both, the single target
    critic when it has one, the live critic when it has none. *)
Definition next_q_values_as_specified (model : ActorCritic) (s : Store)
  (next_observations : Obs) (next_actions : Act) : result TTensor :=
  let q n := forward n s next_observations (Some next_actions) in
  match target_critic model, target_critic2 model with
  | Some tc, Some tc2 => T_min (q tc) (q tc2)
  | Some tc, None => Ok (q tc)
  | None, Some tc2 => Ok (q tc2)
  | None, None => Ok (q (critic model))
  end.

(** The loss of [ValueRegression] and [QRegression]. *)
Definition regression_loss (self : Updater) (model : Model) (s : Store)
  (observations : Obs) (actions : option Act) (returns : TTensor)
  : LossTensor :=
  compute_loss self
    match model with
    | a_Critic c => forward c s observations actions
    | an_ActorCritic m => forward_critic m s observations actions
    end returns.

(** The next actions and their log-probabilities, as [__call__] reads
    them. *)
Definition next_actions_of (model : ActorCritic) (s : Store)
  (next_observations : Obs) : Act :=
  rsample (get_action_distribution model s next_observations).

Definition next_log_probs (model : ActorCritic) (s : Store)
  (next_observations : Obs) : TTensor :=
  let d := get_action_distribution model s next_observations in
  log_prob d (rsample d).

End Regression.

Arguments parameters {Obs Act} n.
Arguments forward {Obs Act} n s o a.
Arguments rsample {Act} d.
Arguments log_prob {Act} d a.
Arguments actor {Obs Act} a.
Arguments critic {Obs Act} a.
Arguments critic2 {Obs Act} a.
Arguments target_critic {Obs Act} a.
Arguments target_critic2 {Obs Act} a.
Arguments get_action_distribution {Obs Act} a s o.
Arguments forward_critic {Obs Act} a s o act.
Arguments a_Critic {Obs Act} c.
Arguments an_ActorCritic {Obs Act} m.
Arguments _get_model_parameters {Obs Act} model.
Arguments ValueRegression_call {Obs Act} self model observations returns t.
Arguments QRegression_call {Obs Act} self model observations returns actions t.
Arguments next_q_values {Obs Act} model s next_observations next_actions.
Arguments next_q_values_as_specified {Obs Act} model s next_observations
  next_actions.
Arguments q_target {Obs Act} model s next_observations rewards dones alpha
  gamma.
Arguments soft_q_loss {Obs Act} self model s observations actions target.
Arguments regression_loss {Obs Act} self model s observations actions returns.
Arguments SoftQRegression_call {Obs Act} self model observations
  next_observations actions rewards dones alpha gamma t.
Arguments next_actions_of {Obs Act} model s next_observations.
Arguments next_log_probs {Obs Act} model s next_observations.

(** ** The parameter store under [for_each] *)

Lemma upd_same (s : Store) (p : pid) (v : Param) : upd s p v p = v.
Proof. unfold upd. now rewrite Nat.eqb_refl. Qed.

Lemma upd_other (s : Store) (p q : pid) (v : Param) :
  q <> p -> upd s p v q = s q.
Proof.
  intros Hne. unfold upd.
  destruct (Nat.eqb_spec q p) as [Heq | _]; [contradiction | reflexivity].
Qed.

(** A parameter listed [k] times is visited [k] times. *)
Lemma for_each_iter (f : Param -> Param) (ps : list pid) :
  forall (s : Store) (p : pid),
    for_each ps f s p = Nat.iter (count_occ Nat.eq_dec ps p) f (s p).
Proof.
  unfold for_each.
  induction ps as [| a ps IH]; intros s p; simpl; [reflexivity |].
  rewrite IH.
  destruct (Nat.eq_dec a p) as [-> | Hne].
  - rewrite upd_same. symmetry. apply Nat.iter_succ_r.
  - rewrite upd_other by congruence. reflexivity.
Qed.

Lemma for_each_notin (f : Param -> Param) (ps : list pid) (s : Store) (p : pid) :
  ~ In p ps -> for_each ps f s p = s p.
Proof.
  intros Hnin. rewrite for_each_iter.
  apply (count_occ_not_In Nat.eq_dec) in Hnin. now rewrite Hnin.
Qed.

Lemma iter_keeps_grad (f : Param -> Param) (k : nat) (x : Param) :
  (forall y, grad (f y) = grad y) -> grad (Nat.iter k f x) = grad x.
Proof.
  intros Hf. induction k as [| k IH]; simpl; [reflexivity |].
  now rewrite Hf.
Qed.

Lemma iter_keeps_data (f : Param -> Param) (k : nat) (x : Param) :
  (forall y, data (f y) = data y) -> data (Nat.iter k f x) = data x.
Proof.
  intros Hf. induction k as [| k IH]; simpl; [reflexivity |].
  now rewrite Hf.
Qed.

Lemma iter_scale_grad (c : R) (k : nat) (x : Param) :
  grad (Nat.iter k (fun y => {| data := data y; grad := grad y * c |}) x)
  = grad x * c ^ k.
Proof.
  induction k as [| k IH]; simpl; [ring |].
  rewrite IH. ring.
Qed.

(** ** The calls and the gradients of [run_optimizer] *)

Lemma step_grad (o : Optimizer) (t : Torch) (p : pid) :
  grad (store (step o t) p) = grad (store t p).
Proof.
  unfold step, log_call; simpl. rewrite for_each_iter.
  now apply iter_keeps_grad.
Qed.

Lemma step_data_notin (o : Optimizer) (t : Torch) (p : pid) :
  ~ In p (param_groups o) -> data (store (step o t) p) = data (store t p).
Proof.
  intros Hnin. unfold step, log_call; simpl.
  now rewrite for_each_notin.
Qed.

Lemma zero_grad_data (o : Optimizer) (t : Torch) (p : pid) :
  data (store (zero_grad o t) p) = data (store t p).
Proof.
  unfold zero_grad, log_call; simpl. rewrite for_each_iter.
  now apply iter_keeps_data.
Qed.

Lemma zero_grad_grad_in (o : Optimizer) (t : Torch) (p : pid) :
  In p (param_groups o) -> grad (store (zero_grad o t) p) = 0.
Proof.
  intros Hin. unfold zero_grad, log_call; simpl. rewrite for_each_iter.
  apply (count_occ_In Nat.eq_dec) in Hin.
  destruct (count_occ Nat.eq_dec (param_groups o) p) as [| k]; [lia |].
  reflexivity.
Qed.

Lemma backward_data (l : Loss) (t : Torch) (p : pid) :
  data (store (backward l t) p) = data (store t p).
Proof. reflexivity. Qed.

Lemma clip_data (ps : list pid) (m : R) (t : Torch) (p : pid) :
  data (store (clip_grad_norm_ ps m t) p) = data (store t p).
Proof.
  unfold clip_grad_norm_, log_call; simpl. rewrite for_each_iter.
  now apply iter_keeps_data.
Qed.

Lemma sum_sq_nonneg (ps : list pid) (s : Store) : 0 <= sum_sq ps s.
Proof.
  induction ps as [| p ps IH]; simpl; [lra |].
  pose proof (Rle_0_sqr (grad (s p))) as Hsq. unfold Rsqr in Hsq. lra.
Qed.

Lemma total_norm_nonneg (ps : list pid) (s : Store) : 0 <= total_norm ps s.
Proof. apply sqrt_pos. Qed.

Lemma clip_eps_pos : 0 < clip_eps.
Proof. unfold clip_eps. apply Rinv_0_lt_compat. lra. Qed.

Lemma clip_coef_bounds (ps : list pid) (m : R) (s : Store) :
  0 < m -> 0 < clip_coef ps m s <= 1.
Proof.
  intros Hm. unfold clip_coef.
  pose proof (total_norm_nonneg ps s) as Hn. pose proof clip_eps_pos as He.
  assert (0 < m / (total_norm ps s + clip_eps)) as Hq
    by (apply Rdiv_lt_0_compat; lra).
  split; [apply Rmin_glb_lt; lra | apply Rmin_r].
Qed.

Lemma pow_le_self (c : R) (k : nat) : 0 <= c <= 1 -> (0 < k)%nat -> 0 <= c ^ k <= c.
Proof.
  intros Hc Hk. destruct k as [| k]; [lia |]. simpl.
  assert (0 <= c ^ k <= 1) as Hp.
  { split; [apply pow_le; lra |]. rewrite <- (pow1 k). apply pow_incr. lra. }
  split; nra.
Qed.

(** Scaling every listed gradient (at least once) by [c] scales the sum of
    squares by at most [c * c]. *)
Lemma sum_sq_scaled (c : R) (s s' : Store) (ps : list pid) :
  (forall p, In p ps -> grad (s' p) * grad (s' p) <= c * c * (grad (s p) * grad (s p))) ->
  sum_sq ps s' <= c * c * sum_sq ps s.
Proof.
  induction ps as [| p ps IH]; intros Hps; simpl; [lra |].
  assert (sum_sq ps s' <= c * c * sum_sq ps s) as Hrest
    by (apply IH; intros q Hq; apply Hps; now right).
  pose proof (Hps p (or_introl eq_refl)) as Hp. lra.
Qed.

Lemma clip_grad_norm_bound (ps : list pid) (m : R) (t : Torch) :
  0 < m -> total_norm ps (store (clip_grad_norm_ ps m t)) <= m.
Proof.
  intros Hm.
  pose proof (clip_coef_bounds ps m (store t) Hm) as [Hc0 Hc1].
  set (c := clip_coef ps m (store t)) in *.
  set (n := total_norm ps (store t)).
  pose proof (total_norm_nonneg ps (store t)) as Hn. fold n in Hn.
  pose proof clip_eps_pos as He.
  assert (sum_sq ps (store (clip_grad_norm_ ps m t))
          <= c * c * sum_sq ps (store t)) as Hsum.
  { apply sum_sq_scaled. intros p Hin.
    unfold clip_grad_norm_, log_call; simpl. fold c.
    rewrite for_each_iter, iter_scale_grad.
    apply (count_occ_In Nat.eq_dec) in Hin.
    pose proof (pow_le_self c _ (conj (Rlt_le _ _ Hc0) Hc1) Hin) as [Hk0 Hk1].
    set (g := grad (store t p)). set (ck := c ^ _) in *.
    assert (ck * ck <= c * c) as Hcc by nra.
    pose proof (Rle_0_sqr g) as Hg. unfold Rsqr in Hg.
    replace (g * ck * (g * ck)) with (ck * ck * (g * g)) by ring. nra. }
  assert (total_norm ps (store (clip_grad_norm_ ps m t)) <= c * n) as Hnorm.
  { unfold total_norm at 1.
    replace (c * n) with (sqrt (c * c * sum_sq ps (store t))).
    - apply sqrt_le_1_alt, Hsum.
    - rewrite sqrt_mult_alt by nra. unfold n, total_norm.
      fold (Rsqr c). rewrite sqrt_Rsqr by lra. reflexivity. }
  assert (c * n <= m) as Hcn.
  { assert (c <= m / (n + clip_eps)) as Hq by apply Rmin_l.
    assert (c * (n + clip_eps) <= m) as Hmul.
    { apply (Rmult_le_compat_r (n + clip_eps)) in Hq; [| lra].
      unfold Rdiv in Hq. rewrite Rmult_assoc, Rinv_l in Hq by lra. lra. }
    nra. }
  lra.
Qed.

Lemma sum_sq_ext (ps : list pid) (s s' : Store) :
  (forall p, grad (s p) = grad (s' p)) -> sum_sq ps s = sum_sq ps s'.
Proof.
  intros Hg. induction ps as [| p ps IH]; simpl; [reflexivity |].
  now rewrite IH, Hg.
Qed.

Lemma run_optimizer_frame (self : BaseCriticUpdater) (optimizer : Optimizer)
  (l : Loss) (critic_parameters : list pid) (t : Torch) (p : pid) :
  ~ In p (param_groups optimizer) ->
  data (store (run_optimizer self optimizer l critic_parameters t) p)
  = data (store t p).
Proof.
  intros Hnin. unfold run_optimizer.
  rewrite step_data_notin by assumption.
  destruct (Rlt_dec 0 (max_grad self)).
  - now rewrite clip_data, backward_data, zero_grad_data.
  - now rewrite backward_data, zero_grad_data.
Qed.

(** ** Examples: constant networks and plain gradient descent *)

Definition const_net (ps : list pid) (v : Tensor) (attached : bool)
  : Net unit unit :=
  {| parameters := ps;
     forward := fun _ _ _ => {| entries := v; requires_grad := attached |} |}.

Definition point_distribution (lp : Tensor) : Distribution unit :=
  {| rsample := tt; log_prob := fun _ => detached lp |}.

Definition sgd (rate : R) (x : Param) : R := data x - rate * grad x.

Definition sgd_updater (threshold : R) : Updater :=
  {| base := {| optimizer_class := sgd; updater_lr := 1; max_grad := threshold |};
     loss_class := fun _ _ => {| loss_value := 0; loss_grad := fun _ => 0 |} |}.

Definition zero_store : Store := fun _ => {| data := 0; grad := 0 |}.

Definition fresh_torch : Torch := {| store := zero_store; calls := [] |}.

(** A loss whose gradient is 3 on parameter 0 and 4 on parameter 1. *)
Definition loss_3_4 : Loss :=
  {| loss_value := 1;
     loss_grad := fun p => match p with O => 3 | S O => 4 | _ => 0 end |}.

(** A model with a frozen actor, a live critic [Q = 7] that is being
    trained, and the given twin and target attributes; the
    log-probabilities are [lp], without graph. *)
Definition example_model (c2 tc tc2 : option (Net unit unit)) (lp : Tensor)
  : ActorCritic unit unit :=
  {| actor := const_net [0%nat] [] false;
     critic := const_net [1%nat] [7] true;
     critic2 := c2;
     target_critic := tc;
     target_critic2 := tc2;
     get_action_distribution := fun _ _ => point_distribution lp;
     forward_critic := fun _ _ _ => {| entries := [7]; requires_grad := true |} |}.

(** ** Claims on [run_optimizer] and the optimised parameters *)

(** ** Claims on [run_optimizer] and the optimised parameters *)



(** ** The parameters handed to the optimizer *)

(** A live critic, a twin critic and two target critics without graph,
    [Q1 = 1] and [Q2 = 0]. *)
Definition twin_model : ActorCritic unit unit :=
  example_model (Some (const_net [2%nat] [7] true))
    (Some (const_net [3%nat] [1] false)) (Some (const_net [4%nat] [0] false))
    [0].

Section Twin.

Variables Obs Act : Type.

(** C8, where the code fails it.  On a model with a second critic
    [_get_model_parameters] does not answer the parameters of both critics:
    [critic_parameters += model.critic2.parameters()] adds to a generator,
    which raises a type error, and so does every call of one of the three
    updaters on such a model, before anything is optimised. *)
Theorem twin_critic_parameters_cannot_be_joined (self : Updater)
  (m : ActorCritic Obs Act) (c2 : Net Obs Act)
  (observations next_observations : Obs) (returns : TTensor)
  (actions : option Act) (act : Act) (rewards dones : Tensor)
  (alpha gamma : R) (t : Torch) :
  critic2 m = Some c2 ->
  _get_model_parameters (an_ActorCritic m) = Raise TypeError
  /\ ValueRegression_call self (an_ActorCritic m) observations returns t
     = Raise TypeError
  /\ QRegression_call self (an_ActorCritic m) observations returns actions t
     = Raise TypeError
  /\ SoftQRegression_call self m observations next_observations act rewards
       dones alpha gamma t
     = Raise TypeError.
Proof.
  intros Hc2.
  assert (_get_model_parameters (an_ActorCritic m) = Raise TypeError) as Hps
    by (simpl; now rewrite Hc2).
  split; [exact Hps |].
  unfold ValueRegression_call, QRegression_call, SoftQRegression_call.
  rewrite Hps. auto.
Qed.

End Twin.

Lemma twin_critic_parameters_cannot_be_joined_witness :
  _get_model_parameters (an_ActorCritic twin_model) = Raise TypeError
  /\ ValueRegression_call (sgd_updater 0) (an_ActorCritic twin_model) tt
       (detached [7]) fresh_torch
     = Raise TypeError
  /\ QRegression_call (sgd_updater 0) (an_ActorCritic twin_model) tt
       (detached [7]) None fresh_torch
     = Raise TypeError
  /\ SoftQRegression_call (sgd_updater 0) twin_model tt tt tt [0] [0] 0 1
       fresh_torch
     = Raise TypeError.
Proof.
  apply (twin_critic_parameters_cannot_be_joined unit unit (sgd_updater 0)
           twin_model (const_net [2%nat] [7] true)).
  reflexivity.
Defined.

(** ** The soft-Q regression target *)

Lemma zip_with_nth (f : R -> R -> R) :
  forall a b : Tensor,
    length b = length a ->
    exists r, zip_with f a b = Ok r
              /\ length r = length a
              /\ forall i, (i < length a)%nat ->
                           nth i r 0 = f (nth i a 0) (nth i b 0).
Proof.
  induction a as [| x a IH]; intros [| y b] Hlen; simpl in Hlen; try discriminate.
  - exists []. repeat split. intros i Hi. simpl in Hi. lia.
  - destruct (IH b) as (r & Hr & Hlr & Hnth); [lia |].
    exists (f x y :: r). simpl. rewrite Hr. simpl. repeat split.
    + now rewrite Hlr.
    + intros [| i] Hi; [reflexivity |]. apply Hnth. lia.
Qed.

Lemma zip_with_length (f : R -> R -> R) :
  forall a b r : Tensor, zip_with f a b = Ok r -> length b = length a.
Proof.
  induction a as [| x a IH]; intros [| y b] r H; simpl in H; try discriminate.
  - reflexivity.
  - destruct (zip_with f a b) as [r' | e] eqn:Hrest; simpl in H;
      [| discriminate].
    simpl. f_equal. eapply IH. exact Hrest.
Qed.

(** The entry of a batch that broadcasting pairs with position [i]. *)
Definition stretched (x : Tensor) (i : nat) : R :=
  nth (if Nat.eqb (length x) 1 then O else i) x 0.

Lemma map_nth_in (g : R -> R) (l : Tensor) (i : nat) :
  (i < length l)%nat -> nth i (map g l) 0 = g (nth i l 0).
Proof.
  intros Hi. rewrite (nth_indep _ 0 (g 0)) by now rewrite length_map.
  apply map_nth.
Qed.

Lemma broadcast_ok (f : R -> R -> R) (a b : Tensor) :
  length a = 1%nat \/ length b = 1%nat \/ length a = length b ->
  exists r,
    broadcast f a b = Ok r
    /\ length r = (if Nat.eqb (length a) 1 then length b else length a)
    /\ forall i, (i < length r)%nat ->
                 nth i r 0 = f (stretched a i) (stretched b i).
Proof.
  intros Hshape.
  destruct a as [| x [| x' a']].
  - destruct b as [| y [| y' b']].
    + exists []. simpl. repeat split. intros i Hi. simpl in Hi. lia.
    + exists []. simpl. repeat split. intros i Hi. simpl in Hi. lia.
    + simpl in Hshape. lia.
  - exists (map (f x) b). simpl. split; [reflexivity |].
    split; [apply length_map |].
    intros i Hi. rewrite length_map in Hi. rewrite map_nth_in by exact Hi.
    unfold stretched. simpl. f_equal.
    destruct (Nat.eqb_spec (length b) 1) as [H1 | _]; [| reflexivity].
    f_equal. lia.
  - destruct b as [| y [| y' b']].
    + simpl in Hshape. lia.
    + exists (map (fun v => f v y) (x :: x' :: a')).
      split; [reflexivity |]. split; [apply length_map |].
      intros i Hi. rewrite length_map in Hi. rewrite map_nth_in by exact Hi.
      reflexivity.
    + assert (length (y :: y' :: b') = length (x :: x' :: a')) as Hlen
        by (simpl in *; lia).
      destruct (zip_with_nth f _ _ Hlen) as (r & Hr & Hlr & Hnth).
      exists r. split; [exact Hr |]. split; [exact Hlr |].
      intros i Hi. rewrite Hlr in Hi. rewrite (Hnth i Hi). reflexivity.
Qed.

Lemma zip_with_raises (f : R -> R -> R) :
  forall (a b : Tensor) (e : exn), zip_with f a b = Raise e -> e = RuntimeError.
Proof.
  induction a as [| x a IH]; intros [| y b] e H; simpl in H; try congruence.
  destruct (zip_with f a b) as [r' | e'] eqn:Hrest; simpl in H;
    [discriminate |].
  injection H as <-. eapply IH. exact Hrest.
Qed.

Lemma broadcast_raises (f : R -> R -> R) (a b : Tensor) :
  ~ (length a = 1%nat \/ length b = 1%nat \/ length a = length b) ->
  broadcast f a b = Raise RuntimeError.
Proof.
  intros Hshape.
  destruct a as [| x [| x' a']]; destruct b as [| y [| y' b']];
    simpl in Hshape; try (exfalso; apply Hshape; auto; fail);
    try reflexivity.
  unfold broadcast.
  destruct (zip_with f (x :: x' :: a') (y :: y' :: b')) as [r | e] eqn:Hzip.
  - apply zip_with_length in Hzip. exfalso. apply Hshape. auto.
  - apply zip_with_raises in Hzip. now subst e.
Qed.

Lemma broadcast_same_length (f : R -> R -> R) (a b : Tensor) :
  length b = length a ->
  exists r,
    broadcast f a b = Ok r
    /\ length r = length a
    /\ forall i, (i < length a)%nat -> nth i r 0 = f (nth i a 0) (nth i b 0).
Proof.
  intros Hlen.
  destruct (broadcast_ok f a b) as (r & Hr & Hlr & Hnth); [auto |].
  assert (length r = length a) as Hla
    by (rewrite Hlr; destruct (Nat.eqb (length a) 1); congruence).
  exists r. split; [exact Hr |]. split; [exact Hla |].
  intros i Hi. rewrite Hnth by lia. unfold stretched. rewrite Hlen.
  destruct (Nat.eqb_spec (length a) 1) as [H1 | _]; [| reflexivity].
  replace i with O by lia. reflexivity.
Qed.

Lemma soft_q_target_nth (alpha gamma : R) :
  forall rewards dones q_values log_probs : Tensor,
    length dones = length rewards ->
    length q_values = length rewards ->
    length log_probs = length rewards ->
    exists target,
      soft_q_target rewards dones q_values log_probs alpha gamma = Ok target
      /\ length target = length rewards
      /\ forall i, (i < length rewards)%nat ->
           nth i target 0
           = nth i rewards 0
             + gamma * (1 - nth i dones 0)
               * (nth i q_values 0 - alpha * nth i log_probs 0).
Proof.
  induction rewards as [| r rewards IH];
    intros [| d dones] [| q q_values] [| l log_probs] Hd Hq Hl;
    simpl in Hd, Hq, Hl; try discriminate.
  - exists []. repeat split. intros i Hi. simpl in Hi. lia.
  - destruct (IH dones q_values log_probs) as (rest & Hrest & Hlen & Hnth);
      try lia.
    exists (r + gamma * (1 - d) * (q - alpha * l) :: rest).
    simpl. rewrite Hrest. simpl. repeat split.
    + now rewrite Hlen.
    + intros [| i] Hi; [reflexivity |]. apply Hnth. lia.
Qed.

Lemma numpy_detached (x : TTensor) :
  requires_grad x = false -> numpy x = Ok (entries x).
Proof. intros H. unfold numpy. now rewrite H. Qed.

Lemma numpy_attached (x : TTensor) :
  requires_grad x = true -> numpy x = Raise RuntimeError.
Proof. intros H. unfold numpy. now rewrite H. Qed.

(** What an updater does once it holds the parameters and the loss. *)
Lemma optimizer_round (self : Updater) (ps : Generator) (l : LossTensor)
  (t : Torch) :
  ps <> [] ->
  loss_requires_grad l = true ->
  ('(optimizer, critic_parameters) <- construct_optimizer self ps ;;
   t' <- call_run_optimizer self optimizer l critic_parameters t ;;
   Ok ({| loss := loss_value (graph l) |}, t'))
  = Ok ({| loss := loss_value (graph l) |},
        run_optimizer self (new_optimizer self ps) (graph l) [] t).
Proof.
  intros Hps Hl. destruct ps as [| p ps]; [contradiction |].
  simpl. unfold call_run_optimizer. rewrite Hl. reflexivity.
Qed.

Lemma optimizer_round_inv (self : Updater) (ps : Generator) (l : LossTensor)
  (t t' : Torch) (log : UpdaterLog) :
  ('(optimizer, critic_parameters) <- construct_optimizer self ps ;;
   t' <- call_run_optimizer self optimizer l critic_parameters t ;;
   Ok ({| loss := loss_value (graph l) |}, t'))
  = Ok (log, t') ->
  ps <> []
  /\ loss_requires_grad l = true
  /\ log = {| loss := loss_value (graph l) |}
  /\ t' = run_optimizer self (new_optimizer self ps) (graph l) [] t.
Proof.
  destruct ps as [| p ps]; simpl; [discriminate |].
  unfold call_run_optimizer.
  destruct (loss_requires_grad l); simpl; [| discriminate].
  intros H. injection H as <- <-. repeat split. discriminate.
Qed.

Lemma q_target_unfold {Obs Act : Type} (model : ActorCritic Obs Act)
  (s : Store) (next_observations : Obs) (rewards dones : Tensor)
  (alpha gamma : R) :
  q_target model s next_observations rewards dones alpha gamma
  = (q_values <- next_q_values model s next_observations
                   (next_actions_of model s next_observations) ;;
     q_values <- numpy q_values ;;
     log_probs <- numpy (next_log_probs model s next_observations) ;;
     soft_q_target rewards dones q_values log_probs alpha gamma).
Proof. reflexivity. Qed.

(** A single target critic without graph, [Q = 7], and no twin critic. *)
Definition single_target_model (lp : Tensor) : ActorCritic unit unit :=
  example_model None (Some (const_net [3%nat] [7] false)) None lp.

Section Targets.

Variables Obs Act : Type.

(** C1. The target that [SoftQRegression.__call__] regresses to is, entry
    by entry, [r + gamma * (1 - d) * (Q_next - alpha * logp)], whatever the
    rewards, done flags, next-state Q-values, log-probabilities, [alpha] and
    [gamma]; where [d = 1] the target is the reward itself.  The target is
    computed when the next-state Q-values and the log-probabilities are
    tensors without graph, which [numpy()] accepts, and the batches agree in
    length; the call then regresses the live critic to it when the model has
    no second critic, the critic has parameters and its prediction requires
    a gradient. *)
Theorem soft_q_target_is_bootstrapped (self : Updater)
  (model : ActorCritic Obs Act) (observations next_observations : Obs)
  (actions : Act) (rewards dones : Tensor) (q_next : TTensor)
  (alpha gamma : R) (t : Torch) :
  next_q_values model (store t) next_observations
    (next_actions_of model (store t) next_observations) = Ok q_next ->
  requires_grad q_next = false ->
  requires_grad (next_log_probs model (store t) next_observations) = false ->
  length dones = length rewards ->
  length (entries q_next) = length rewards ->
  length (entries (next_log_probs model (store t) next_observations))
  = length rewards ->
  exists target,
    q_target model (store t) next_observations rewards dones alpha gamma
    = Ok target
    /\ length target = length rewards
    /\ (forall i, (i < length rewards)%nat ->
          nth i target 0
          = nth i rewards 0
            + gamma * (1 - nth i dones 0)
              * (nth i (entries q_next) 0
                 - alpha * nth i (entries (next_log_probs model (store t)
                                             next_observations)) 0))
    /\ (forall i, (i < length rewards)%nat -> nth i dones 0 = 1 ->
          nth i target 0 = nth i rewards 0)
    /\ (critic2 model = None ->
        parameters (critic model) <> [] ->
        requires_grad (forward (critic model) (store t) observations
                         (Some actions)) = true ->
        exists t',
          SoftQRegression_call self model observations next_observations
            actions rewards dones alpha gamma t
          = Ok ({| loss :=
                     loss_value
                       (loss_class self
                          (forward (critic model) (store t) observations
                             (Some actions))
                          (detached target)) |}, t')).
Proof.
  intros Hq Hgq Hgl Hd Hlq Hll.
  destruct (soft_q_target_nth alpha gamma rewards dones (entries q_next)
              (entries (next_log_probs model (store t) next_observations))
              Hd Hlq Hll)
    as (target & Htarget & Hlen & Hnth).
  assert (q_target model (store t) next_observations rewards dones
            alpha gamma = Ok target) as Hqt.
  { rewrite q_target_unfold, Hq. cbn [bind].
    rewrite (numpy_detached _ Hgq). cbn [bind].
    rewrite (numpy_detached _ Hgl). cbn [bind]. exact Htarget. }
  exists target. repeat split; try assumption.
  - intros i Hi Hdone. rewrite (Hnth i Hi), Hdone. ring.
  - intros Hc2 Hps Hgrad. unfold SoftQRegression_call.
    simpl _get_model_parameters. rewrite Hc2. cbn [bind].
    destruct (parameters (critic model)) as [| p ps] eqn:Hparams;
      [contradiction |].
    cbn [construct_optimizer bind]. rewrite Hqt. cbn [bind].
    unfold call_run_optimizer, soft_q_loss. rewrite Hc2.
    cbn [compute_loss loss_requires_grad graph detached requires_grad].
    rewrite Hgrad. cbn [orb bind]. eexists. reflexivity.
Qed.

End Targets.

(** Reward 5 on a terminal transition, with [alpha = 2] and [gamma = 99/100],
    on a model with a single target critic. *)
Lemma soft_q_target_is_bootstrapped_witness :
  exists target,
    q_target (single_target_model [3]) zero_store tt [5] [1] 2 (99 / 100)
    = Ok target
    /\ nth 0 target 0 = 5
    /\ exists t',
         SoftQRegression_call (sgd_updater 0) (single_target_model [3]) tt tt tt
           [5] [1] 2 (99 / 100) fresh_torch
         = Ok ({| loss := 0 |}, t').
Proof.
  destruct (soft_q_target_is_bootstrapped unit unit (sgd_updater 0)
              (single_target_model [3]) tt tt tt [5] [1]
              {| entries := [7]; requires_grad := false |} 2 (99 / 100)
              fresh_torch)
    as (target & Htarget & _ & _ & Hdone & Hcall); try reflexivity.
  exists target. split; [exact Htarget |]. split.
  - apply (Hdone 0%nat); [simpl; lia | reflexivity].
  - apply Hcall; [reflexivity | discriminate | reflexivity].
Defined.

(** Two target critics without graph, [Q1 = 1] and [Q2 = 0], and no
    attribute [critic2]. *)
Definition two_targets_no_twin : ActorCritic unit unit :=
  example_model None (Some (const_net [3%nat] [1] false))
    (Some (const_net [4%nat] [0] false)) [0].

Lemma Rmin_1_0 : Rmin 1 0 = 0.
Proof. unfold Rmin. destruct (Rle_dec 1 0); lra. Qed.


Section Priority.

Variables Obs Act : Type.


(** C10, where the code fails it.  Once the model has [target_critic],
    lines 193 to 199 pick the double branch by the presence of the live twin
    [critic2], and that branch reads [target_critic2]: on a model with
    [target_critic] and [critic2] and without [target_critic2] these lines
    raise an attribute error, and on a model with two target critics and no
    [critic2] the next-state Q-values are the output of [target_critic]
    alone.  But a call on a model with [critic2] does not reach these lines:
    it raises a type error at line 186, where the parameters of the two
    critics are joined, and not the attribute error. *)
Theorem soft_q_branches_on_critic2 (self : Updater)
  (model : ActorCritic Obs Act) (tc : Net Obs Act) (t : Torch)
  (observations next_observations : Obs) (actions : Act)
  (rewards dones : Tensor) (alpha gamma : R) :
  target_critic model = Some tc ->
  let next_actions := next_actions_of model (store t) next_observations in
  (next_q_values model (store t) next_observations next_actions
   = if hasattr (critic2 model)
     then match target_critic2 model with
          | Some tc2 =>
              T_min (forward tc (store t) next_observations (Some next_actions))
                (forward tc2 (store t) next_observations (Some next_actions))
          | None => Raise (AttributeError "target_critic2")
          end
     else Ok (forward tc (store t) next_observations (Some next_actions)))
  /\ (forall c2, critic2 model = Some c2 -> target_critic2 model = None ->
        next_q_values model (store t) next_observations next_actions
        = Raise (AttributeError "target_critic2")
        /\ q_target model (store t) next_observations rewards dones alpha gamma
           = Raise (AttributeError "target_critic2")
        /\ SoftQRegression_call self model observations next_observations
             actions rewards dones alpha gamma t
           = Raise TypeError)
  /\ (forall tc2, target_critic2 model = Some tc2 -> critic2 model = None ->
        next_q_values model (store t) next_observations next_actions
        = Ok (forward tc (store t) next_observations (Some next_actions))).
Proof.
  intros Htc. cbv zeta.
  assert (next_q_values model (store t) next_observations
            (next_actions_of model (store t) next_observations)
          = if hasattr (critic2 model)
            then match target_critic2 model with
                 | Some tc2 =>
                     T_min
                       (forward tc (store t) next_observations
                          (Some (next_actions_of model (store t)
                                   next_observations)))
                       (forward tc2 (store t) next_observations
                          (Some (next_actions_of model (store t)
                                   next_observations)))
                 | None => Raise (AttributeError "target_critic2")
                 end
            else Ok (forward tc (store t) next_observations
                       (Some (next_actions_of model (store t)
                                next_observations))))
    as Hnext.
  { unfold next_q_values. rewrite Htc. simpl.
    destruct (critic2 model); simpl; [| reflexivity].
    destruct (target_critic2 model); reflexivity. }
  split; [exact Hnext |]. split.
  - intros c2 Hc2 Hnone. rewrite Hnext, Hc2, Hnone. split; [reflexivity |].
    split.
    + rewrite q_target_unfold, Hnext, Hc2, Hnone. reflexivity.
    + unfold SoftQRegression_call. simpl _get_model_parameters.
      rewrite Hc2. reflexivity.
  - intros tc2 _ Hc2. rewrite Hnext, Hc2. reflexivity.
Qed.

End Priority.


(** A twin critic and a single target critic. *)
Definition twin_single_target : ActorCritic unit unit :=
  example_model (Some (const_net [2%nat] [7] true))
    (Some (const_net [3%nat] [1] false)) None [0].

Lemma soft_q_branches_on_critic2_witness :
  next_q_values twin_single_target zero_store tt tt
  = Raise (AttributeError "target_critic2")
  /\ SoftQRegression_call (sgd_updater 0) twin_single_target tt tt tt [0] [0]
       0 1 fresh_torch
     = Raise TypeError
  /\ next_q_values two_targets_no_twin zero_store tt tt = Ok (detached [1]).
Proof.
  split; [| split].
  - destruct (soft_q_branches_on_critic2 unit unit (sgd_updater 0)
                twin_single_target (const_net [3%nat] [1] false) fresh_torch
                tt tt tt [0] [0] 0 1 eq_refl) as (_ & Hraise & _).
    exact (proj1 (Hraise (const_net [2%nat] [7] true) eq_refl eq_refl)).
  - destruct (soft_q_branches_on_critic2 unit unit (sgd_updater 0)
                twin_single_target (const_net [3%nat] [1] false) fresh_torch
                tt tt tt [0] [0] 0 1 eq_refl) as (_ & Hraise & _).
    exact (proj2 (proj2 (Hraise (const_net [2%nat] [7] true) eq_refl eq_refl))).
  - destruct (soft_q_branches_on_critic2 unit unit (sgd_updater 0)
                two_targets_no_twin (const_net [3%nat] [1] false) fresh_torch
                tt tt tt [0] [0] 0 1 eq_refl) as (_ & _ & Hsingle).
    exact (Hsingle (const_net [4%nat] [0] false) eq_refl eq_refl).
Defined.

(** ** One gradient step, in closed form *)

Definition loss_sum_sq (ps : list pid) (l : Loss) : R :=
  fold_right (fun p acc => loss_grad l p * loss_grad l p + acc) 0 ps.

(** A parameter after one step of the optimizer's rule on the gradient of
    the loss as [backward] leaves it. *)
Definition plain_step (self : BaseCriticUpdater) (l : Loss) (t : Torch)
  (p : pid) : Param :=
  {| data := optimizer_class self (updater_lr self)
               {| data := data (store t p); grad := loss_grad l p |};
     grad := loss_grad l p |}.

(** The updater with another clipping threshold. *)
Definition with_max_grad (threshold : R) (self : BaseCriticUpdater)
  : BaseCriticUpdater :=
  {| optimizer_class := optimizer_class self;
     updater_lr := updater_lr self;
     max_grad := threshold |}.

Definition with_threshold (threshold : R) (self : Updater) : Updater :=
  {| base := with_max_grad threshold self; loss_class := loss_class self |}.

(** The torch calls of one optimisation round. *)
Definition optimisation_round (threshold : R) : list TorchCall :=
  [zero_grad_call; backward_call]
    ++ (if Rlt_dec 0 threshold then [clip_grad_norm_call threshold] else [])
    ++ [step_call].

Lemma param_eq (x : Param) (d g : R) :
  data x = d -> grad x = g -> x = {| data := d; grad := g |}.
Proof. destruct x; simpl; intros -> ->; reflexivity. Qed.

Lemma sum_sq_after_backward (o : Optimizer) (l : Loss) (t : Torch) :
  forall ps,
    (forall p, In p ps -> In p (param_groups o)) ->
    sum_sq ps (store (backward l (zero_grad o t))) = loss_sum_sq ps l.
Proof.
  induction ps as [| p ps IH]; intros Hin; [reflexivity |].
  unfold sum_sq, loss_sum_sq in *. cbn [fold_right].
  rewrite IH by (intros q Hq; apply Hin; now right).
  change (grad (store (backward l (zero_grad o t)) p))
    with (grad (store (zero_grad o t) p) + loss_grad l p).
  rewrite zero_grad_grad_in by (apply Hin; now left). ring.
Qed.

Lemma count_one_in (ps : list pid) (p : pid) :
  count_occ Nat.eq_dec ps p = 1%nat -> In p ps.
Proof. intros H. apply (count_occ_In Nat.eq_dec). lia. Qed.

Lemma run_optimizer_calls (self : BaseCriticUpdater) (o : Optimizer) (l : Loss)
  (cp : list pid) (t : Torch) :
  calls (run_optimizer self o l cp t)
  = calls t ++ optimisation_round (max_grad self).
Proof.
  unfold run_optimizer, optimisation_round.
  destruct (Rlt_dec 0 (max_grad self)); simpl; rewrite <- !app_assoc;
    reflexivity.
Qed.

Lemma run_optimizer_exhausted (self : BaseCriticUpdater) (ps : list pid)
  (l : Loss) (t : Torch) (p : pid) :
  count_occ Nat.eq_dec ps p = 1%nat ->
  store (run_optimizer self (new_optimizer self ps) l [] t) p
  = plain_step self l t p.
Proof.
  intros Hone. pose proof (count_one_in _ _ Hone) as Hin.
  set (o := new_optimizer self ps).
  set (tb := backward l (zero_grad o t)).
  assert (store tb p = {| data := data (store t p); grad := loss_grad l p |})
    as Hp.
  { apply param_eq.
    - unfold tb. now rewrite backward_data, zero_grad_data.
    - unfold tb.
      change (grad (store (zero_grad o t) p) + loss_grad l p = loss_grad l p).
      rewrite zero_grad_grad_in by exact Hin. ring. }
  assert (forall tc, store tc p = store tb p ->
                     store (step o tc) p = plain_step self l t p) as Hstep.
  { intros tc Htc. unfold step, log_call. cbn [store].
    rewrite for_each_iter. cbn [param_groups o new_optimizer]. rewrite Hone.
    cbn [Nat.iter nat_rect]. rewrite Htc, Hp. reflexivity. }
  unfold run_optimizer. fold o. fold tb. apply Hstep.
  destruct (Rlt_dec 0 (max_grad self)); reflexivity.
Qed.

(** The threshold plays no part in a round over an exhausted generator. *)
Lemma run_optimizer_exhausted_any (self : BaseCriticUpdater) (threshold : R)
  (o : Optimizer) (l : Loss) (t : Torch) (p : pid) :
  store (run_optimizer (with_max_grad threshold self) o l [] t) p
  = store (run_optimizer self o l [] t) p.
Proof.
  unfold run_optimizer, step, log_call. cbn [store].
  rewrite !for_each_iter. f_equal.
  cbn [max_grad with_max_grad].
  destruct (Rlt_dec 0 threshold), (Rlt_dec 0 (max_grad self)); reflexivity.
Qed.

(** Parameters 0 and 1, and a prediction that requires a gradient. *)
Definition trained_critic : Net unit unit := const_net [0; 1]%nat [7] true.

(** An updater whose loss has gradient 3 on parameter 0 and 4 on
    parameter 1. *)
Definition updater_3_4 (threshold : R) : Updater :=
  {| base := {| optimizer_class := sgd; updater_lr := 1; max_grad := threshold |};
     loss_class := fun _ _ => loss_3_4 |}.

Section Steps.

Variables Obs Act : Type.

Lemma ValueRegression_inv (self : Updater) (model : Model Obs Act)
  (observations : Obs) (returns : TTensor) (t t' : Torch) (log : UpdaterLog) :
  ValueRegression_call self model observations returns t = Ok (log, t') ->
  let l := regression_loss self model (store t) observations None returns in
  exists ps,
    _get_model_parameters model = Ok ps
    /\ ps <> []
    /\ loss_requires_grad l = true
    /\ log = {| loss := loss_value (graph l) |}
    /\ t' = run_optimizer self (new_optimizer self ps) (graph l) [] t.
Proof.
  unfold ValueRegression_call. intros H. cbv zeta.
  destruct (_get_model_parameters model) as [ps | e]; cbn [bind] in H;
    [| discriminate].
  exists ps. split; [reflexivity |].
  apply (optimizer_round_inv self ps
           (regression_loss self model (store t) observations None returns)).
  exact H.
Qed.

Lemma QRegression_inv (self : Updater) (model : Model Obs Act)
  (observations : Obs) (returns : TTensor) (actions : option Act)
  (t t' : Torch) (log : UpdaterLog) :
  QRegression_call self model observations returns actions t = Ok (log, t') ->
  let l := regression_loss self model (store t) observations actions returns in
  exists ps,
    _get_model_parameters model = Ok ps
    /\ ps <> []
    /\ loss_requires_grad l = true
    /\ log = {| loss := loss_value (graph l) |}
    /\ t' = run_optimizer self (new_optimizer self ps) (graph l) [] t.
Proof.
  unfold QRegression_call. intros H. cbv zeta.
  destruct (_get_model_parameters model) as [ps | e]; cbn [bind] in H;
    [| discriminate].
  exists ps. split; [reflexivity |].
  apply (optimizer_round_inv self ps
           (regression_loss self model (store t) observations actions returns)).
  exact H.
Qed.

Lemma SoftQRegression_inv (self : Updater) (m : ActorCritic Obs Act)
  (observations next_observations : Obs) (actions : Act)
  (rewards dones : Tensor) (alpha gamma : R) (t t' : Torch)
  (log : UpdaterLog) :
  SoftQRegression_call self m observations next_observations actions rewards
    dones alpha gamma t = Ok (log, t') ->
  exists ps target,
    _get_model_parameters (an_ActorCritic m) = Ok ps
    /\ ps <> []
    /\ q_target m (store t) next_observations rewards dones alpha gamma
       = Ok target
    /\ let l := soft_q_loss self m (store t) observations actions target in
       loss_requires_grad l = true
       /\ log = {| loss := loss_value (graph l) |}
       /\ t' = run_optimizer self (new_optimizer self ps) (graph l) [] t.
Proof.
  unfold SoftQRegression_call. intros H.
  destruct (_get_model_parameters (an_ActorCritic m)) as [ps | e];
    cbn [bind] in H; [| discriminate].
  destruct ps as [| p ps]; [discriminate |].
  cbn [construct_optimizer bind] in H.
  destruct (q_target m (store t) next_observations rewards dones alpha gamma)
    as [target | e]; cbn [bind] in H; [| discriminate].
  exists (p :: ps), target.
  split; [reflexivity |]. split; [discriminate |]. split; [reflexivity |].
  cbv zeta. unfold call_run_optimizer in H.
  destruct (loss_requires_grad
              (soft_q_loss self m (store t) observations actions target));
    cbn [bind] in H; [| discriminate].
  injection H as <- <-. auto.
Qed.

(** X1. Given a loss that requires a gradient, an update moves each critic
    parameter that the generator yields once by one step of the optimizer's
    rule on the gradient of the loss itself, whatever [max_grad] is: the
    constructor of the optimizer has exhausted the generator that
    [run_optimizer] clips.  This holds for the three updaters. *)
Theorem updaters_step_on_the_unclipped_gradient (self : Updater)
  (model : Model Obs Act) (ps : list pid) (p : pid) (observations : Obs)
  (returns : TTensor) (actions : option Act) (t : Torch) :
  _get_model_parameters model = Ok ps ->
  count_occ Nat.eq_dec ps p = 1%nat ->
  (let l := regression_loss self model (store t) observations None returns in
   loss_requires_grad l = true ->
   exists log t',
     ValueRegression_call self model observations returns t = Ok (log, t')
     /\ store t' p = plain_step self (graph l) t p)
  /\ (let l := regression_loss self model (store t) observations actions
                 returns in
      loss_requires_grad l = true ->
      exists log t',
        QRegression_call self model observations returns actions t
        = Ok (log, t')
        /\ store t' p = plain_step self (graph l) t p)
  /\ (forall (m : ActorCritic Obs Act) next_observations act rewards dones
             alpha gamma target,
        model = an_ActorCritic m ->
        q_target m (store t) next_observations rewards dones alpha gamma
        = Ok target ->
        let l := soft_q_loss self m (store t) observations act target in
        loss_requires_grad l = true ->
        exists log t',
          SoftQRegression_call self m observations next_observations act
            rewards dones alpha gamma t = Ok (log, t')
          /\ store t' p = plain_step self (graph l) t p).
Proof.
  intros Hps Hone.
  assert (ps <> []) as Hne
    by (intros ->; simpl in Hone; discriminate).
  split; [| split].
  - cbv zeta. intros Hl. unfold ValueRegression_call. rewrite Hps. cbn [bind].
    fold (regression_loss self model (store t) observations None returns).
    rewrite optimizer_round by assumption.
    eexists _, _. split; [reflexivity |]. now apply run_optimizer_exhausted.
  - cbv zeta. intros Hl. unfold QRegression_call. rewrite Hps. cbn [bind].
    fold (regression_loss self model (store t) observations actions returns).
    rewrite optimizer_round by assumption.
    eexists _, _. split; [reflexivity |]. now apply run_optimizer_exhausted.
  - intros m next_observations act rewards dones alpha gamma target -> Hq.
    cbv zeta. intros Hl. unfold SoftQRegression_call. rewrite Hps. cbn [bind].
    destruct ps as [| p0 ps]; [contradiction |].
    cbn [construct_optimizer bind]. rewrite Hq. cbn [bind].
    unfold call_run_optimizer. rewrite Hl. cbn [bind].
    eexists _, _. split; [reflexivity |]. now apply run_optimizer_exhausted.
Qed.

(** X2. [max_grad] has no effect on what an updater leaves behind: a call
    records the round [zero_grad], [backward], [clip_grad_norm_] when
    [max_grad] is positive, [step], and the same call with any other
    threshold returns the same log and the same parameters and gradients. *)
Theorem max_grad_is_void_in_the_updaters (self : Updater) (threshold : R)
  (model : Model Obs Act) (observations : Obs) (returns : TTensor)
  (actions : option Act) (t : Torch) :
  (forall log t',
     ValueRegression_call self model observations returns t = Ok (log, t') ->
     calls t' = calls t ++ optimisation_round (max_grad self)
     /\ exists t'',
          ValueRegression_call (with_threshold threshold self) model
            observations returns t = Ok (log, t'')
          /\ forall p, store t'' p = store t' p)
  /\ (forall log t',
        QRegression_call self model observations returns actions t
        = Ok (log, t') ->
        calls t' = calls t ++ optimisation_round (max_grad self)
        /\ exists t'',
             QRegression_call (with_threshold threshold self) model
               observations returns actions t = Ok (log, t'')
             /\ forall p, store t'' p = store t' p)
  /\ (forall (m : ActorCritic Obs Act) next_observations act rewards dones
             alpha gamma log t',
        SoftQRegression_call self m observations next_observations act
          rewards dones alpha gamma t = Ok (log, t') ->
        calls t' = calls t ++ optimisation_round (max_grad self)
        /\ exists t'',
             SoftQRegression_call (with_threshold threshold self) m
               observations next_observations act rewards dones alpha gamma t
             = Ok (log, t'')
             /\ forall p, store t'' p = store t' p).
Proof.
  split; [| split].
  - intros log t' H.
    apply ValueRegression_inv in H as (ps & Hps & Hne & Hl & -> & ->).
    split; [apply run_optimizer_calls |].
    unfold ValueRegression_call. rewrite Hps. cbn [bind].
    change (compute_loss (with_threshold threshold self))
      with (compute_loss self).
    fold (regression_loss self model (store t) observations None returns).
    rewrite optimizer_round by assumption.
    eexists. split; [reflexivity |].
    intros p. apply run_optimizer_exhausted_any.
  - intros log t' H.
    apply QRegression_inv in H as (ps & Hps & Hne & Hl & -> & ->).
    split; [apply run_optimizer_calls |].
    unfold QRegression_call. rewrite Hps. cbn [bind].
    change (compute_loss (with_threshold threshold self))
      with (compute_loss self).
    fold (regression_loss self model (store t) observations actions returns).
    rewrite optimizer_round by assumption.
    eexists. split; [reflexivity |].
    intros p. apply run_optimizer_exhausted_any.
  - intros m next_observations act rewards dones alpha gamma log t' H.
    apply SoftQRegression_inv in H
      as (ps & target & Hps & Hne & Hq & Hl & -> & ->).
    split; [apply run_optimizer_calls |].
    unfold SoftQRegression_call. rewrite Hps. cbn [bind].
    destruct ps as [| p0 ps]; [contradiction |].
    cbn [construct_optimizer bind]. rewrite Hq. cbn [bind].
    change (@soft_q_loss Obs Act (with_threshold threshold self))
      with (@soft_q_loss Obs Act self).
    unfold call_run_optimizer. rewrite Hl. cbn [bind].
    eexists. split; [reflexivity |].
    intros p. apply run_optimizer_exhausted_any.
Qed.

End Steps.

Lemma updaters_step_on_the_unclipped_gradient_witness :
  exists log t',
    ValueRegression_call (updater_3_4 1) (a_Critic trained_critic) tt
      (detached [7]) fresh_torch = Ok (log, t')
    /\ store t' 1%nat
       = plain_step (updater_3_4 1)
           (graph (regression_loss (updater_3_4 1) (a_Critic trained_critic)
                     zero_store tt None (detached [7])))
           fresh_torch 1%nat.
Proof.
  destruct (updaters_step_on_the_unclipped_gradient unit unit (updater_3_4 1)
              (a_Critic trained_critic) [0; 1]%nat 1%nat tt (detached [7]) None
              fresh_torch eq_refl eq_refl) as [Hvalue _].
  apply Hvalue. reflexivity.
Defined.

(** With [max_grad = 1] and a gradient of norm 5 the update is the one
    that [max_grad = 0] makes: the gradients stay at 3 and 4. *)
Lemma max_grad_is_void_in_the_updaters_witness :
  exists log t' t'',
    ValueRegression_call (updater_3_4 1) (a_Critic trained_critic) tt
      (detached [7]) fresh_torch = Ok (log, t')
    /\ calls t' = [zero_grad_call; backward_call; clip_grad_norm_call 1;
                   step_call]
    /\ ValueRegression_call (with_threshold 0 (updater_3_4 1))
         (a_Critic trained_critic) tt (detached [7]) fresh_torch
       = Ok (log, t'')
    /\ (forall p, store t'' p = store t' p)
    /\ grad (store t' 0%nat) = 3
    /\ grad (store t' 1%nat) = 4.
Proof.
  assert (ValueRegression_call (updater_3_4 1) (a_Critic trained_critic) tt
            (detached [7]) fresh_torch
          = Ok ({| loss := 1 |},
                run_optimizer (updater_3_4 1)
                  (new_optimizer (updater_3_4 1) [0; 1]%nat) loss_3_4 []
                  fresh_torch)) as Ht' by reflexivity.
  destruct (max_grad_is_void_in_the_updaters unit unit (updater_3_4 1) 0
              (a_Critic trained_critic) tt (detached [7]) None fresh_torch)
    as [Hvoid _].
  destruct (Hvoid _ _ Ht') as (Hcalls & t'' & Ht'' & Hsame).
  eexists _, _, t''. split; [exact Ht' |]. split.
  - rewrite Hcalls. unfold optimisation_round. simpl.
    destruct (Rlt_dec 0 1) as [_ | Hn]; [reflexivity | lra].
  - split; [exact Ht'' |]. split; [exact Hsame |]. split.
    + unfold run_optimizer. rewrite step_grad.
      destruct (Rlt_dec 0 (max_grad (updater_3_4 1))); simpl; ring.
    + unfold run_optimizer. rewrite step_grad.
      destruct (Rlt_dec 0 (max_grad (updater_3_4 1))); simpl; ring.
Defined.

(** ** What clipping does to the gradients *)

Lemma for_each_ext (f : Param -> Param) (ps : list pid) (s s' : Store) :
  (forall p, s p = s' p) -> forall p, for_each ps f s p = for_each ps f s' p.
Proof. intros Hs p. now rewrite !for_each_iter, Hs. Qed.

Lemma iter_scale_one (k : nat) (x : Param) :
  Nat.iter k (fun y => {| data := data y; grad := grad y * 1 |}) x = x.
Proof.
  induction k as [| k IH]; simpl; [reflexivity |].
  rewrite IH. destruct x as [d g]. simpl. f_equal. ring.
Qed.

(** X3. Clipping acts only on a gradient whose norm exceeds the threshold:
    when the norm of the back-propagated gradients, plus the [1e-6] of
    torch, is within a positive [max_grad], [run_optimizer] leaves every
    parameter as it does with clipping switched off. *)
Theorem clipping_idle_within_threshold (self : BaseCriticUpdater)
  (o : Optimizer) (l : Loss) (critic_parameters : list pid) (t : Torch) :
  0 < max_grad self ->
  total_norm critic_parameters (store (backward l (zero_grad o t))) + clip_eps
  <= max_grad self ->
  forall p,
    store (run_optimizer self o l critic_parameters t) p
    = store (run_optimizer (with_max_grad 0 self) o l critic_parameters t) p.
Proof.
  intros Hpos Hnorm p. unfold run_optimizer. cbn [max_grad with_max_grad].
  destruct (Rlt_dec 0 (max_grad self)) as [_ | Hn]; [| contradiction].
  destruct (Rlt_dec 0 0) as [H0 | _]; [lra |].
  set (tb := backward l (zero_grad o t)) in *.
  unfold step, log_call. cbn [store]. apply for_each_ext. clear p. intros p.
  unfold clip_grad_norm_, log_call. cbn [store].
  assert (clip_coef critic_parameters (max_grad self) (store tb) = 1) as ->.
  { unfold clip_coef. apply Rmin_right.
    pose proof (total_norm_nonneg critic_parameters (store tb)) as Hn0.
    pose proof clip_eps_pos as He.
    apply (Rmult_le_reg_r (total_norm critic_parameters (store tb) + clip_eps));
      [lra |].
    unfold Rdiv. rewrite Rmult_assoc, Rinv_l by lra. lra. }
  rewrite for_each_iter. apply iter_scale_one.
Qed.

Lemma clipping_idle_within_threshold_witness :
  store (run_optimizer (sgd_updater 6) (new_optimizer (sgd_updater 6) [0; 1]%nat)
           loss_3_4 [0; 1]%nat fresh_torch) 0%nat
  = store (run_optimizer (with_max_grad 0 (sgd_updater 6))
             (new_optimizer (sgd_updater 6) [0; 1]%nat)
             loss_3_4 [0; 1]%nat fresh_torch) 0%nat.
Proof.
  apply (clipping_idle_within_threshold (sgd_updater 6)
           (new_optimizer (sgd_updater 6) [0; 1]%nat) loss_3_4 [0; 1]%nat
           fresh_torch).
  - simpl. lra.
  - unfold total_norm.
    rewrite (sum_sq_after_backward _ _ _ [0; 1]%nat) by (simpl; auto).
    unfold loss_sum_sq, clip_eps. simpl.
    replace (3 * 3 + (4 * 4 + 0)) with (Rsqr 5) by (unfold Rsqr; ring).
    rewrite sqrt_Rsqr by lra. lra.
Defined.

(** X4. With a positive threshold, [run_optimizer] leaves every gradient
    equal to the back-propagated one times a power of one common factor
    [c], [0 < c <= 1], the power being the number of times the parameter is
    listed for clipping: a parameter that is not listed keeps its gradient,
    one listed once has it times [c], and no gradient grows. *)
Theorem clipping_scales_by_one_factor (self : BaseCriticUpdater)
  (o : Optimizer) (l : Loss) (critic_parameters : list pid) (t : Torch) :
  0 < max_grad self ->
  exists c,
    0 < c <= 1
    /\ forall p,
         grad (store (run_optimizer self o l critic_parameters t) p)
         = grad (store (backward l (zero_grad o t)) p)
           * c ^ count_occ Nat.eq_dec critic_parameters p
         /\ Rabs (grad (store (run_optimizer self o l critic_parameters t) p))
            <= Rabs (grad (store (backward l (zero_grad o t)) p)).
Proof.
  intros Hpos.
  set (tb := backward l (zero_grad o t)).
  exists (clip_coef critic_parameters (max_grad self) (store tb)).
  pose proof (clip_coef_bounds critic_parameters (max_grad self) (store tb) Hpos)
    as [Hc0 Hc1].
  split; [auto |]. intros p.
  assert (grad (store (run_optimizer self o l critic_parameters t) p)
          = grad (store tb p)
            * clip_coef critic_parameters (max_grad self) (store tb)
              ^ count_occ Nat.eq_dec critic_parameters p) as Hgrad.
  { unfold run_optimizer. fold tb.
    destruct (Rlt_dec 0 (max_grad self)) as [_ | Hn]; [| contradiction].
    rewrite step_grad. unfold clip_grad_norm_, log_call. cbn [store].
    now rewrite for_each_iter, iter_scale_grad. }
  split; [exact Hgrad |]. rewrite Hgrad, Rabs_mult.
  set (k := count_occ Nat.eq_dec critic_parameters p).
  assert (0 <= clip_coef critic_parameters (max_grad self) (store tb) ^ k <= 1)
    as [Hk0 Hk1].
  { split; [apply pow_le; lra |]. rewrite <- (pow1 k). apply pow_incr. lra. }
  rewrite (Rabs_pos_eq _ Hk0).
  pose proof (Rabs_pos (grad (store tb p))). nra.
Qed.

Lemma clipping_scales_by_one_factor_witness :
  exists c,
    0 < c <= 1
    /\ forall p,
         grad (store (run_optimizer (sgd_updater 1)
                        (new_optimizer (sgd_updater 1) [0; 1]%nat) loss_3_4
                        [0]%nat fresh_torch) p)
         = grad (store (backward loss_3_4
                          (zero_grad (new_optimizer (sgd_updater 1) [0; 1]%nat)
                             fresh_torch)) p)
           * c ^ count_occ Nat.eq_dec [0]%nat p
         /\ Rabs (grad (store (run_optimizer (sgd_updater 1)
                                 (new_optimizer (sgd_updater 1) [0; 1]%nat)
                                 loss_3_4 [0]%nat fresh_torch) p))
            <= Rabs (grad (store (backward loss_3_4
                                    (zero_grad
                                       (new_optimizer (sgd_updater 1) [0; 1]%nat)
                                       fresh_torch)) p)).
Proof.
  apply (clipping_scales_by_one_factor (sgd_updater 1)
           (new_optimizer (sgd_updater 1) [0; 1]%nat) loss_3_4 [0]%nat
           fresh_torch).
  simpl. lra.
Defined.

(** ** The double-Q minimum *)

Section DoubleQ.

Variables Obs Act : Type.


End DoubleQ.

(** Target critics with outputs [1; 5] and [3]: the single entry of the
    second is paired with both entries of the first. *)
Definition stretched_twin_model : ActorCritic unit unit :=
  example_model (Some (const_net [2%nat] [7] true))
    (Some (const_net [3%nat] [1; 5] false)) (Some (const_net [4%nat] [3] false))
    [0; 0].


End Critics.

Module Agents.

Local Open Scope Z_scope.

(** ** A state and exception monad

    A method runs on the agent object: it returns a value, raises, or runs
    out of the fuel given to its [while] loop; the object keeps what was
    written to it in every case. *)

Inductive res (A : Type) : Type :=
| Val (a : A)
| Exc (e : exn)
| OutOfFuel.
Arguments Val {A} a.
Arguments Exc {A} e.
Arguments OutOfFuel {A}.

Definition M (St A : Type) : Type := St -> res A * St.

Definition ret {St A : Type} (a : A) : M St A := fun s => (Val a, s).

Definition bind {St A B : Type} (m : M St A) (k : A -> M St B) : M St B :=
  fun s =>
    match m s with
    | (Val a, s') => k a s'
    | (Exc e, s') => (Exc e, s')
    | (OutOfFuel, s') => (OutOfFuel, s')
    end.

Definition get {St : Type} : M St St := fun s => (Val s, s).

Definition modify {St : Type} (f : St -> St) : M St unit :=
  fun s => (Val tt, f s).

Definition lift {St A : Type} (r : res A) : M St A := fun s => (r, s).

Notation "x <- c1 ;; c2" := (bind c1 (fun x => c2))
  (at level 61, c1 at next level, right associativity).
Notation "' pat <- c1 ;; c2" := (bind c1 (fun x => match x with pat => c2 end))
  (at level 61, pat pattern, c1 at next level, right associativity).
Notation "c1 ;; c2" := (bind c1 (fun _ => c2))
  (at level 61, right associativity).

(** What a loop body tells its loop: go on, or [break]. *)
Inductive ctl : Type := Next | Break.

(** ** Strings, enumerations and arrays *)

Definition lower_ascii (c : ascii) : ascii :=
  let n := nat_of_ascii c in
  if andb (Nat.leb 65 n) (Nat.leb n 90) then ascii_of_nat (n + 32) else c.

(** [str.lower()] *)
Fixpoint lower (s : string) : string :=
  match s with
  | EmptyString => EmptyString
  | String c s' => String (lower_ascii c) (lower s')
  end.

Inductive TrainFrequencyType : Type := STEP | EPISODE.

(** Modelled from the spec: the enumeration [TrainFrequencyType] of
    [anvilrl.common.enumerations], which is not part of the sources at hand;
    its values are the kind strings "step" and "episode", and any other
    string is a configuration error. *)
Definition TrainFrequencyType_of (s : string) : res TrainFrequencyType :=
  if String.eqb s "step" then Val STEP
  else if String.eqb s "episode" then Val EPISODE
  else Exc ValueError.

(** [a // b] *)
Definition floordiv (a b : Z) : res Z :=
  if b =? 0 then Exc ZeroDivisionError else Val (a / b).

Fixpoint where_from (i : nat) (d : list bool) : list nat :=
  match d with
  | [] => []
  | b :: d' => if b then i :: where_from (S i) d' else where_from (S i) d'
  end.

(** [np.where(d)[0]]: the indices of the true entries. *)
Definition np_where (d : list bool) : list nat := where_from 0 d.

Fixpoint update_nth {A : Type} (i : nat) (v : A) (l : list A) : list A :=
  match l, i with
  | [], _ => []
  | _ :: l', O => v :: l'
  | x :: l', S i' => x :: update_nth i' v l'
  end.

(** [l[i] = v] *)
Definition set_index {A : Type} (l : list A) (i : nat) (v : A) : res (list A) :=
  if Nat.ltb i (List.length l) then Val (update_nth i v l) else Exc IndexError.

(** [dst[idx] = src[idx]] *)
Fixpoint assign_indices {A : Type} (dst : list A) (idx : list nat)
  (src : list A) : res (list A) :=
  match idx with
  | [] => Val dst
  | i :: idx' =>
      match nth_error src i with
      | None => Exc IndexError
      | Some v =>
          match set_index dst i v with
          | Val dst' => assign_indices dst' idx' src
          | Exc e => Exc e
          | OutOfFuel => OutOfFuel
          end
      end
  end.

(** [mask[idx] = True] *)
Fixpoint mark_true (mask : list bool) (idx : list nat) : res (list bool) :=
  match idx with
  | [] => Val mask
  | i :: idx' =>
      match set_index mask i true with
      | Val mask' => mark_true mask' idx'
      | Exc e => Exc e
      | OutOfFuel => OutOfFuel
      end
  end.

(** The done flag of a single environment is a scalar, kept here as an
    array of one entry; the truth value of any other array is an error. *)
Definition truth (d : list bool) : res bool :=
  match d with
  | [b] => Val b
  | _ => Exc ValueError
  end.

(** [all(l)] *)
Definition all (l : list bool) : bool := forallb (fun b => b) l.

(** The calls that the orchestrators make on their collaborators, in the
    order in which they are made.  A call of [_fit] is recorded with the
    step and episode counters that the agent has at that moment. *)
Inductive Call : Type :=
| env_step_call
| write_log_call (at_step : Z)
| reset_episode_log_call
| fit_call (at_step at_episode : Z).

Section Orchestrator.

(** The environment, the model, the logs and the callbacks are opaque:
    [Env] is the state of the environment, [Ob] one row of an observation,
    [Net] the model, [Cb] the state of a callback. *)
Variables Env Ob Act Rew Net Log Cb : Type.

Variable env_reset : Env -> list Ob * Env.
Variable env_step : Env -> Act -> (list Ob * Rew * list bool) * Env.
Variable env_render : Env -> Env.

(** [self.action_explorer(self.model, observation, self.step)] *)
Variable action_explorer : Net -> list Ob -> Z -> Act.

(** [callback.on_step(step)] answers and moves the callback on. *)
Variable on_step : Cb -> Z -> bool * Cb.

Record Trajectories : Type :=
  { t_observation : list Ob;
    t_action : Act;
    t_reward : Rew;
    t_next_observation : list Ob;
    t_done : list bool }.

(** The abstract method [_fit(batch_size, actor_epochs, critic_epochs)] of a
    concrete agent: it reads and writes the model and the buffer. *)
Variable _fit : Net -> list Trajectories -> Z -> Z -> Z
                -> Log * (Net * list Trajectories).

(** Modelled from the spec: the [Logger] of [anvilrl.common.logging_], which
    is not part of the sources at hand.  It holds the rewards of the running
    episode, the episode-done mask with one entry per environment, and the
    training logs; [reset_episode_log] clears the rewards and sets every
    entry of the mask back to false. *)
Record Logger : Type :=
  { num_envs : nat;
    episode_rewards : list Rew;
    episode_dones : list bool;
    train_logs : list Log }.

Definition new_Logger (n : nat) : Logger :=
  {| num_envs := n;
     episode_rewards := [];
     episode_dones := repeat false n;
     train_logs := [] |}.

Definition add_reward (r : Rew) (l : Logger) : Logger :=
  {| num_envs := num_envs l;
     episode_rewards := episode_rewards l ++ [r];
     episode_dones := episode_dones l;
     train_logs := train_logs l |}.

Definition set_episode_dones (mask : list bool) (l : Logger) : Logger :=
  {| num_envs := num_envs l;
     episode_rewards := episode_rewards l;
     episode_dones := mask;
     train_logs := train_logs l |}.

Definition reset_episode_log (l : Logger) : Logger :=
  {| num_envs := num_envs l;
     episode_rewards := [];
     episode_dones := repeat false (num_envs l);
     train_logs := train_logs l |}.

Definition add_train_log (log : Log) (l : Logger) : Logger :=
  {| num_envs := num_envs l;
     episode_rewards := episode_rewards l;
     episode_dones := episode_dones l;
     train_logs := train_logs l ++ [log] |}.

(** [BaseDeepAgent]: the attributes set by [__init__], and the calls made
    so far. *)
Record BaseDeepAgent : Type :=
  { env : Env;
    vector_env : bool;
    model : Net;
    training : bool;
    render : bool;
    buffer : list Trajectories;
    step : Z;
    episode : Z;
    done : bool;
    logger : Logger;
    callbacks : option (list Cb);
    history : list Call }.

Definition set_env (v : Env) (a : BaseDeepAgent) : BaseDeepAgent :=
  {| env := v; vector_env := vector_env a; model := model a;
     training := training a; render := render a; buffer := buffer a;
     step := step a; episode := episode a; done := done a;
     logger := logger a; callbacks := callbacks a; history := history a |}.

Definition set_model (v : Net) (a : BaseDeepAgent) : BaseDeepAgent :=
  {| env := env a; vector_env := vector_env a; model := v;
     training := training a; render := render a; buffer := buffer a;
     step := step a; episode := episode a; done := done a;
     logger := logger a; callbacks := callbacks a; history := history a |}.

Definition set_training (v : bool) (a : BaseDeepAgent) : BaseDeepAgent :=
  {| env := env a; vector_env := vector_env a; model := model a;
     training := v; render := render a; buffer := buffer a;
     step := step a; episode := episode a; done := done a;
     logger := logger a; callbacks := callbacks a; history := history a |}.

Definition set_buffer (v : list Trajectories) (a : BaseDeepAgent)
  : BaseDeepAgent :=
  {| env := env a; vector_env := vector_env a; model := model a;
     training := training a; render := render a; buffer := v;
     step := step a; episode := episode a; done := done a;
     logger := logger a; callbacks := callbacks a; history := history a |}.

Definition set_step (v : Z) (a : BaseDeepAgent) : BaseDeepAgent :=
  {| env := env a; vector_env := vector_env a; model := model a;
     training := training a; render := render a; buffer := buffer a;
     step := v; episode := episode a; done := done a;
     logger := logger a; callbacks := callbacks a; history := history a |}.

Definition set_episode (v : Z) (a : BaseDeepAgent) : BaseDeepAgent :=
  {| env := env a; vector_env := vector_env a; model := model a;
     training := training a; render := render a; buffer := buffer a;
     step := step a; episode := v; done := done a;
     logger := logger a; callbacks := callbacks a; history := history a |}.

Definition set_done (v : bool) (a : BaseDeepAgent) : BaseDeepAgent :=
  {| env := env a; vector_env := vector_env a; model := model a;
     training := training a; render := render a; buffer := buffer a;
     step := step a; episode := episode a; done := v;
     logger := logger a; callbacks := callbacks a; history := history a |}.

Definition set_logger (v : Logger) (a : BaseDeepAgent) : BaseDeepAgent :=
  {| env := env a; vector_env := vector_env a; model := model a;
     training := training a; render := render a; buffer := buffer a;
     step := step a; episode := episode a; done := done a;
     logger := v; callbacks := callbacks a; history := history a |}.

Definition set_callbacks (v : option (list Cb)) (a : BaseDeepAgent)
  : BaseDeepAgent :=
  {| env := env a; vector_env := vector_env a; model := model a;
     training := training a; render := render a; buffer := buffer a;
     step := step a; episode := episode a; done := done a;
     logger := logger a; callbacks := v; history := history a |}.

Definition record (c : Call) (a : BaseDeepAgent) : BaseDeepAgent :=
  {| env := env a; vector_env := vector_env a; model := model a;
     training := training a; render := render a; buffer := buffer a;
     step := step a; episode := episode a; done := done a;
     logger := logger a; callbacks := callbacks a;
     history := history a ++ [c] |}.

(** [self.env.reset()] *)
Definition reset_env : M BaseDeepAgent (list Ob) :=
  fun a => let '(o, e) := env_reset (env a) in (Val o, set_env e a).

(** [[callback.on_step(step) for callback in callbacks]]: every callback is
    asked, in order. *)
Fixpoint ask_callbacks (cbs : list Cb) (at_step : Z) : list bool * list Cb :=
  match cbs with
  | [] => ([], [])
  | cb :: cbs' =>
      let '(answer, cb') := on_step cb at_step in
      let '(answers, cbs'') := ask_callbacks cbs' at_step in
      (answer :: answers, cb' :: cbs'')
  end.

(** One round of the [for] loop of [BaseDeepAgent.step_env]. *)
Definition interact (observation : list Ob) : M BaseDeepAgent (ctl * list Ob) :=
  a <- get ;;
  (if render a then modify (set_env (env_render (env a))) else ret tt) ;;
  a <- get ;;
  let action := action_explorer (model a) observation (step a) in
  let '((next_observation, reward, d), e) := env_step (env a) action in
  modify (fun a => record env_step_call (set_env e a)) ;;
  modify (fun a =>
            set_buffer (buffer a ++ [{| t_observation := observation;
                                        t_action := action;
                                        t_reward := reward;
                                        t_next_observation := next_observation;
                                        t_done := d |}]) a) ;;
  modify (fun a => set_logger (add_reward reward (logger a)) a) ;;
  let done_indices := np_where d in
  observation <-
    (if vector_env a then
       let not_done_indices := np_where (map negb d) in
       fresh <- reset_env ;;
       observation <- lift (assign_indices observation done_indices fresh) ;;
       lift (assign_indices observation not_done_indices next_observation)
     else
       finished <- lift (truth d) ;;
       if finished then reset_env else ret next_observation) ;;
  a <- get ;;
  mask <- lift (mark_true (episode_dones (logger a)) done_indices) ;;
  modify (fun a => set_logger (set_episode_dones mask (logger a)) a) ;;
  (if all mask then
     modify (fun a => record (write_log_call (step a)) a) ;;
     modify (fun a => record reset_episode_log_call
                        (set_logger (reset_episode_log (logger a)) a)) ;;
     modify (fun a => set_episode (episode a + 1) a)
   else ret tt) ;;
  a <- get ;;
  match callbacks a with
  | Some cbs =>
      let '(answers, cbs') := ask_callbacks cbs (step a) in
      modify (set_callbacks (Some cbs')) ;;
      if negb (all answers) then
        modify (set_done true) ;;
        ret (Break, observation)
      else
        modify (fun a => set_step (step a + 1) a) ;;
        ret (Next, observation)
  | None =>
      modify (fun a => set_step (step a + 1) a) ;;
      ret (Next, observation)
  end.

Fixpoint step_env_rounds (rounds : nat) (observation : list Ob)
  : M BaseDeepAgent (list Ob) :=
  match rounds with
  | O => ret observation
  | S rounds' =>
      '(c, observation) <- interact observation ;;
      match c with
      | Break => ret observation
      | Next => step_env_rounds rounds' observation
      end
  end.

(** [BaseDeepAgent.step_env] *)
Definition step_env (observation : list Ob) (num_steps : Z)
  : M BaseDeepAgent (list Ob) :=
  modify (set_training false) ;;
  step_env_rounds (Z.to_nat num_steps) observation.

(** [while self.episode != end_episode: observation = self.step_env(...)] *)
Fixpoint wait_for_episode (fuel : nat) (end_episode : Z) (observation : list Ob)
  : M BaseDeepAgent (list Ob) :=
  a <- get ;;
  if episode a =? end_episode then ret observation
  else
    match fuel with
    | O => lift OutOfFuel
    | S fuel' =>
        observation <- step_env observation 1 ;;
        wait_for_episode fuel' end_episode observation
    end.

(** The training step that ends a round of the loop of [fit]. *)
Definition train (batch_size actor_epochs critic_epochs : Z)
  : M BaseDeepAgent unit :=
  modify (set_training true) ;;
  a <- get ;;
  modify (record (fit_call (step a) (episode a))) ;;
  let '(train_log, (net, buf)) :=
    _fit (model a) (buffer a) batch_size actor_epochs critic_epochs in
  modify (fun a => set_buffer buf (set_model net a)) ;;
  modify (fun a => set_logger (add_train_log train_log (logger a)) a).

(** One round of the loop of [BaseDeepAgent.fit]; [i] is the loop variable
    [step]. *)
Definition fit_round (fuel : nat) (kind : TrainFrequencyType) (every : Z)
  (num_steps batch_size actor_epochs critic_epochs : Z)
  (i : nat) (observation : list Ob) : M BaseDeepAgent (ctl * list Ob) :=
  '(c, observation) <-
    (if Nat.eqb i 0 then
       observation <- step_env observation batch_size ;;
       ret (Next, observation)
     else
       match kind with
       | STEP =>
           observation <- step_env observation every ;;
           ret (Next, observation)
       | EPISODE =>
           a <- get ;;
           let start_episode := episode a in
           let end_episode := start_episode + every in
           observation <- wait_for_episode fuel end_episode observation ;;
           a <- get ;;
           if num_steps <=? step a then ret (Break, observation)
           else ret (Next, observation)
       end) ;;
  match c with
  | Break => ret (Break, observation)
  | Next =>
      a <- get ;;
      if done a then ret (Break, observation)
      else
        train batch_size actor_epochs critic_epochs ;;
        ret (Next, observation)
  end.

Fixpoint fit_rounds (fuel : nat) (kind : TrainFrequencyType) (every : Z)
  (num_steps batch_size actor_epochs critic_epochs : Z)
  (rounds i : nat) (observation : list Ob) : M BaseDeepAgent unit :=
  match rounds with
  | O => ret tt
  | S rounds' =>
      '(c, observation) <-
        fit_round fuel kind every num_steps batch_size actor_epochs
          critic_epochs i observation ;;
      match c with
      | Break => ret tt
      | Next =>
          fit_rounds fuel kind every num_steps batch_size actor_epochs
            critic_epochs rounds' (S i) observation
      end
  end.

(** [BaseDeepAgent.fit] *)
Definition fit (fuel : nat) (num_steps batch_size actor_epochs critic_epochs : Z)
  (train_frequency : string * Z) : M BaseDeepAgent unit :=
  kind <- lift (TrainFrequencyType_of (lower (fst train_frequency))) ;;
  let every := snd train_frequency in
  num_steps <-
    (match kind with
     | STEP => lift (floordiv num_steps every)
     | EPISODE => ret num_steps
     end) ;;
  observation <- reset_env ;;
  fit_rounds fuel kind every num_steps batch_size actor_epochs critic_epochs
    (Z.to_nat num_steps) 0 observation.

(** ** The evolution orchestrator *)

(** The population is what steps the environment; the updater object holds
    the next one.  [observation_space.sample()] reads the environment. *)
Variable Upd : Type.
Variable env_step_population : Env -> option Act -> (Rew * list bool) * Env.
Variable observation_space_sample : Env -> list Ob.
Variable np_max : list Rew -> Rew.
Variable updater_population : Upd -> option Act.

Inductive PopulationInitStrategy : Type := NORMAL | UNIFORM.

(** [PopulationInitStrategy(s)], with the two values that the settings
    document: 'normal' and 'uniform'. *)
Definition PopulationInitStrategy_of (s : string) : res PopulationInitStrategy :=
  if String.eqb s "normal" then Val NORMAL
  else if String.eqb s "uniform" then Val UNIFORM
  else Exc ValueError.

Variable initialize_population : Upd -> PopulationInitStrategy -> option Act * Upd.

(** The abstract method [_fit()] of a concrete evolution agent. *)
Variable evolution_fit :
  Upd -> list (list Ob * option Act * Rew * list Ob * list bool)
  -> Log * (Upd * list (list Ob * option Act * Rew * list Ob * list bool)).

(** [BaseEvolutionAgent]: [__init__] sets no attribute [done]; [e_done] is
    [None] until [step_env] assigns it. *)
Record BaseEvolutionAgent : Type :=
  { e_env : Env;
    updater : Upd;
    strategy : string + PopulationInitStrategy;
    e_buffer : list (list Ob * option Act * Rew * list Ob * list bool);
    e_step : Z;
    e_episode : Z;
    e_done : option bool;
    e_logger : Logger;
    population : option Act;
    e_callbacks : option (list Cb);
    e_history : list Call }.

Definition e_set_env (v : Env) (a : BaseEvolutionAgent) : BaseEvolutionAgent :=
  {| e_env := v; updater := updater a; strategy := strategy a;
     e_buffer := e_buffer a; e_step := e_step a; e_episode := e_episode a;
     e_done := e_done a; e_logger := e_logger a; population := population a;
     e_callbacks := e_callbacks a; e_history := e_history a |}.

Definition e_set_updater (v : Upd) (a : BaseEvolutionAgent) : BaseEvolutionAgent :=
  {| e_env := e_env a; updater := v; strategy := strategy a;
     e_buffer := e_buffer a; e_step := e_step a; e_episode := e_episode a;
     e_done := e_done a; e_logger := e_logger a; population := population a;
     e_callbacks := e_callbacks a; e_history := e_history a |}.

Definition e_set_buffer
  (v : list (list Ob * option Act * Rew * list Ob * list bool))
  (a : BaseEvolutionAgent) : BaseEvolutionAgent :=
  {| e_env := e_env a; updater := updater a; strategy := strategy a;
     e_buffer := v; e_step := e_step a; e_episode := e_episode a;
     e_done := e_done a; e_logger := e_logger a; population := population a;
     e_callbacks := e_callbacks a; e_history := e_history a |}.

Definition e_set_step (v : Z) (a : BaseEvolutionAgent) : BaseEvolutionAgent :=
  {| e_env := e_env a; updater := updater a; strategy := strategy a;
     e_buffer := e_buffer a; e_step := v; e_episode := e_episode a;
     e_done := e_done a; e_logger := e_logger a; population := population a;
     e_callbacks := e_callbacks a; e_history := e_history a |}.

Definition e_set_done (v : option bool) (a : BaseEvolutionAgent)
  : BaseEvolutionAgent :=
  {| e_env := e_env a; updater := updater a; strategy := strategy a;
     e_buffer := e_buffer a; e_step := e_step a; e_episode := e_episode a;
     e_done := v; e_logger := e_logger a; population := population a;
     e_callbacks := e_callbacks a; e_history := e_history a |}.

Definition e_set_logger (v : Logger) (a : BaseEvolutionAgent)
  : BaseEvolutionAgent :=
  {| e_env := e_env a; updater := updater a; strategy := strategy a;
     e_buffer := e_buffer a; e_step := e_step a; e_episode := e_episode a;
     e_done := e_done a; e_logger := v; population := population a;
     e_callbacks := e_callbacks a; e_history := e_history a |}.

Definition e_set_population (v : option Act) (a : BaseEvolutionAgent)
  : BaseEvolutionAgent :=
  {| e_env := e_env a; updater := updater a; strategy := strategy a;
     e_buffer := e_buffer a; e_step := e_step a; e_episode := e_episode a;
     e_done := e_done a; e_logger := e_logger a; population := v;
     e_callbacks := e_callbacks a; e_history := e_history a |}.

Definition e_set_callbacks (v : option (list Cb)) (a : BaseEvolutionAgent)
  : BaseEvolutionAgent :=
  {| e_env := e_env a; updater := updater a; strategy := strategy a;
     e_buffer := e_buffer a; e_step := e_step a; e_episode := e_episode a;
     e_done := e_done a; e_logger := e_logger a; population := population a;
     e_callbacks := v; e_history := e_history a |}.

Definition e_record (c : Call) (a : BaseEvolutionAgent) : BaseEvolutionAgent :=
  {| e_env := e_env a; updater := updater a; strategy := strategy a;
     e_buffer := e_buffer a; e_step := e_step a; e_episode := e_episode a;
     e_done := e_done a; e_logger := e_logger a; population := population a;
     e_callbacks := e_callbacks a; e_history := e_history a ++ [c] |}.

(** One round of the [for] loop of [BaseEvolutionAgent.step_env]. *)
Definition e_interact : M BaseEvolutionAgent ctl :=
  a <- get ;;
  let '((rewards, dones), e) := env_step_population (e_env a) (population a) in
  modify (fun a => e_record env_step_call (e_set_env e a)) ;;
  modify (fun a =>
            e_set_buffer
              (e_buffer a ++ [(observation_space_sample (e_env a), population a,
                               rewards, observation_space_sample (e_env a),
                               dones)]) a) ;;
  a <- get ;;
  match e_callbacks a with
  | Some cbs =>
      let '(answers, cbs') := ask_callbacks cbs (e_step a) in
      modify (e_set_callbacks (Some cbs')) ;;
      if negb (all answers) then
        modify (e_set_done (Some true)) ;;
        ret Break
      else
        modify (fun a => e_set_step (e_step a + 1) a) ;;
        ret Next
  | None =>
      modify (fun a => e_set_step (e_step a + 1) a) ;;
      ret Next
  end.

Fixpoint e_step_env_rounds (rounds : nat) : M BaseEvolutionAgent unit :=
  match rounds with
  | O => ret tt
  | S rounds' =>
      c <- e_interact ;;
      match c with
      | Break => ret tt
      | Next => e_step_env_rounds rounds'
      end
  end.

(** [BaseEvolutionAgent.step_env] *)
Definition e_step_env (num_steps : Z) : M BaseEvolutionAgent unit :=
  e_step_env_rounds (Z.to_nat num_steps).

(** [np.max(rewards)]: numpy raises on an array without entries, which is
    what the buffer answers while it holds no trajectory. *)
Definition max_of (rewards : list Rew) : res Rew :=
  match rewards with
  | [] => Exc ValueError
  | _ :: _ => Val (np_max rewards)
  end.

(** [BaseEvolutionAgent.evaluate_agent] *)
Definition evaluate_agent : M BaseEvolutionAgent unit :=
  a <- get ;;
  let trajectories := e_buffer a in
  max_reward <- lift (max_of (map (fun x => snd (fst (fst x))) trajectories)) ;;
  modify (fun a => e_set_logger (add_reward max_reward (e_logger a)) a) ;;
  modify (fun a => e_record (write_log_call (e_step a)) a) ;;
  modify (fun a => e_record reset_episode_log_call
                     (e_set_logger (reset_episode_log (e_logger a)) a)).

Fixpoint e_wait_for_episode (fuel : nat) (end_episode : Z)
  : M BaseEvolutionAgent unit :=
  a <- get ;;
  if e_episode a =? end_episode then ret tt
  else
    match fuel with
    | O => lift OutOfFuel
    | S fuel' => e_step_env 1 ;; e_wait_for_episode fuel' end_episode
    end.

(** One round of the loop of [BaseEvolutionAgent.fit]. *)
Definition e_fit_round (fuel : nat) (kind : TrainFrequencyType)
  (every num_steps : Z) : M BaseEvolutionAgent ctl :=
  c <-
    (match kind with
     | STEP => e_step_env every ;; ret Next
     | EPISODE =>
         a <- get ;;
         let start_episode := e_episode a in
         let end_episode := start_episode + every in
         e_wait_for_episode fuel end_episode ;;
         a <- get ;;
         if num_steps <=? e_step a then ret Break else ret Next
     end) ;;
  match c with
  | Break => ret Break
  | Next =>
      evaluate_agent ;;
      a <- get ;;
      modify (e_record (fit_call (e_step a) (e_episode a))) ;;
      let '(log, (u, buf)) := evolution_fit (updater a) (e_buffer a) in
      modify (fun a => e_set_buffer buf (e_set_updater u a)) ;;
      modify (fun a => e_set_population (updater_population (updater a)) a) ;;
      modify (fun a => e_set_logger (add_train_log log (e_logger a)) a) ;;
      ret Next
  end.

Fixpoint e_fit_rounds (fuel : nat) (kind : TrainFrequencyType)
  (every num_steps : Z) (rounds : nat) : M BaseEvolutionAgent unit :=
  match rounds with
  | O => ret tt
  | S rounds' =>
      c <- e_fit_round fuel kind every num_steps ;;
      match c with
      | Break => ret tt
      | Next => e_fit_rounds fuel kind every num_steps rounds'
      end
  end.

(** [BaseEvolutionAgent.fit] *)
Definition e_fit (fuel : nat) (num_steps : Z) (train_frequency : string * Z)
  : M BaseEvolutionAgent unit :=
  kind <- lift (TrainFrequencyType_of (lower (fst train_frequency))) ;;
  let every := snd train_frequency in
  num_steps <-
    (match kind with
     | STEP => lift (floordiv num_steps every)
     | EPISODE => ret num_steps
     end) ;;
  a <- get ;;
  population_init_strategy <-
    (match strategy a with
     | inl s => lift (PopulationInitStrategy_of (lower s))
     | inr v => ret v
     end) ;;
  let '(p, u) := initialize_population (updater a) population_init_strategy in
  modify (fun a => e_set_population p (e_set_updater u a)) ;;
  e_fit_rounds fuel kind every num_steps (Z.to_nat num_steps).

(** ** Reading the history *)

Fixpoint steps_in (h : list Call) : nat :=
  match h with
  | [] => O
  | env_step_call :: h' => S (steps_in h')
  | _ :: h' => steps_in h'
  end.

Fixpoint fit_calls (h : list Call) : list (Z * Z) :=
  match h with
  | [] => []
  | fit_call s e :: h' => (s, e) :: fit_calls h'
  | _ :: h' => fit_calls h'
  end.

Lemma steps_in_app (h1 h2 : list Call) :
  steps_in (h1 ++ h2) = (steps_in h1 + steps_in h2)%nat.
Proof.
  induction h1 as [| c h1 IH]; simpl; [reflexivity |].
  destruct c; simpl; rewrite IH; reflexivity.
Qed.

Lemma fit_calls_app (h1 h2 : list Call) :
  fit_calls (h1 ++ h2) = fit_calls h1 ++ fit_calls h2.
Proof.
  induction h1 as [| c h1 IH]; simpl; [reflexivity |].
  destruct c; simpl; rewrite IH; reflexivity.
Qed.

Ltac run_monad :=
  unfold bind, ret, get, modify, lift, reset_env in *; simpl in *.

Ltac break_match :=
  match goal with
  | H : (_, _) = (_, _) |- _ => inversion H; subst; clear H
  | H : Val _ = Val _ |- _ => inversion H; subst; clear H
  | H : context [match ?x with _ => _ end] |- _ => destruct x eqn:?
  | |- context [match ?x with _ => _ end] => destruct x eqn:?
  end; simpl in *; try discriminate.

(** The answer of the environment to the action of this round, and the
    done flags in it. *)
Definition env_answer (observation : list Ob) (a : BaseDeepAgent)
  : (list Ob * Rew * list bool) * Env :=
  env_step (if render a then env_render (env a) else env a)
    (action_explorer (model a) observation (step a)).

Definition done_flags (observation : list Ob) (a : BaseDeepAgent) : list bool :=
  snd (fst (env_answer observation a)).

Lemma set_index_no_fuel {A : Type} (l : list A) (i : nat) (v : A) :
  set_index l i v <> OutOfFuel.
Proof. unfold set_index. destruct (Nat.ltb i (List.length l)); discriminate. Qed.

Lemma assign_indices_no_fuel {A : Type} (idx : list nat) (src : list A) :
  forall dst, assign_indices dst idx src <> OutOfFuel.
Proof.
  induction idx as [| i idx IH]; intros dst; simpl; [discriminate |].
  destruct (nth_error src i); [| discriminate].
  destruct (set_index dst i a) eqn:Hset; [apply IH | discriminate |].
  now apply set_index_no_fuel in Hset.
Qed.

Lemma mark_true_no_fuel (idx : list nat) :
  forall mask, mark_true mask idx <> OutOfFuel.
Proof.
  induction idx as [| i idx IH]; intros mask; simpl; [discriminate |].
  destruct (set_index mask i true) eqn:Hset; [apply IH | discriminate |].
  now apply set_index_no_fuel in Hset.
Qed.

Lemma truth_no_fuel (d : list bool) : truth d <> OutOfFuel.
Proof. destruct d as [| b [| c d]]; discriminate. Qed.

Ltac no_fuel :=
  match goal with
  | H : mark_true _ _ = OutOfFuel |- _ => now apply mark_true_no_fuel in H
  | H : assign_indices _ _ _ = OutOfFuel |- _ =>
      now apply assign_indices_no_fuel in H
  | H : truth _ = OutOfFuel |- _ => now apply truth_no_fuel in H
  end.

(** ** One interaction *)

Lemma interact_inv (observation : list Ob) (a a' : BaseDeepAgent)
  (r : res (ctl * list Ob)) :
  interact observation a = (r, a') ->
  (done a = true -> done a' = true)
  /\ exists flush,
       history a' = history a ++ env_step_call :: flush
       /\ ((flush = [] /\ episode a' = episode a)
           \/ (flush = [write_log_call (step a); reset_episode_log_call]
               /\ episode a' = episode a + 1))
       /\ match r with
          | Val (Next, _) => step a' = step a + 1 /\ done a' = done a
          | Val (Break, _) => step a' = step a /\ done a' = true
          | Exc _ => step a' = step a /\ done a' = done a /\ flush = []
          | OutOfFuel => False
          end.
Proof.
  unfold interact. run_monad. intros H.
  repeat break_match.
  all: try no_fuel.
  all: split; [auto |].
  all: eexists; split; [rewrite <- ?app_assoc; reflexivity |].
  all: split; [auto |]; auto.
Qed.

(** What one completed interaction does to the episode log. *)
Lemma interact_mask (observation : list Ob) (a a' : BaseDeepAgent)
  (r : ctl * list Ob) :
  interact observation a = (Val r, a') ->
  exists mask,
    mark_true (episode_dones (logger a)) (np_where (done_flags observation a))
    = Val mask
    /\ if all mask
       then history a' = history a ++ [env_step_call; write_log_call (step a);
                                       reset_episode_log_call]
            /\ episode a' = episode a + 1
            /\ episode_dones (logger a') = repeat false (num_envs (logger a))
       else history a' = history a ++ [env_step_call]
            /\ episode a' = episode a
            /\ episode_dones (logger a') = mask.
Proof.
  unfold interact, done_flags, env_answer. run_monad. intros H.
  repeat break_match.
  all: match goal with H : env_step _ _ = _ |- _ => rewrite H end; simpl.
  all: eexists; split; [eassumption |].
  all: match goal with H : all _ = _ |- _ => rewrite H end.
  all: rewrite <- ?app_assoc; auto.
Qed.

(** Whether the round ends the loop is the callbacks' decision. *)
Lemma interact_callbacks (observation o : list Ob) (a a' : BaseDeepAgent)
  (c : ctl) :
  interact observation a = (Val (c, o), a') ->
  match callbacks a with
  | None => c = Next
  | Some cbs => c = if all (fst (ask_callbacks cbs (step a))) then Next else Break
  end.
Proof.
  unfold interact. run_monad. intros H.
  repeat break_match.
  all: repeat match goal with
              | H : Some _ = Some _ |- _ => inversion H; subst; clear H
              end.
  all: repeat match goal with
              | H : ask_callbacks _ _ = _ |- _ => rewrite H in *; clear H
              end.
  all: simpl in *.
  all: repeat match goal with
              | H : all _ = _ |- _ => rewrite H in *; clear H
              end.
  all: simpl in *; congruence.
Qed.

(** A veto: some callback answers false. *)
Lemma interact_veto (observation : list Ob) (a a' : BaseDeepAgent)
  (cbs : list Cb) (r : ctl * list Ob) :
  callbacks a = Some cbs ->
  all (fst (ask_callbacks cbs (step a))) = false ->
  interact observation a = (Val r, a') ->
  fst r = Break /\ done a' = true /\ step a' = step a.
Proof.
  intros Hcbs Hall H. destruct r as [c o].
  pose proof (interact_callbacks _ _ _ _ _ H) as Hc.
  rewrite Hcbs, Hall in Hc. subst c.
  apply interact_inv in H as (_ & flush & _ & _ & Hstep & Hdone).
  auto.
Qed.

(** ** [step_env] *)

Lemma step_env_rounds_inv (rounds : nat) :
  forall (observation : list Ob) (a a' : BaseDeepAgent) (r : res (list Ob)),
    step_env_rounds rounds observation a = (r, a') ->
    (done a = true -> done a' = true)
    /\ r <> OutOfFuel
    /\ exists h,
         history a' = history a ++ h
         /\ fit_calls h = []
         /\ (forall o, r = Val o -> done a' = false ->
               steps_in h = rounds /\ step a' = step a + Z.of_nat rounds).
Proof.
  induction rounds as [| rounds IH]; intros observation a a' r H.
  - simpl in H. run_monad. injection H as <- <-.
    split; [auto |]. split; [discriminate |].
    exists []. rewrite app_nil_r. repeat split; auto. lia.
  - simpl in H. unfold bind in H.
    destruct (interact observation a) as [r1 a1] eqn:Hint.
    apply interact_inv in Hint as (Hd1 & flush & Hh1 & Hflush & Hr1).
    assert (fit_calls (env_step_call :: flush) = []) as Hnofit
      by (destruct Hflush as [[-> _] | [-> _]]; reflexivity).
    assert (steps_in (env_step_call :: flush) = 1%nat) as Hone
      by (destruct Hflush as [[-> _] | [-> _]]; reflexivity).
    destruct r1 as [[[|] o] | e |]; try contradiction.
    + apply IH in H as (Hd2 & Hfuel & h & Hh2 & Hfit & Hsteps).
      destruct Hr1 as [Hstep Hdone].
      split; [intros Hd; apply Hd2; congruence |]. split; [exact Hfuel |].
      exists ((env_step_call :: flush) ++ h).
      split; [rewrite Hh2, Hh1, <- app_assoc; reflexivity |].
      split; [rewrite fit_calls_app, Hnofit, Hfit; reflexivity |].
      intros o' Hr Hd. destruct (Hsteps o' Hr Hd) as [Hs Hst].
      rewrite steps_in_app, Hone, Hs. split; [reflexivity | lia].
    + run_monad. injection H as <- <-. destruct Hr1 as [_ Hdone].
      split; [auto |]. split; [discriminate |].
      exists (env_step_call :: flush). repeat split; auto.
      all: congruence.
    + injection H as <- <-. destruct Hr1 as (_ & Hdone & _).
      split; [intros Hd; congruence |]. split; [discriminate |].
      exists (env_step_call :: flush). repeat split; auto.
      all: discriminate.
Qed.

Lemma step_env_inv (observation : list Ob) (num_steps : Z)
  (a a' : BaseDeepAgent) (r : res (list Ob)) :
  step_env observation num_steps a = (r, a') ->
  (done a = true -> done a' = true)
  /\ r <> OutOfFuel
  /\ exists h,
       history a' = history a ++ h
       /\ fit_calls h = []
       /\ (forall o, r = Val o -> done a' = false ->
             steps_in h = Z.to_nat num_steps
             /\ step a' = step a + Z.of_nat (Z.to_nat num_steps)).
Proof.
  unfold step_env, bind, modify. intros H.
  apply step_env_rounds_inv in H. exact H.
Qed.

(** ** The loop of [fit] *)

Lemma wait_for_episode_inv (fuel : nat) (end_episode : Z) :
  forall (observation : list Ob) (a a' : BaseDeepAgent) (r : res (list Ob)),
    wait_for_episode fuel end_episode observation a = (r, a') ->
    (done a = true -> done a' = true)
    /\ exists h,
         history a' = history a ++ h
         /\ fit_calls h = []
         /\ (forall o, r = Val o -> episode a' = end_episode).
Proof.
  induction fuel as [| fuel IH]; intros observation a a' r H;
    simpl in H; unfold bind, get in H;
    destruct (episode a =? end_episode) eqn:Hend.
  1, 3: unfold ret in H; injection H as <- <-; split; [auto |];
        exists []; rewrite app_nil_r; repeat split; auto; intros _ _;
        now apply Z.eqb_eq.
  - unfold lift in H. injection H as <- <-. split; [auto |].
    exists []. rewrite app_nil_r. repeat split; auto. discriminate.
  - destruct (step_env observation 1 a) as [r1 a1] eqn:Hstep.
    apply step_env_inv in Hstep as (Hd1 & _ & h1 & Hh1 & Hf1 & _).
    destruct r1 as [o1 | e |].
    + apply IH in H as (Hd2 & h2 & Hh2 & Hf2 & Hep).
      split; [auto |]. exists (h1 ++ h2).
      split; [rewrite Hh2, Hh1, app_assoc; reflexivity |].
      split; [rewrite fit_calls_app, Hf1, Hf2; reflexivity | exact Hep].
    + injection H as <- <-. split; [auto |].
      exists h1. repeat split; auto. discriminate.
    + injection H as <- <-. split; [auto |].
      exists h1. repeat split; auto. discriminate.
Qed.

Lemma train_inv (batch_size actor_epochs critic_epochs : Z)
  (a a' : BaseDeepAgent) (r : res unit) :
  train batch_size actor_epochs critic_epochs a = (r, a') ->
  r = Val tt
  /\ history a' = history a ++ [fit_call (step a) (episode a)]
  /\ step a' = step a /\ episode a' = episode a /\ done a' = done a.
Proof.
  unfold train. run_monad.
  destruct (_fit (model a) (buffer a) batch_size actor_epochs critic_epochs)
    as [train_log [net buf]].
  simpl. intros H. injection H as <- <-. simpl. auto.
Qed.

Lemma fit_round_inv (fuel : nat) (kind : TrainFrequencyType)
  (every num_steps batch_size actor_epochs critic_epochs : Z) (i : nat)
  (observation : list Ob) (a a' : BaseDeepAgent) (r : res (ctl * list Ob)) :
  fit_round fuel kind every num_steps batch_size actor_epochs critic_epochs
    i observation a = (r, a') ->
  (done a = true -> done a' = true)
  /\ (i = 0%nat \/ kind = STEP -> r <> OutOfFuel)
  /\ exists hw,
       fit_calls hw = []
       /\ match r with
          | Val (Next, _) =>
              history a' = history a ++ hw ++ [fit_call (step a') (episode a')]
              /\ done a' = false
              /\ (i = 0%nat -> steps_in hw = Z.to_nat batch_size)
              /\ (i <> 0%nat -> kind = STEP -> steps_in hw = Z.to_nat every)
              /\ (i <> 0%nat -> kind = EPISODE ->
                  episode a' = episode a + every /\ step a' < num_steps)
          | Val (Break, _) =>
              history a' = history a ++ hw
              /\ (i = 0%nat \/ kind = STEP -> done a' = true)
          | _ => history a' = history a ++ hw
          end.
Proof.
  intros H. unfold fit_round in H.
  assert (forall (n : Z) (flag : i = 0%nat \/ (i <> 0%nat /\ kind = STEP)),
            (bind (bind (step_env observation n)
                     (fun o => ret (Next, o)))
               (fun x => match x with
                         | (c, o) =>
                             match c with
                             | Break => ret (Break, o)
                             | Next =>
                                 bind get
                                   (fun a0 =>
                                      if done a0 then ret (Break, o)
                                      else bind (train batch_size actor_epochs
                                                   critic_epochs)
                                             (fun _ => ret (Next, o)))
                             end
                         end)) a = (r, a') ->
            (done a = true -> done a' = true)
            /\ r <> OutOfFuel
            /\ exists hw,
                 fit_calls hw = []
                 /\ match r with
                    | Val (Next, _) =>
                        history a' = history a ++ hw
                                       ++ [fit_call (step a') (episode a')]
                        /\ done a' = false
                        /\ steps_in hw = Z.to_nat n
                    | Val (Break, _) =>
                        history a' = history a ++ hw /\ done a' = true
                    | _ => history a' = history a ++ hw
                    end) as Hsteps.
  { intros n _ Hrun. unfold bind at 1 2 in Hrun.
    destruct (step_env observation n a) as [r1 a1] eqn:Hstep.
    apply step_env_inv in Hstep as (Hd1 & Hfuel & h1 & Hh1 & Hf1 & Hcount).
    destruct r1 as [o1 | e |]; try congruence.
    - unfold ret at 1 in Hrun. unfold bind at 1, get in Hrun.
      destruct (done a1) eqn:Hdone.
      + unfold ret in Hrun. injection Hrun as <- <-.
        split; [auto |]. split; [discriminate |]. exists h1. auto.
      + unfold bind in Hrun.
        destruct (train batch_size actor_epochs critic_epochs a1)
          as [r2 a2] eqn:Htrain.
        apply train_inv in Htrain as (-> & Hh2 & Hs2 & He2 & Hd2).
        unfold ret in Hrun. injection Hrun as <- <-.
        split; [intros Hd; apply Hd1 in Hd; congruence |].
        split; [discriminate |]. exists h1. split; [exact Hf1 |].
        rewrite Hh2, Hh1, Hs2, He2, <- app_assoc.
        repeat split; [congruence |].
        now destruct (Hcount o1 eq_refl eq_refl).
    - injection Hrun as <- <-. split; [auto |]. split; [discriminate |].
      exists h1. auto. }
  destruct (Nat.eqb_spec i 0) as [Hi | Hi].
  - apply (Hsteps batch_size (or_introl Hi)) in H
      as (Hd & Hfuel & hw & Hfit & Hr).
    split; [exact Hd |]. split; [auto |]. exists hw. split; [exact Hfit |].
    destruct r as [[[|] o] | e |]; auto.
    + destruct Hr as (Hh & Hdone & Hcount). repeat split; auto; congruence.
    + destruct Hr as [Hh Hdone]. auto.
  - destruct kind.
    + apply (Hsteps every (or_intror (conj Hi eq_refl))) in H
        as (Hd & Hfuel & hw & Hfit & Hr).
      split; [exact Hd |]. split; [auto |]. exists hw. split; [exact Hfit |].
      destruct r as [[[|] o] | e |]; auto.
      * destruct Hr as (Hh & Hdone & Hcount).
        repeat split; auto; try congruence; discriminate.
      * destruct Hr as [Hh Hdone]. auto.
    + clear Hsteps. unfold bind at 1 2, get at 1 in H. unfold bind at 1 in H.
      destruct (wait_for_episode fuel (episode a + every) observation a)
        as [r1 a1] eqn:Hwait.
      apply wait_for_episode_inv in Hwait as (Hd1 & h1 & Hh1 & Hf1 & Hep).
      split; [| split; [intros [Hi0 | Hk]; congruence |]].
      * destruct r1 as [o1 | e |].
        -- unfold bind at 1, get at 1 in H.
           destruct (num_steps <=? step a1) eqn:Hbudget.
           ++ unfold ret in H. injection H as <- <-. exact Hd1.
           ++ unfold ret at 1 in H. unfold bind at 1, get in H.
              destruct (done a1) eqn:Hdone.
              ** unfold ret in H. injection H as <- <-. intros _. exact Hdone.
              ** intros Hd. apply Hd1 in Hd. congruence.
        -- injection H as <- <-. exact Hd1.
        -- injection H as <- <-. exact Hd1.
      * exists h1. split; [exact Hf1 |].
        destruct r1 as [o1 | e |].
        -- unfold bind at 1, get at 1 in H.
           destruct (num_steps <=? step a1) eqn:Hbudget.
           ++ unfold ret in H. injection H as <- <-.
              split; [exact Hh1 | intros [Hi0 | Hk]; congruence].
           ++ unfold ret at 1 in H. unfold bind at 1, get in H.
              destruct (done a1) eqn:Hdone.
              ** unfold ret in H. injection H as <- <-.
                 split; [exact Hh1 | intros [Hi0 | Hk]; congruence].
              ** unfold bind in H.
                 destruct (train batch_size actor_epochs critic_epochs a1)
                   as [r2 a2] eqn:Htrain.
                 apply train_inv in Htrain as (-> & Hh2 & Hs2 & He2 & Hd2).
                 unfold ret in H. injection H as <- <-.
                 rewrite Hh2, Hh1, Hs2, He2, <- app_assoc.
                 repeat split; try congruence.
                 --- rewrite (Hep o1 eq_refl). reflexivity.
                 --- apply Z.leb_gt in Hbudget. exact Hbudget.
        -- injection H as <- <-. exact Hh1.
        -- injection H as <- <-. exact Hh1.
Qed.

(** The number of environment steps before each call of [_fit], and after
    the last one. *)
Fixpoint cycles_from (acc : nat) (h : list Call) : list nat :=
  match h with
  | [] => []
  | env_step_call :: h' => cycles_from (S acc) h'
  | fit_call _ _ :: h' => acc :: cycles_from O h'
  | _ :: h' => cycles_from acc h'
  end.

Fixpoint trailing_from (acc : nat) (h : list Call) : nat :=
  match h with
  | [] => acc
  | env_step_call :: h' => trailing_from (S acc) h'
  | fit_call _ _ :: h' => trailing_from O h'
  | _ :: h' => trailing_from acc h'
  end.

Definition cycles (h : list Call) : list nat := cycles_from 0 h.

Definition trailing (h : list Call) : nat := trailing_from 0 h.

(** Every call of [_fit] in the list is made [every] episodes after the
    one before it (the first one after episode [e]), with the step counter
    still below the budget. *)
Fixpoint chain (every budget e : Z) (l : list (Z * Z)) : Prop :=
  match l with
  | [] => True
  | (s, e') :: l' => e' = e + every /\ s < budget /\ chain every budget e' l'
  end.

Lemma cycles_from_app (hw rest : list Call) (s e : Z) :
  fit_calls hw = [] ->
  forall acc,
    cycles_from acc (hw ++ fit_call s e :: rest)
    = (acc + steps_in hw)%nat :: cycles_from 0 rest.
Proof.
  induction hw as [| c hw IH]; intros Hfit acc; simpl.
  - now rewrite Nat.add_0_r.
  - destruct c; simpl in *; try discriminate; rewrite IH by assumption;
      f_equal; lia.
Qed.

Lemma trailing_from_app (hw rest : list Call) (s e : Z) :
  forall acc,
    trailing_from acc (hw ++ fit_call s e :: rest) = trailing_from 0 rest.
Proof.
  induction hw as [| c hw IH]; intros acc; simpl; [reflexivity |].
  destruct c; simpl; apply IH.
Qed.

Lemma fit_rounds_unfold (fuel : nat) (kind : TrainFrequencyType)
  (every num_steps batch_size actor_epochs critic_epochs : Z)
  (rounds i : nat) (observation : list Ob) (a : BaseDeepAgent) :
  fit_rounds fuel kind every num_steps batch_size actor_epochs critic_epochs
    (S rounds) i observation a
  = match fit_round fuel kind every num_steps batch_size actor_epochs
            critic_epochs i observation a with
    | (Val (Next, o), a1) =>
        fit_rounds fuel kind every num_steps batch_size actor_epochs
          critic_epochs rounds (S i) o a1
    | (Val (Break, _), a1) => (Val tt, a1)
    | (Exc e, a1) => (Exc e, a1)
    | (OutOfFuel, a1) => (OutOfFuel, a1)
    end.
Proof.
  simpl. unfold bind.
  destruct (fit_round fuel kind every num_steps batch_size actor_epochs
              critic_epochs i observation a) as [[[[|] o] | e |] a1];
    reflexivity.
Qed.

Section Rounds.

Variable fuel : nat.
Variables every num_steps batch_size actor_epochs critic_epochs : Z.

Lemma fit_rounds_history (kind : TrainFrequencyType) (rounds : nat) :
  forall (i : nat) (observation : list Ob) (a a' : BaseDeepAgent) (r : res unit),
    fit_rounds fuel kind every num_steps batch_size actor_epochs critic_epochs
      rounds i observation a = (r, a') ->
    (done a = true -> done a' = true)
    /\ exists h, history a' = history a ++ h
                 /\ (List.length (fit_calls h) <= rounds)%nat.
Proof.
  induction rounds as [| rounds IH]; intros i observation a a' r H.
  - simpl in H. unfold ret in H. injection H as <- <-. split; [auto |].
    exists []. rewrite app_nil_r. simpl. auto.
  - rewrite fit_rounds_unfold in H.
    destruct (fit_round fuel kind every num_steps batch_size actor_epochs
                critic_epochs i observation a) as [r1 a1] eqn:Hround.
    apply fit_round_inv in Hround as (Hd1 & _ & hw & Hfit & Hr).
    destruct r1 as [[[|] o] | e |].
    + destruct Hr as (Hh & _).
      apply IH in H as (Hd2 & h2 & Hh2 & Hlen). split; [auto |].
      exists ((hw ++ [fit_call (step a1) (episode a1)]) ++ h2).
      split; [rewrite Hh2, Hh, <- !app_assoc; reflexivity |].
      rewrite !fit_calls_app, Hfit. simpl. lia.
    + destruct Hr as [Hh _]. injection H as <- <-. split; [auto |].
      exists hw. rewrite Hfit. simpl. split; [exact Hh | lia].
    + injection H as <- <-. split; [auto |].
      exists hw. rewrite Hfit. simpl. split; [exact Hr | lia].
    + injection H as <- <-. split; [auto |].
      exists hw. rewrite Hfit. simpl. split; [exact Hr | lia].
Qed.

Lemma fit_rounds_step (rounds : nat) :
  forall (i : nat) (observation : list Ob) (a a' : BaseDeepAgent) (r : res unit),
    fit_rounds fuel STEP every num_steps batch_size actor_epochs critic_epochs
      rounds i observation a = (r, a') ->
    r <> OutOfFuel
    /\ exists h,
         history a' = history a ++ h
         /\ (r = Val tt -> done a' = false ->
             cycles h
             = map (fun j => if Nat.eqb j 0 then Z.to_nat batch_size
                             else Z.to_nat every) (seq i rounds)
             /\ trailing h = 0%nat).
Proof.
  induction rounds as [| rounds IH]; intros i observation a a' r H.
  - simpl in H. unfold ret in H. injection H as <- <-.
    split; [discriminate |]. exists []. rewrite app_nil_r. auto.
  - rewrite fit_rounds_unfold in H.
    destruct (fit_round fuel STEP every num_steps batch_size actor_epochs
                critic_epochs i observation a) as [r1 a1] eqn:Hround.
    apply fit_round_inv in Hround as (Hd1 & Hfuel & hw & Hfit & Hr).
    destruct r1 as [[[|] o] | e |].
    + destruct Hr as (Hh & Hdone & Hfirst & Hlater & _).
      apply IH in H as (Hfuel2 & h2 & Hh2 & Hcycles).
      split; [exact Hfuel2 |].
      exists (hw ++ fit_call (step a1) (episode a1) :: h2).
      split; [rewrite Hh2, Hh, <- !app_assoc; reflexivity |].
      intros Hr Hd. destruct (Hcycles Hr Hd) as [Hc Ht].
      unfold cycles, trailing in *.
      rewrite cycles_from_app, trailing_from_app by assumption.
      split; [| exact Ht]. simpl. rewrite Hc. f_equal.
      destruct (Nat.eqb_spec i 0) as [Hi | Hi]; auto.
    + destruct Hr as [Hh Hdone]. injection H as <- <-.
      split; [discriminate |]. exists hw. split; [exact Hh |].
      intros _ Hd. rewrite Hdone in Hd by auto. discriminate.
    + injection H as <- <-. split; [discriminate |].
      exists hw. split; [exact Hr | discriminate].
    + exfalso. apply Hfuel; auto.
Qed.

Lemma fit_rounds_episode (rounds : nat) :
  forall (i : nat) (observation : list Ob) (a a' : BaseDeepAgent) (r : res unit),
    i <> 0%nat ->
    fit_rounds fuel EPISODE every num_steps batch_size actor_epochs
      critic_epochs rounds i observation a = (r, a') ->
    exists h,
      history a' = history a ++ h
      /\ chain every num_steps (episode a) (fit_calls h).
Proof.
  induction rounds as [| rounds IH]; intros i observation a a' r Hi H.
  - simpl in H. unfold ret in H. injection H as <- <-.
    exists []. rewrite app_nil_r. simpl. auto.
  - rewrite fit_rounds_unfold in H.
    destruct (fit_round fuel EPISODE every num_steps batch_size actor_epochs
                critic_epochs i observation a) as [r1 a1] eqn:Hround.
    apply fit_round_inv in Hround as (_ & _ & hw & Hfit & Hr).
    destruct r1 as [[[|] o] | e |].
    + destruct Hr as (Hh & _ & _ & _ & Hepisode).
      destruct (Hepisode Hi eq_refl) as [He Hs].
      apply IH in H as (h2 & Hh2 & Hchain); [| lia].
      exists (hw ++ fit_call (step a1) (episode a1) :: h2).
      split; [rewrite Hh2, Hh, <- !app_assoc; reflexivity |].
      rewrite fit_calls_app, Hfit. simpl. auto.
    + destruct Hr as [Hh _]. injection H as <- <-.
      exists hw. rewrite Hfit. simpl. auto.
    + injection H as <- <-. exists hw. rewrite Hfit. simpl. auto.
    + injection H as <- <-. exists hw. rewrite Hfit. simpl. auto.
Qed.

End Rounds.

(** ** The episode-done mask *)

Lemma all_Forall (l : list bool) : all l = true <-> Forall (fun b => b = true) l.
Proof.
  unfold all. rewrite forallb_forall, Forall_forall. reflexivity.
Qed.

Lemma all_Exists (l : list bool) : all l = false <-> Exists (fun b => b = false) l.
Proof.
  induction l as [| b l IH]; simpl.
  - split; [discriminate | intros H; inversion H].
  - rewrite Exists_cons. destruct b; simpl.
    + rewrite IH. split; [auto | intros [H | H]; [discriminate | exact H]].
    + split; auto.
Qed.

Lemma update_nth_length {A : Type} (v : A) (l : list A) :
  forall i, List.length (update_nth i v l) = List.length l.
Proof.
  induction l as [| x l IH]; intros [| i]; simpl; auto.
Qed.

Lemma update_nth_nth (v : bool) (l : list bool) :
  forall i j, (i < List.length l)%nat ->
    nth j (update_nth i v l) false = if Nat.eqb j i then v else nth j l false.
Proof.
  induction l as [| x l IH]; intros i j Hi; simpl in Hi; [lia |].
  destruct i as [| i], j as [| j]; simpl; auto.
  apply IH. lia.
Qed.

Lemma mark_true_nth (idx : list nat) :
  forall mask mask',
    mark_true mask idx = Val mask' ->
    List.length mask' = List.length mask
    /\ forall j, nth j mask' false
                 = orb (nth j mask false) (existsb (Nat.eqb j) idx).
Proof.
  induction idx as [| i idx IH]; intros mask mask' H; simpl in H.
  - injection H as <-. split; [reflexivity |]. intros j. simpl.
    now rewrite orb_false_r.
  - unfold set_index in H.
    destruct (Nat.ltb_spec i (List.length mask)) as [Hi | Hi]; [| discriminate].
    apply IH in H as [Hlen Hnth]. rewrite update_nth_length in Hlen.
    split; [exact Hlen |]. intros j. rewrite Hnth, update_nth_nth by assumption.
    simpl. destruct (Nat.eqb j i); simpl; [| reflexivity].
    now rewrite orb_true_r.
Qed.

Lemma where_from_mem (d : list bool) :
  forall k j,
    existsb (Nat.eqb j) (where_from k d)
    = andb (Nat.leb k j) (nth (j - k) d false).
Proof.
  induction d as [| b d IH]; intros k j.
  - cbn [where_from existsb]. destruct (j - k)%nat; cbn [nth];
      now rewrite andb_false_r.
  - pose proof (IH (S k) j) as Hrest. cbn [where_from].
    destruct (lt_eq_lt_dec j k) as [[Hlt | Heq] | Hgt].
    + replace (Nat.leb k j) with false by (symmetry; apply Nat.leb_gt; lia).
      replace (Nat.leb (S k) j) with false in Hrest
        by (symmetry; apply Nat.leb_gt; lia).
      cbn [andb] in *. destruct b; cbn [existsb]; rewrite Hrest;
        [| reflexivity].
      replace (Nat.eqb j k) with false by (symmetry; apply Nat.eqb_neq; lia).
      reflexivity.
    + subst j.
      replace (Nat.leb k k) with true by (symmetry; apply Nat.leb_le; lia).
      replace (Nat.leb (S k) k) with false in Hrest
        by (symmetry; apply Nat.leb_gt; lia).
      rewrite Nat.sub_diag. cbn [nth andb] in *.
      destruct b; cbn [existsb]; rewrite ?Nat.eqb_refl;
        [reflexivity | exact Hrest].
    + replace (Nat.leb k j) with true by (symmetry; apply Nat.leb_le; lia).
      replace (Nat.leb (S k) j) with true in Hrest
        by (symmetry; apply Nat.leb_le; lia).
      replace (j - k)%nat with (S (j - S k)) by lia.
      cbn [nth andb] in *. destruct b; cbn [existsb]; rewrite Hrest;
        [| reflexivity].
      replace (Nat.eqb j k) with false by (symmetry; apply Nat.eqb_neq; lia).
      reflexivity.
Qed.

(** The new mask: an entry is true when it was, or when this step's done
    flag of that environment is. *)
Lemma mark_true_np_where (mask mask' d : list bool) :
  mark_true mask (np_where d) = Val mask' ->
  List.length mask' = List.length mask
  /\ forall j, nth j mask' false = orb (nth j mask false) (nth j d false).
Proof.
  intros H. apply mark_true_nth in H as [Hlen Hnth].
  split; [exact Hlen |]. intros j. rewrite Hnth. unfold np_where.
  rewrite where_from_mem. simpl. now rewrite Nat.sub_0_r.
Qed.

(** ** Interactions complete on well-shaped answers *)

Lemma where_from_bound (d : list bool) :
  forall k i, In i (where_from k d) -> (k <= i < k + List.length d)%nat.
Proof.
  induction d as [| b d IH]; intros k i Hin; simpl in Hin; [contradiction |].
  simpl. destruct b.
  - destruct Hin as [<- | Hin]; [lia |]. apply IH in Hin. lia.
  - apply IH in Hin. lia.
Qed.

Lemma np_where_bound (d : list bool) (i : nat) :
  In i (np_where d) -> (i < List.length d)%nat.
Proof. intros Hin. apply where_from_bound in Hin. lia. Qed.

Lemma mark_true_total (idx : list nat) :
  forall mask,
    (forall i, In i idx -> (i < List.length mask)%nat) ->
    exists mask', mark_true mask idx = Val mask'.
Proof.
  induction idx as [| i idx IH]; intros mask Hidx; simpl.
  - now exists mask.
  - unfold set_index.
    destruct (Nat.ltb_spec i (List.length mask)) as [_ | Hge].
    + apply IH. intros j Hj. rewrite update_nth_length. apply Hidx. now right.
    + specialize (Hidx i (or_introl eq_refl)). lia.
Qed.

Lemma assign_indices_total {A : Type} (idx : list nat) (src : list A) :
  forall dst,
    (forall i, In i idx ->
               (i < List.length dst)%nat /\ (i < List.length src)%nat) ->
    exists dst', assign_indices dst idx src = Val dst'
                 /\ List.length dst' = List.length dst.
Proof.
  induction idx as [| i idx IH]; intros dst Hidx; simpl.
  - now exists dst.
  - destruct (Hidx i (or_introl eq_refl)) as [Hdst Hsrc].
    destruct (nth_error src i) as [v |] eqn:Hnth.
    + unfold set_index.
      destruct (Nat.ltb_spec i (List.length dst)) as [_ | Hge]; [| lia].
      destruct (IH (update_nth i v dst)) as (dst' & Hrun & Hlen).
      * intros j Hj. rewrite update_nth_length. apply Hidx. now right.
      * exists dst'. split; [exact Hrun |].
        now rewrite Hlen, update_nth_length.
    + apply nth_error_None in Hnth. lia.
Qed.

(** The answer of the environment has the shape that the agent expects:
    no more done flags than the mask has entries; for a vectorized
    environment, no more than the observations have rows; for a single
    environment, one flag. *)
Definition well_shaped (observation : list Ob) (a : BaseDeepAgent) : Prop :=
  let d := done_flags observation a in
  (List.length d <= List.length (episode_dones (logger a)))%nat
  /\ if vector_env a
     then (List.length d <= List.length observation)%nat
          /\ (List.length d
              <= List.length (fst (env_reset (snd (env_answer observation a)))))%nat
          /\ (List.length d
              <= List.length (fst (fst (fst (env_answer observation a)))))%nat
     else exists b, d = [b].

Lemma assign_indices_length {A : Type} (idx : list nat) (src : list A) :
  forall dst dst',
    assign_indices dst idx src = Val dst' ->
    List.length dst' = List.length dst.
Proof.
  induction idx as [| i idx IH]; intros dst dst' H; simpl in H.
  - now injection H as <-.
  - destruct (nth_error src i) as [v |]; [| discriminate].
    unfold set_index in H.
    destruct (Nat.ltb i (List.length dst)); [| discriminate].
    apply IH in H. now rewrite update_nth_length in H.
Qed.

Ltac shape_contradiction :=
  match goal with
  | H : mark_true ?m (np_where ?d) = Exc _ |- _ =>
      destruct (mark_true_total (np_where d) m) as [? ?];
      [intros ? Hin; apply np_where_bound in Hin; lia | congruence]
  | H : assign_indices ?dst (np_where ?d) ?src = Exc _ |- _ =>
      destruct (assign_indices_total (np_where d) src dst) as (? & ? & ?);
      [intros ? Hin; apply np_where_bound in Hin;
       rewrite ?length_map in Hin; lia
      | congruence]
  | H : truth ?d = Exc _, Hd : exists b, ?d = [b] |- _ =>
      destruct Hd as [? ->]; discriminate
  end.

Lemma interact_total (observation : list Ob) (a : BaseDeepAgent) :
  well_shaped observation a ->
  exists c o a', interact observation a = (Val (c, o), a').
Proof.
  unfold well_shaped, done_flags, env_answer. intros [Hmask Hshape].
  destruct (interact observation a) as [r a'] eqn:H.
  unfold interact in H. run_monad.
  repeat break_match.
  all: try no_fuel.
  all: try (eexists _, _, _; reflexivity).
  all: repeat match goal with
              | H : env_step _ _ = _ |- _ => rewrite H in *; clear H
              end; simpl in *.
  all: repeat match goal with
              | H : env_reset _ = _ |- _ => rewrite H in *; clear H
              end; simpl in *.
  all: repeat match goal with
              | H : _ /\ _ |- _ => destruct H
              | H : assign_indices _ _ _ = Val _ |- _ =>
                  apply assign_indices_length in H
              end.
  all: shape_contradiction.
Qed.

(** C3. After an interaction of [step_env], the episode log is written and
    reset and the episode counter grows by one exactly when every entry of
    the episode-done mask is true; when some entry is false none of the
    three happens and the mask keeps its new value.  The interaction
    completes whenever the answer of the environment is well shaped. *)
Theorem episode_log_flushed_iff_all_done (observation : list Ob)
  (a : BaseDeepAgent) :
  (well_shaped observation a ->
   exists r a', interact observation a = (Val r, a'))
  /\ forall r a',
       interact observation a = (Val r, a') ->
       exists mask,
         mark_true (episode_dones (logger a))
           (np_where (done_flags observation a)) = Val mask
         /\ List.length mask = List.length (episode_dones (logger a))
         /\ (forall j, nth j mask false
                       = orb (nth j (episode_dones (logger a)) false)
                           (nth j (done_flags observation a) false))
         /\ (Forall (fun b => b = true) mask ->
             history a' = history a ++ [env_step_call; write_log_call (step a);
                                        reset_episode_log_call]
             /\ episode a' = episode a + 1)
         /\ (Exists (fun b => b = false) mask ->
             history a' = history a ++ [env_step_call]
             /\ episode a' = episode a
             /\ episode_dones (logger a') = mask)
         /\ (episode a' = episode a + 1 <-> Forall (fun b => b = true) mask).
Proof.
  split.
  { intros Hshape. destruct (interact_total _ _ Hshape) as (c & o & a' & H).
    now exists (c, o), a'. }
  intros r a' H. apply interact_mask in H as (mask & Hmask & Hcases).
  exists mask. split; [exact Hmask |].
  destruct (mark_true_np_where _ _ _ Hmask) as [Hlen Hnth].
  split; [exact Hlen |]. split; [exact Hnth |].
  destruct (all mask) eqn:Hall.
  - destruct Hcases as (Hh & He & _). apply all_Forall in Hall as Hforall.
    split; [auto |]. split; [| split; auto].
    intros Hex. apply all_Exists in Hex. congruence.
  - destruct Hcases as (Hh & He & Hm). apply all_Exists in Hall as Hexists.
    split; [| split; [auto |]].
    + intros Hforall. apply all_Forall in Hforall. congruence.
    + split; [intros Hep; lia |].
      intros Hforall. apply all_Forall in Hforall. congruence.
Qed.

(** ** [fit] *)

Definition rounds_of (kind : TrainFrequencyType) (every num_steps : Z) : Z :=
  match kind with
  | STEP => num_steps / every
  | EPISODE => num_steps
  end.

Lemma fit_unfold (fuel : nat)
  (num_steps batch_size actor_epochs critic_epochs : Z)
  (train_frequency : string * Z) (kind : TrainFrequencyType)
  (a : BaseDeepAgent) :
  TrainFrequencyType_of (lower (fst train_frequency)) = Val kind ->
  (kind = STEP -> snd train_frequency <> 0) ->
  fit fuel num_steps batch_size actor_epochs critic_epochs train_frequency a
  = fit_rounds fuel kind (snd train_frequency)
      (rounds_of kind (snd train_frequency) num_steps)
      batch_size actor_epochs critic_epochs
      (Z.to_nat (rounds_of kind (snd train_frequency) num_steps)) 0
      (fst (env_reset (env a))) (set_env (snd (env_reset (env a))) a).
Proof.
  intros Hkind Hevery. unfold fit, bind at 1, lift at 1. rewrite Hkind.
  unfold reset_env.
  destruct kind; simpl.
  - unfold bind at 1, lift, floordiv.
    destruct (Z.eqb_spec (snd train_frequency) 0) as [H0 | _];
      [now apply Hevery in H0 |].
    unfold bind. now destruct (env_reset (env a)).
  - unfold bind, ret. now destruct (env_reset (env a)).
Qed.

(** C4. In every call of [fit], the first round of the loop steps the
    environment exactly [batch_size] times before [_fit] is called for the
    first time, whether the train frequency counts steps or episodes and
    whatever its count, as long as no callback vetoes during these steps. *)
Theorem warmup_fills_one_batch (fuel : nat)
  (num_steps batch_size actor_epochs critic_epochs : Z)
  (train_frequency : string * Z) (kind : TrainFrequencyType)
  (a a0 a1 : BaseDeepAgent) (observation0 observation1 : list Ob) :
  TrainFrequencyType_of (lower (fst train_frequency)) = Val kind ->
  (kind = STEP -> snd train_frequency <> 0) ->
  0 < rounds_of kind (snd train_frequency) num_steps ->
  reset_env a = (Val observation0, a0) ->
  step_env observation0 batch_size a0 = (Val observation1, a1) ->
  done a1 = false ->
  exists warm rest,
    history a1 = history a ++ warm
    /\ steps_in warm = Z.to_nat batch_size
    /\ fit_calls warm = []
    /\ history (snd (fit fuel num_steps batch_size actor_epochs critic_epochs
                       train_frequency a))
       = history a1 ++ fit_call (step a1) (episode a1) :: rest.
Proof.
  intros Hkind Hevery Hrounds Hreset Hwarm Hdone.
  rewrite (fit_unfold _ _ _ _ _ _ _ _ Hkind Hevery).
  unfold reset_env in Hreset.
  destruct (env_reset (env a)) as [o e]. injection Hreset as -> <-. simpl.
  destruct (Z.to_nat (rounds_of kind (snd train_frequency) num_steps))
    as [| rounds] eqn:Hn; [lia |].
  rewrite fit_rounds_unfold.
  assert (fit_round fuel kind (snd train_frequency)
            (rounds_of kind (snd train_frequency) num_steps) batch_size
            actor_epochs critic_epochs 0 observation0 (set_env e a)
          = (let '(r, a2) := train batch_size actor_epochs critic_epochs a1 in
             (Val (Next, observation1), a2))) as Hround.
  { unfold fit_round. simpl. unfold bind at 1 2. rewrite Hwarm.
    unfold ret at 1. unfold bind at 1, get. rewrite Hdone.
    unfold bind, ret.
    destruct (train batch_size actor_epochs critic_epochs a1) as [r2 a2] eqn:Ht.
    apply train_inv in Ht as (-> & _). reflexivity. }
  rewrite Hround.
  destruct (train batch_size actor_epochs critic_epochs a1) as [r2 a2] eqn:Ht.
  apply train_inv in Ht as (-> & Hh2 & _).
  destruct (fit_rounds fuel kind (snd train_frequency)
              (rounds_of kind (snd train_frequency) num_steps) batch_size
              actor_epochs critic_epochs rounds 1 observation1 a2)
    as [r3 a3] eqn:Hrest.
  apply fit_rounds_history in Hrest as (_ & h3 & Hh3 & _).
  apply step_env_inv in Hwarm as (_ & _ & warm & Hh1 & Hf1 & Hcount).
  destruct (Hcount observation1 eq_refl Hdone) as [Hsteps _].
  exists warm, h3. simpl in Hh1. repeat split; auto.
  simpl. rewrite Hh3, Hh2, <- app_assoc. reflexivity.
Qed.

Lemma cycles_from_length (h : list Call) :
  forall acc, List.length (cycles_from acc h) = List.length (fit_calls h).
Proof.
  induction h as [| c h IH]; intros acc; simpl; [reflexivity |].
  destruct c; simpl; rewrite IH; reflexivity.
Qed.

Lemma later_rounds_repeat (first later : nat) (rounds : nat) :
  forall i, i <> 0%nat ->
    map (fun j => if Nat.eqb j 0 then first else later) (seq i rounds)
    = repeat later rounds.
Proof.
  induction rounds as [| rounds IH]; intros i Hi; simpl; [reflexivity |].
  rewrite IH by lia.
  destruct (Nat.eqb_spec i 0); [contradiction | reflexivity].
Qed.

Lemma early_exit (fuel : nat)
  (every num_steps batch_size actor_epochs critic_epochs : Z)
  (rounds i : nat) (observation o : list Ob) (a a1 : BaseDeepAgent) :
  i <> 0%nat ->
  wait_for_episode fuel (episode a + every) observation a = (Val o, a1) ->
  num_steps <= step a1 ->
  fit_rounds fuel EPISODE every num_steps batch_size actor_epochs critic_epochs
    (S rounds) i observation a = (Val tt, a1).
Proof.
  intros Hi Hwait Hbudget. rewrite fit_rounds_unfold. unfold fit_round.
  destruct (Nat.eqb_spec i 0) as [H0 | _]; [contradiction |].
  unfold bind at 1 2, get at 1. unfold bind at 1. rewrite Hwait.
  unfold bind at 1, get at 1.
  destruct (Z.leb_spec num_steps (step a1)) as [_ | Hlt]; [| lia].
  reflexivity.
Qed.

(** One later round of the loop in episode mode, once its wait has
    returned. *)
Lemma episode_round (fuel : nat)
  (every num_steps batch_size actor_epochs critic_epochs : Z)
  (i : nat) (observation o : list Ob) (a a1 : BaseDeepAgent) :
  i <> 0%nat ->
  wait_for_episode fuel (episode a + every) observation a = (Val o, a1) ->
  episode a1 = episode a + every
  /\ (step a1 < num_steps -> done a1 = false ->
      exists a2,
        fit_round fuel EPISODE every num_steps batch_size actor_epochs
          critic_epochs i observation a = (Val (Next, o), a2)
        /\ history a2
           = history a1 ++ [fit_call (step a1) (episode a + every)]
        /\ step a2 = step a1 /\ episode a2 = episode a1).
Proof.
  intros Hi Hwait.
  pose proof (wait_for_episode_inv _ _ _ _ _ _ Hwait) as (_ & _ & _ & _ & Hep).
  specialize (Hep o eq_refl). split; [exact Hep |].
  intros Hbudget Hdone. unfold fit_round.
  destruct (Nat.eqb_spec i 0) as [H0 | _]; [contradiction |].
  unfold bind at 1 2, get at 1. unfold bind at 1. rewrite Hwait.
  unfold bind at 1, get at 1.
  destruct (Z.leb_spec num_steps (step a1)) as [Hle | _]; [lia |].
  unfold ret at 1. unfold bind at 1, get. rewrite Hdone. unfold bind.
  destruct (train batch_size actor_epochs critic_epochs a1) as [r2 a2] eqn:Htrain.
  apply train_inv in Htrain as (-> & Hh2 & Hs2 & He2 & _).
  exists a2. unfold ret. rewrite Hh2. repeat split; congruence.
Qed.

(** C5, amended.  With train frequency [("step", n)], [n >= 1], the loop
    of [fit] runs [num_steps // n] rounds, and every round after the first
    steps the environment exactly [n] times before it calls [_fit].  With
    [("episode", n)] the first call of [_fit] is made after the [batch_size]
    steps of the warm-up, whatever the number of episodes that these
    complete; every later call is made when the episode counter has grown by
    exactly [n] since the call before, whatever the number of steps that
    took, and with the step counter below the budget.  The budget is read
    once the wait for the episodes has returned: the round then trains when
    the step counter is below the budget and no callback has vetoed, and
    leaves the loop without training when the budget is exhausted. *)
Theorem training_cadence (fuel : nat)
  (num_steps batch_size actor_epochs critic_epochs every : Z)
  (a : BaseDeepAgent) :
  1 <= every ->
  (let run := fit fuel num_steps batch_size actor_epochs critic_epochs
                ("step"%string, every) a in
   fst run <> OutOfFuel
   /\ exists h,
        history (snd run) = history a ++ h
        /\ (List.length (fit_calls h) <= Z.to_nat (num_steps / every))%nat
        /\ (fst run = Val tt -> done (snd run) = false ->
            List.length (fit_calls h) = Z.to_nat (num_steps / every)
            /\ cycles h
               = match Z.to_nat (num_steps / every) with
                 | O => []
                 | S later =>
                     Z.to_nat batch_size :: repeat (Z.to_nat every) later
                 end
            /\ trailing h = 0%nat))
  /\ (exists h,
        history (snd (fit fuel num_steps batch_size actor_epochs critic_epochs
                        ("episode"%string, every) a))
        = history a ++ h
        /\ match fit_calls h with
           | [] => True
           | (s0, e0) :: later =>
               (exists warm rest,
                  h = warm ++ fit_call s0 e0 :: rest
                  /\ fit_calls warm = []
                  /\ steps_in warm = Z.to_nat batch_size)
               /\ chain every num_steps e0 later
           end)
  /\ (forall rounds i observation o (a0 a1 : BaseDeepAgent),
        i <> 0%nat ->
        wait_for_episode fuel (episode a0 + every) observation a0 = (Val o, a1) ->
        episode a1 = episode a0 + every
        /\ (num_steps <= step a1 ->
            fit_rounds fuel EPISODE every num_steps batch_size actor_epochs
              critic_epochs (S rounds) i observation a0 = (Val tt, a1))
        /\ (step a1 < num_steps -> done a1 = false ->
            exists a2,
              fit_round fuel EPISODE every num_steps batch_size actor_epochs
                critic_epochs i observation a0 = (Val (Next, o), a2)
              /\ history a2
                 = history a1 ++ [fit_call (step a1) (episode a0 + every)]
              /\ step a2 = step a1 /\ episode a2 = episode a1)).
Proof.
  intros Hevery. cbv zeta. split; [| split].
  - rewrite (fit_unfold fuel num_steps batch_size actor_epochs critic_epochs
               ("step"%string, every) STEP a eq_refl)
      by (intros _; simpl; lia).
    simpl.
    destruct (fit_rounds fuel STEP every (num_steps / every) batch_size
                actor_epochs critic_epochs (Z.to_nat (num_steps / every)) 0
                (fst (env_reset (env a))) (set_env (snd (env_reset (env a))) a))
      as [r a'] eqn:Hrun.
    pose proof (fit_rounds_history _ _ _ _ _ _ _ _ _ _ _ _ _ Hrun)
      as (_ & h' & Hh' & Hlen).
    apply fit_rounds_step in Hrun as (Hfuel & h & Hh & Hcycles).
    simpl in Hh, Hh'. assert (h' = h) as -> by
      (rewrite Hh in Hh'; now apply app_inv_head in Hh').
    split; [exact Hfuel |]. exists h. split; [exact Hh |]. split; [exact Hlen |].
    simpl. intros Hr Hd. destruct (Hcycles Hr Hd) as [Hc Ht].
    assert (cycles h
            = match Z.to_nat (num_steps / every) with
              | O => []
              | S later => Z.to_nat batch_size :: repeat (Z.to_nat every) later
              end) as Hshape.
    { rewrite Hc. destruct (Z.to_nat (num_steps / every)) as [| later];
        [reflexivity |].
      simpl. now rewrite later_rounds_repeat by lia. }
    split; [| split; assumption].
    unfold cycles in Hc. rewrite <- (cycles_from_length h 0), Hc.
    now rewrite length_map, length_seq.
  - rewrite (fit_unfold fuel num_steps batch_size actor_epochs critic_epochs
               ("episode"%string, every) EPISODE a eq_refl)
      by discriminate.
    simpl.
    destruct (Z.to_nat num_steps) as [| rounds].
    + simpl. exists []. rewrite app_nil_r. simpl. auto.
    + rewrite fit_rounds_unfold.
      destruct (fit_round fuel EPISODE every num_steps batch_size actor_epochs
                  critic_epochs 0 (fst (env_reset (env a)))
                  (set_env (snd (env_reset (env a))) a)) as [r1 a1] eqn:Hround.
      apply fit_round_inv in Hround as (_ & _ & hw & Hfit & Hr).
      simpl in Hr.
      destruct r1 as [[[|] o] | e |]; simpl.
      * destruct Hr as (Hh & _ & Hwarm & _).
        destruct (fit_rounds fuel EPISODE every num_steps batch_size
                    actor_epochs critic_epochs rounds 1 o a1)
          as [r2 a2] eqn:Hrest.
        apply fit_rounds_episode in Hrest as (h2 & Hh2 & Hchain); [| lia].
        exists (hw ++ fit_call (step a1) (episode a1) :: h2). simpl.
        split; [rewrite Hh2, Hh, <- !app_assoc; reflexivity |].
        rewrite fit_calls_app, Hfit. simpl. split; [| exact Hchain].
        exists hw, h2. auto.
      * destruct Hr as [Hh _]. exists hw. rewrite Hfit. auto.
      * exists hw. rewrite Hfit. auto.
      * exists hw. rewrite Hfit. auto.
  - intros rounds i observation o a0 a1 Hi Hwait.
    destruct (episode_round fuel every num_steps batch_size actor_epochs
                critic_epochs i observation o a0 a1 Hi Hwait) as [Hep Htrain].
    split; [exact Hep |]. split; [| exact Htrain].
    intros Hbudget. eapply early_exit; eassumption.
Qed.

(** ** The termination flag of the deep agent *)

(** X21. Nothing in [fit] clears the termination flag: on an agent whose
    [done] is set, it is still set when [fit] is over, whatever the
    arguments and the outcome. *)
Lemma fit_keeps_done (fuel : nat)
  (num_steps batch_size actor_epochs critic_epochs : Z)
  (train_frequency : string * Z) (a : BaseDeepAgent) :
  done a = true ->
  done (snd (fit fuel num_steps batch_size actor_epochs critic_epochs
               train_frequency a)) = true.
Proof.
  intros Hdone. unfold fit, bind at 1, lift at 1.
  destruct (TrainFrequencyType_of (lower (fst train_frequency))) as [kind | e |];
    [| exact Hdone | exact Hdone].
  unfold bind at 1.
  assert (forall n,
            done (snd (bind reset_env
                         (fun observation =>
                            fit_rounds fuel kind (snd train_frequency) n
                              batch_size actor_epochs critic_epochs
                              (Z.to_nat n) 0 observation) a)) = true) as Hrun.
  { intros n. unfold bind, reset_env.
    destruct (env_reset (env a)) as [o e].
    destruct (fit_rounds fuel kind (snd train_frequency) n batch_size
                actor_epochs critic_epochs (Z.to_nat n) 0 o (set_env e a))
      as [r a'] eqn:Hrounds.
    apply fit_rounds_history in Hrounds as [Hd _]. simpl. now apply Hd. }
  destruct kind.
  - unfold lift, floordiv. destruct (snd train_frequency =? 0);
      [exact Hdone | apply Hrun].
  - unfold ret. apply Hrun.
Qed.

(** X22. A round of [fit] that ends with [done] set has not called [_fit],
    and it is the last round of the loop: the rounds that the budget still
    holds are not run. *)
Lemma done_round_is_last (fuel : nat) (kind : TrainFrequencyType)
  (every num_steps batch_size actor_epochs critic_epochs : Z)
  (rounds i : nat) (observation : list Ob) (a a' : BaseDeepAgent)
  (r : res (ctl * list Ob)) :
  fit_round fuel kind every num_steps batch_size actor_epochs critic_epochs
    i observation a = (r, a') ->
  done a' = true ->
  (exists h, history a' = history a ++ h /\ fit_calls h = [])
  /\ fit_rounds fuel kind every num_steps batch_size actor_epochs critic_epochs
       (S rounds) i observation a
     = (match r with
        | Val _ => Val tt
        | Exc e => Exc e
        | OutOfFuel => OutOfFuel
        end, a').
Proof.
  intros Hround Hdone. rewrite fit_rounds_unfold, Hround.
  apply fit_round_inv in Hround as (_ & _ & hw & Hfit & Hr).
  destruct r as [[[|] o] | e |].
  - destruct Hr as (_ & Hfalse & _). congruence.
  - destruct Hr as [Hh _]. split; [exists hw; auto | reflexivity].
  - split; [exists hw; auto | reflexivity].
  - split; [exists hw; auto | reflexivity].
Qed.

(** ** The evolution agent: its flag and its episode counter *)

Lemma e_interact_inv (a a' : BaseEvolutionAgent) (r : res ctl) :
  e_interact a = (r, a') ->
  e_episode a' = e_episode a
  /\ e_history a' = e_history a ++ [env_step_call]
  /\ exists c,
       r = Val c
       /\ match c with
          | Next => e_step a' = e_step a + 1 /\ e_done a' = e_done a
          | Break => e_step a' = e_step a /\ e_done a' = Some true
          end.
Proof.
  unfold e_interact. run_monad. intros H.
  repeat break_match.
  all: split; [reflexivity |]; split; [reflexivity |]; eexists; split;
    [reflexivity | simpl; auto].
Qed.

Lemma e_step_env_rounds_inv (rounds : nat) :
  forall (a a' : BaseEvolutionAgent) (r : res unit),
    e_step_env_rounds rounds a = (r, a') ->
    r = Val tt
    /\ e_episode a' = e_episode a
    /\ exists h, e_history a' = e_history a ++ h /\ fit_calls h = [].
Proof.
  induction rounds as [| rounds IH]; intros a a' r H; simpl in H.
  - unfold ret in H. injection H as <- <-. repeat split.
    exists []. now rewrite app_nil_r.
  - unfold bind in H. destruct (e_interact a) as [r1 a1] eqn:Hint.
    apply e_interact_inv in Hint as (He1 & Hh1 & c & -> & _).
    destruct c.
    + apply IH in H as (-> & He2 & h & Hh2 & Hfit).
      split; [reflexivity |]. split; [congruence |].
      exists (env_step_call :: h).
      split; [rewrite Hh2, Hh1, <- app_assoc; reflexivity | exact Hfit].
    + unfold ret in H. injection H as <- <-.
      split; [reflexivity |]. split; [exact He1 |].
      exists [env_step_call]. auto.
Qed.

(** Nothing in the evolution agent counts episodes: its wait for an
    episode other than the current one never ends. *)
Lemma evolution_episode_wait_diverges (fuel : nat) (end_episode : Z) :
  forall a : BaseEvolutionAgent,
    e_episode a <> end_episode ->
    fst (e_wait_for_episode fuel end_episode a) = OutOfFuel.
Proof.
  induction fuel as [| fuel IH]; intros a Hne; simpl; unfold bind at 1, get;
    destruct (Z.eqb_spec (e_episode a) end_episode) as [Heq | _];
    try contradiction; [reflexivity |].
  unfold bind, e_step_env. simpl. unfold bind.
  destruct (e_interact a) as [r1 a1] eqn:Hint.
  apply e_interact_inv in Hint as (He1 & _ & c & -> & _).
  assert (fst (e_wait_for_episode fuel end_episode a1) = OutOfFuel) as Hrest
    by (apply IH; congruence).
  destruct c; unfold ret; exact Hrest.
Qed.

(** ** What the callbacks are asked, and what a veto does *)

Lemma ask_callbacks_map (cbs : list Cb) (at_step : Z) :
  ask_callbacks cbs at_step
  = (map (fun cb => fst (on_step cb at_step)) cbs,
     map (fun cb => snd (on_step cb at_step)) cbs).
Proof.
  induction cbs as [| cb cbs IH]; simpl; [reflexivity |].
  destruct (on_step cb at_step) as [answer cb']. rewrite IH. reflexivity.
Qed.

Lemma interact_asks_all (observation : list Ob) (a a' : BaseDeepAgent)
  (r : ctl * list Ob) :
  interact observation a = (Val r, a') ->
  callbacks a'
  = option_map (fun cbs => snd (ask_callbacks cbs (step a))) (callbacks a).
Proof.
  unfold interact. run_monad. intros H.
  repeat break_match.
  all: match goal with H : callbacks _ = _ |- _ => rewrite H end; simpl.
  all: try reflexivity.
  all: match goal with H : ask_callbacks _ _ = _ |- _ => rewrite H end.
  all: reflexivity.
Qed.

(** X6. Every callback is asked at every interaction, in order and with
    the current step, also after one of them has answered false.  When some
    callback answers false the interaction sets [done], leaves the step
    counter as it was and ends the loop of [step_env]; when all answer true
    the step counter grows by one and [done] keeps its value. *)
Theorem callbacks_are_all_asked (observation : list Ob) (a a' : BaseDeepAgent)
  (cbs : list Cb) (r : ctl * list Ob) :
  callbacks a = Some cbs ->
  interact observation a = (Val r, a') ->
  callbacks a' = Some (map (fun cb => snd (on_step cb (step a))) cbs)
  /\ (Exists (fun cb => fst (on_step cb (step a)) = false) cbs ->
      fst r = Break /\ done a' = true /\ step a' = step a)
  /\ (Forall (fun cb => fst (on_step cb (step a)) = true) cbs ->
      fst r = Next /\ done a' = done a /\ step a' = step a + 1).
Proof.
  intros Hcbs H. destruct r as [c o].
  pose proof (interact_asks_all _ _ _ _ H) as Hasked.
  pose proof (interact_callbacks _ _ _ _ _ H) as Hc.
  apply interact_inv in H as (_ & flush & _ & _ & Hr).
  rewrite Hcbs in Hasked, Hc. simpl in Hasked.
  rewrite ask_callbacks_map in Hasked, Hc. simpl in Hasked, Hc.
  split; [exact Hasked |]. split.
  - intros Hveto.
    assert (all (map (fun cb => fst (on_step cb (step a))) cbs) = false) as Hall
      by (apply all_Exists, Exists_map; exact Hveto).
    rewrite Hall in Hc. subst c. simpl. destruct Hr. auto.
  - intros Hpass.
    assert (all (map (fun cb => fst (on_step cb (step a))) cbs) = true) as Hall
      by (apply all_Forall, Forall_map; exact Hpass).
    rewrite Hall in Hc. subst c. simpl. destruct Hr. auto.
Qed.

(** ** The counters and the buffer *)

Fixpoint writes_in (h : list Call) : nat :=
  match h with
  | [] => O
  | write_log_call _ :: h' => S (writes_in h')
  | _ :: h' => writes_in h'
  end.

Fixpoint resets_in (h : list Call) : nat :=
  match h with
  | [] => O
  | reset_episode_log_call :: h' => S (resets_in h')
  | _ :: h' => resets_in h'
  end.

Lemma writes_in_app (h1 h2 : list Call) :
  writes_in (h1 ++ h2) = (writes_in h1 + writes_in h2)%nat.
Proof.
  induction h1 as [| c h1 IH]; simpl; [reflexivity |].
  destruct c; simpl; rewrite IH; reflexivity.
Qed.

Lemma resets_in_app (h1 h2 : list Call) :
  resets_in (h1 ++ h2) = (resets_in h1 + resets_in h2)%nat.
Proof.
  induction h1 as [| c h1 IH]; simpl; [reflexivity |].
  destruct c; simpl; rewrite IH; reflexivity.
Qed.

(** X7. [step_env] counts the interactions that no callback vetoed: when
    it returns on an agent whose flag was not set, the environment has been
    stepped at most [num_steps] times, and the step counter has grown by
    the number of these steps, less the one that was vetoed if [done] is
    now set. *)
Theorem step_counter_skips_the_vetoed_step (observation o : list Ob)
  (num_steps : Z) (a a' : BaseDeepAgent) :
  done a = false ->
  step_env observation num_steps a = (Val o, a') ->
  exists h,
    history a' = history a ++ h
    /\ (steps_in h <= Z.to_nat num_steps)%nat
    /\ step a' = step a + Z.of_nat (steps_in h) - (if done a' then 1 else 0).
Proof.
  unfold step_env, bind, modify. intros Hdone H.
  change (done (set_training false a) = false) in Hdone.
  change (history a) with (history (set_training false a)).
  change (step a) with (step (set_training false a)).
  revert H Hdone. generalize (set_training false a). clear a.
  generalize (Z.to_nat num_steps) as rounds. intros rounds. revert observation.
  induction rounds as [| rounds IH]; intros observation a H Hdone.
  - simpl in H. unfold ret in H. injection H as <- <-.
    exists []. rewrite app_nil_r, Hdone. simpl. repeat split; lia.
  - simpl in H. unfold bind in H.
    destruct (interact observation a) as [r1 a1] eqn:Hint.
    apply interact_inv in Hint as (_ & flush & Hh1 & Hflush & Hr1).
    assert (steps_in (env_step_call :: flush) = 1%nat) as Hone
      by (destruct Hflush as [[-> _] | [-> _]]; reflexivity).
    destruct r1 as [[[|] o1] | e |]; try discriminate.
    + destruct Hr1 as [Hstep Hd1].
      apply IH in H as (h & Hh & Hle & Hcount); [| congruence].
      exists ((env_step_call :: flush) ++ h).
      split; [rewrite Hh, Hh1, <- app_assoc; reflexivity |].
      rewrite steps_in_app, Hone. split; lia.
    + unfold ret in H. injection H as <- <-. destruct Hr1 as [Hstep Hd1].
      exists (env_step_call :: flush). rewrite Hone, Hd1.
      split; [exact Hh1 |]. split; lia.
Qed.

(** Quantities that no interaction changes. *)
Lemma interact_ledger (observation : list Ob) (a a' : BaseDeepAgent)
  (r : res (ctl * list Ob)) :
  interact observation a = (r, a') ->
  (Z.of_nat (List.length (buffer a')) - Z.of_nat (steps_in (history a'))
   = Z.of_nat (List.length (buffer a)) - Z.of_nat (steps_in (history a)))
  /\ (episode a' - Z.of_nat (resets_in (history a'))
      = episode a - Z.of_nat (resets_in (history a)))
  /\ (Z.of_nat (writes_in (history a')) - Z.of_nat (resets_in (history a'))
      = Z.of_nat (writes_in (history a)) - Z.of_nat (resets_in (history a))).
Proof.
  unfold interact. run_monad. intros H.
  repeat break_match.
  all: try no_fuel.
  all: rewrite ?length_app, ?steps_in_app, ?writes_in_app, ?resets_in_app;
    simpl; repeat split; lia.
Qed.

Section Measure.

(** A quantity that interactions and training keep, the model's mode and
    the environment's state playing no part in it. *)
Variable f : BaseDeepAgent -> Z.
Hypothesis f_interact :
  forall observation a r a', interact observation a = (r, a') -> f a' = f a.
Hypothesis f_training : forall b a, f (set_training b a) = f a.

Lemma step_env_keeps (observation : list Ob) (num_steps : Z)
  (a a' : BaseDeepAgent) (r : res (list Ob)) :
  step_env observation num_steps a = (r, a') -> f a' = f a.
Proof.
  unfold step_env, bind, modify. rewrite <- (f_training false a).
  generalize (set_training false a). clear a.
  generalize (Z.to_nat num_steps) as rounds. intros rounds. revert observation.
  induction rounds as [| rounds IH]; intros observation a H; simpl in H.
  - unfold ret in H. now injection H as <- <-.
  - unfold bind in H.
    destruct (interact observation a) as [r1 a1] eqn:Hint.
    apply f_interact in Hint.
    destruct r1 as [[[|] o1] | e |].
    + apply IH in H. congruence.
    + unfold ret in H. injection H as <- <-. exact Hint.
    + injection H as <- <-. exact Hint.
    + injection H as <- <-. exact Hint.
Qed.

Hypothesis f_train :
  forall batch_size actor_epochs critic_epochs a r a',
    train batch_size actor_epochs critic_epochs a = (r, a') -> f a' = f a.
Hypothesis f_env : forall e a, f (set_env e a) = f a.

Lemma wait_for_episode_keeps (fuel : nat) (end_episode : Z) :
  forall (observation : list Ob) (a a' : BaseDeepAgent) (r : res (list Ob)),
    wait_for_episode fuel end_episode observation a = (r, a') -> f a' = f a.
Proof.
  induction fuel as [| fuel IH]; intros observation a a' r H;
    simpl in H; unfold bind, get in H;
    destruct (episode a =? end_episode).
  1, 3: unfold ret in H; now injection H as <- <-.
  - unfold lift in H. now injection H as <- <-.
  - destruct (step_env observation 1 a) as [r1 a1] eqn:Hstep.
    apply step_env_keeps in Hstep.
    destruct r1 as [o1 | e |].
    + apply IH in H. congruence.
    + injection H as <- <-. exact Hstep.
    + injection H as <- <-. exact Hstep.
Qed.

Lemma fit_round_keeps (fuel : nat) (kind : TrainFrequencyType)
  (every num_steps batch_size actor_epochs critic_epochs : Z) (i : nat)
  (observation : list Ob) (a a' : BaseDeepAgent) (r : res (ctl * list Ob)) :
  fit_round fuel kind every num_steps batch_size actor_epochs critic_epochs
    i observation a = (r, a') ->
  f a' = f a.
Proof.
  unfold fit_round. intros H. unfold bind at 1 in H.
  match type of H with
  | (match ?first a with _ => _ end) = _ =>
      destruct (first a) as [r1 a1] eqn:Hfirst
  end.
  assert (f a1 = f a) as Hf1.
  { destruct (Nat.eqb i 0); [| destruct kind].
    - unfold bind in Hfirst.
      destruct (step_env observation batch_size a) as [r2 a2] eqn:Hstep.
      apply step_env_keeps in Hstep.
      destruct r2; unfold ret in Hfirst; injection Hfirst as _ <-; exact Hstep.
    - unfold bind in Hfirst.
      destruct (step_env observation every a) as [r2 a2] eqn:Hstep.
      apply step_env_keeps in Hstep.
      destruct r2; unfold ret in Hfirst; injection Hfirst as _ <-; exact Hstep.
    - unfold bind at 1, get at 1 in Hfirst. unfold bind at 1 in Hfirst.
      destruct (wait_for_episode fuel (episode a + every) observation a)
        as [r2 a2] eqn:Hwait.
      apply wait_for_episode_keeps in Hwait.
      destruct r2; [| injection Hfirst as _ <-; exact Hwait
                    | injection Hfirst as _ <-; exact Hwait].
      unfold bind, get in Hfirst.
      destruct (num_steps <=? step a2); unfold ret in Hfirst;
        injection Hfirst as _ <-; exact Hwait. }
  destruct r1 as [[[|] o1] | e |].
  - unfold bind at 1, get in H. destruct (done a1).
    + unfold ret in H. injection H as _ <-. exact Hf1.
    + unfold bind in H.
      destruct (train batch_size actor_epochs critic_epochs a1)
        as [r2 a2] eqn:Htrain.
      apply f_train in Htrain.
      destruct r2; unfold ret in H; injection H as _ <-; congruence.
  - unfold ret in H. injection H as _ <-. exact Hf1.
  - injection H as _ <-. exact Hf1.
  - injection H as _ <-. exact Hf1.
Qed.

Lemma fit_rounds_keeps (fuel : nat) (kind : TrainFrequencyType)
  (every num_steps batch_size actor_epochs critic_epochs : Z) (rounds : nat) :
  forall (i : nat) (observation : list Ob) (a a' : BaseDeepAgent) (r : res unit),
    fit_rounds fuel kind every num_steps batch_size actor_epochs critic_epochs
      rounds i observation a = (r, a') ->
    f a' = f a.
Proof.
  induction rounds as [| rounds IH]; intros i observation a a' r H.
  - simpl in H. unfold ret in H. now injection H as <- <-.
  - rewrite fit_rounds_unfold in H.
    destruct (fit_round fuel kind every num_steps batch_size actor_epochs
                critic_epochs i observation a) as [r1 a1] eqn:Hround.
    apply fit_round_keeps in Hround.
    destruct r1 as [[[|] o1] | e |].
    + apply IH in H. congruence.
    + injection H as _ <-. exact Hround.
    + injection H as _ <-. exact Hround.
    + injection H as _ <-. exact Hround.
Qed.

Lemma fit_keeps (fuel : nat)
  (num_steps batch_size actor_epochs critic_epochs : Z)
  (train_frequency : string * Z) (a : BaseDeepAgent) :
  f (snd (fit fuel num_steps batch_size actor_epochs critic_epochs
            train_frequency a)) = f a.
Proof.
  unfold fit, bind at 1, lift at 1.
  destruct (TrainFrequencyType_of (lower (fst train_frequency)))
    as [kind | e |]; [| reflexivity | reflexivity].
  unfold bind at 1.
  assert (forall n,
            f (snd (bind reset_env
                      (fun observation =>
                         fit_rounds fuel kind (snd train_frequency) n
                           batch_size actor_epochs critic_epochs
                           (Z.to_nat n) 0 observation) a)) = f a) as Hrun.
  { intros n. unfold bind, reset_env.
    destruct (env_reset (env a)) as [o e].
    destruct (fit_rounds fuel kind (snd train_frequency) n batch_size
                actor_epochs critic_epochs (Z.to_nat n) 0 o (set_env e a))
      as [r a'] eqn:Hrounds.
    apply fit_rounds_keeps in Hrounds. simpl. now rewrite Hrounds, f_env. }
  destruct kind.
  - unfold lift, floordiv. destruct (snd train_frequency =? 0);
      [reflexivity | apply Hrun].
  - unfold ret. apply Hrun.
Qed.

End Measure.

(** X8. Every step of the environment made by [step_env] stores one
    trajectory in the buffer, also the step that a callback vetoes and the
    step after which the call raises. *)
Theorem every_interaction_is_stored (observation : list Ob) (num_steps : Z)
  (a : BaseDeepAgent) :
  exists h,
    history (snd (step_env observation num_steps a)) = history a ++ h
    /\ List.length (buffer (snd (step_env observation num_steps a)))
       = (List.length (buffer a) + steps_in h)%nat.
Proof.
  destruct (step_env observation num_steps a) as [r a'] eqn:H.
  pose proof (step_env_keeps
                (fun x => Z.of_nat (List.length (buffer x))
                          - Z.of_nat (steps_in (history x)))
                (fun o x r' x' Hi => proj1 (interact_ledger o x x' r' Hi))
                (fun b x => eq_refl) _ _ _ _ _ H) as Hkeep.
  apply step_env_inv in H as (_ & _ & h & Hh & _).
  exists h. simpl in *. split; [exact Hh |].
  rewrite Hh, steps_in_app in Hkeep. lia.
Qed.

Lemma fit_history (fuel : nat)
  (num_steps batch_size actor_epochs critic_epochs : Z)
  (train_frequency : string * Z) (a : BaseDeepAgent) :
  exists h,
    history (snd (fit fuel num_steps batch_size actor_epochs critic_epochs
                    train_frequency a)) = history a ++ h.
Proof.
  unfold fit, bind at 1, lift at 1.
  destruct (TrainFrequencyType_of (lower (fst train_frequency)))
    as [kind | e |];
    [| exists []; now rewrite app_nil_r | exists []; now rewrite app_nil_r].
  unfold bind at 1.
  assert (forall n,
            exists h,
              history (snd (bind reset_env
                              (fun observation =>
                                 fit_rounds fuel kind (snd train_frequency) n
                                   batch_size actor_epochs critic_epochs
                                   (Z.to_nat n) 0 observation) a))
              = history a ++ h) as Hrun.
  { intros n. unfold bind, reset_env.
    destruct (env_reset (env a)) as [o e].
    destruct (fit_rounds fuel kind (snd train_frequency) n batch_size
                actor_epochs critic_epochs (Z.to_nat n) 0 o (set_env e a))
      as [r a'] eqn:Hrounds.
    apply fit_rounds_history in Hrounds as (_ & h & Hh & _).
    exists h. exact Hh. }
  destruct kind.
  - unfold lift, floordiv. destruct (snd train_frequency =? 0);
      [exists []; now rewrite app_nil_r | apply Hrun].
  - unfold ret. apply Hrun.
Qed.

(** X9. Through a whole [fit], whatever its outcome, the episode counter
    grows by the number of times the episode log is reset, and the log is
    written exactly as often as it is reset. *)
Theorem episode_counter_counts_flushes (fuel : nat)
  (num_steps batch_size actor_epochs critic_epochs : Z)
  (train_frequency : string * Z) (a : BaseDeepAgent) :
  exists h,
    history (snd (fit fuel num_steps batch_size actor_epochs critic_epochs
                    train_frequency a)) = history a ++ h
    /\ episode (snd (fit fuel num_steps batch_size actor_epochs critic_epochs
                       train_frequency a))
       = episode a + Z.of_nat (resets_in h)
    /\ writes_in h = resets_in h.
Proof.
  destruct (fit_history fuel num_steps batch_size actor_epochs critic_epochs
              train_frequency a) as [h Hh].
  exists h. split; [exact Hh |].
  assert (forall bs ae ce x r x',
            train bs ae ce x = (r, x') ->
            episode x' - Z.of_nat (resets_in (history x'))
            = episode x - Z.of_nat (resets_in (history x))) as Htrain1.
  { intros bs ae ce x r x' Ht. apply train_inv in Ht as (_ & Hx & _ & He & _).
    rewrite Hx, He, resets_in_app. simpl. lia. }
  assert (forall bs ae ce x r x',
            train bs ae ce x = (r, x') ->
            Z.of_nat (writes_in (history x')) - Z.of_nat (resets_in (history x'))
            = Z.of_nat (writes_in (history x))
              - Z.of_nat (resets_in (history x))) as Htrain2.
  { intros bs ae ce x r x' Ht. apply train_inv in Ht as (_ & Hx & _).
    rewrite Hx, writes_in_app, resets_in_app. simpl. lia. }
  pose proof (fit_keeps
                (fun x => episode x - Z.of_nat (resets_in (history x)))
                (fun o x r' x' Hi => proj1 (proj2 (interact_ledger o x x' r' Hi)))
                (fun b x => eq_refl) Htrain1 (fun e x => eq_refl)
                fuel num_steps batch_size actor_epochs critic_epochs
                train_frequency a) as Hepisodes.
  pose proof (fit_keeps
                (fun x => Z.of_nat (writes_in (history x))
                          - Z.of_nat (resets_in (history x)))
                (fun o x r' x' Hi => proj2 (proj2 (interact_ledger o x x' r' Hi)))
                (fun b x => eq_refl) Htrain2 (fun e x => eq_refl)
                fuel num_steps batch_size actor_epochs critic_epochs
                train_frequency a) as Hwrites.
  simpl in Hepisodes, Hwrites.
  rewrite Hh in Hepisodes, Hwrites.
  rewrite resets_in_app in Hepisodes.
  rewrite writes_in_app, resets_in_app in Hwrites.
  split; lia.
Qed.

(** ** Which environments are reset, and the observation carried on *)

(** X10. With a single environment, an interaction that completes resets
    the environment exactly when the done flag is set, and carries on the
    observation of the reset in that case, the next observation
    otherwise. *)
Theorem single_environment_resets_when_done (observation o : list Ob)
  (c : ctl) (a a' : BaseDeepAgent) :
  vector_env a = false ->
  interact observation a = (Val (c, o), a') ->
  let stepped_env := snd (env_answer observation a) in
  let next_observation := fst (fst (fst (env_answer observation a))) in
  exists finished,
    done_flags observation a = [finished]
    /\ o = (if finished then fst (env_reset stepped_env) else next_observation)
    /\ env a' = (if finished then snd (env_reset stepped_env) else stepped_env).
Proof.
  unfold done_flags, env_answer, interact. intros Hvec H. cbv zeta.
  run_monad.
  repeat break_match.
  all: try congruence.
  all: repeat match goal with
              | H : env_step _ _ = _ |- _ => rewrite H in *; clear H
              end; simpl in *.
  all: match goal with
       | H : truth ?d = Val ?b |- _ =>
           destruct d as [| b' [| b'' d']]; simpl in H; try discriminate;
           injection H as ->
       end.
  all: eexists; split; [reflexivity |]; simpl.
  all: repeat match goal with
              | H : env_reset _ = _ |- _ => rewrite H in *; clear H
              end; simpl; auto.
Qed.

Lemma update_nth_nth_error {A : Type} (v : A) (l : list A) :
  forall i j, (i < List.length l)%nat ->
    nth_error (update_nth i v l) j
    = if Nat.eqb j i then Some v else nth_error l j.
Proof.
  induction l as [| x l IH]; intros i j Hi; simpl in Hi; [lia |].
  destruct i as [| i], j as [| j]; simpl; auto.
  apply IH. lia.
Qed.

Lemma assign_indices_nth_error {A : Type} (idx : list nat) (src : list A) :
  forall dst dst',
    assign_indices dst idx src = Val dst' ->
    forall j, nth_error dst' j
              = if existsb (Nat.eqb j) idx then nth_error src j
                else nth_error dst j.
Proof.
  induction idx as [| i idx IH]; intros dst dst' H j; simpl in H.
  - now injection H as <-.
  - destruct (nth_error src i) as [v |] eqn:Hsrc; [| discriminate].
    unfold set_index in H.
    destruct (Nat.ltb_spec i (List.length dst)) as [Hi | Hi]; [| discriminate].
    rewrite (IH _ _ H j). simpl.
    rewrite update_nth_nth_error by assumption.
    destruct (Nat.eqb_spec j i) as [-> | Hne]; simpl.
    + now destruct (existsb (Nat.eqb i) idx).
    + reflexivity.
Qed.

Lemma np_where_mem (d : list bool) (j : nat) :
  existsb (Nat.eqb j) (np_where d) = nth j d false.
Proof.
  unfold np_where. rewrite where_from_mem. simpl. now rewrite Nat.sub_0_r.
Qed.

(** X11. With a vectorized environment, every interaction that completes
    resets the whole environment, whether or not a flag is set; the
    observation carried on takes the rows of finished environments from
    that reset, the rows of the others from the next observation, and keeps
    the rows for which the environment gave no flag. *)
Theorem vector_environment_is_reset_at_every_step (observation o : list Ob)
  (c : ctl) (a a' : BaseDeepAgent) :
  vector_env a = true ->
  interact observation a = (Val (c, o), a') ->
  let stepped_env := snd (env_answer observation a) in
  let next_observation := fst (fst (fst (env_answer observation a))) in
  let d := done_flags observation a in
  env a' = snd (env_reset stepped_env)
  /\ forall j,
       nth_error o j
       = if nth j (map negb d) false then nth_error next_observation j
         else if nth j d false then nth_error (fst (env_reset stepped_env)) j
              else nth_error observation j.
Proof.
  unfold done_flags, env_answer, interact. intros Hvec H. cbv zeta.
  run_monad.
  repeat break_match.
  all: try congruence.
  all: repeat match goal with
              | H : env_step _ _ = _ |- _ => rewrite H in *; clear H
              end; simpl in *.
  all: repeat match goal with
              | H : env_reset _ = _ |- _ => rewrite H in *; clear H
              end; simpl in *.
  all: split; [reflexivity |]; intros j.
  all: match goal with
       | H1 : assign_indices _ (np_where ?d) _ = Val ?o1,
         H2 : assign_indices ?o1 (np_where (map negb ?d)) _ = Val _ |- _ =>
           rewrite (assign_indices_nth_error _ _ _ _ H2 j),
             (assign_indices_nth_error _ _ _ _ H1 j), !np_where_mem
       end.
  all: reflexivity.
Qed.

(** X12. In episode mode the wait for the episode target does not read
    the termination flag: while the target is not reached it steps the
    environment again, also on an agent whose [done] is already set. *)
Theorem episode_wait_ignores_the_flag (fuel : nat) (end_episode : Z)
  (observation : list Ob) (a : BaseDeepAgent) :
  episode a <> end_episode ->
  exists h,
    history (snd (wait_for_episode (S fuel) end_episode observation a))
    = history a ++ env_step_call :: h.
Proof.
  intros Hne. simpl. unfold bind at 1, get.
  destruct (Z.eqb_spec (episode a) end_episode) as [Heq | _]; [contradiction |].
  unfold bind at 1, step_env. unfold bind at 1, modify. simpl.
  unfold bind at 1.
  destruct (interact observation (set_training false a)) as [r1 a1] eqn:Hint.
  apply interact_inv in Hint as (_ & flush & Hh1 & _ & Hr1). simpl in Hh1.
  assert (forall r2 a2,
            (exists h2, history a2 = history a1 ++ h2) ->
            exists h, history (snd ((r2 : res (list Ob)), a2))
                      = history a ++ env_step_call :: h) as Hdone.
  { intros r2 a2 [h2 Hh2]. exists (flush ++ h2). simpl.
    rewrite Hh2, Hh1, <- app_assoc. reflexivity. }
  destruct r1 as [[[|] o1] | e |]; try contradiction.
  - unfold ret.
    destruct (wait_for_episode fuel end_episode o1 a1) as [r2 a2] eqn:Hwait.
    apply wait_for_episode_inv in Hwait as (_ & h2 & Hh2 & _).
    apply Hdone. now exists h2.
  - unfold ret.
    destruct (wait_for_episode fuel end_episode o1 a1) as [r2 a2] eqn:Hwait.
    apply wait_for_episode_inv in Hwait as (_ & h2 & Hh2 & _).
    apply Hdone. now exists h2.
  - apply Hdone. exists []. now rewrite app_nil_r.
Qed.

(** ** The train frequency at the border *)

Lemma lower_ascii_idempotent (c : ascii) :
  lower_ascii (lower_ascii c) = lower_ascii c.
Proof. destruct c as [[] [] [] [] [] [] [] []]; reflexivity. Qed.

Lemma lower_idempotent (s : string) : lower (lower s) = lower s.
Proof.
  induction s as [| c s IH]; simpl; [reflexivity |].
  now rewrite lower_ascii_idempotent, IH.
Qed.

(** X13. [fit] refuses a train frequency before it touches anything: a
    kind that is neither "step" nor "episode" once in lower case raises a
    value error, and a step frequency of zero raises a division by zero;
    in both cases the environment is not reset, no interaction is made and
    the agent is as it was. *)
Theorem fit_refuses_a_bad_frequency (fuel : nat)
  (num_steps batch_size actor_epochs critic_epochs every : Z) (kind : string)
  (a : BaseDeepAgent) :
  (lower kind <> "step"%string -> lower kind <> "episode"%string ->
   fit fuel num_steps batch_size actor_epochs critic_epochs (kind, every) a
   = (Exc ValueError, a))
  /\ (lower kind = "step"%string ->
      fit fuel num_steps batch_size actor_epochs critic_epochs (kind, 0) a
      = (Exc ZeroDivisionError, a)).
Proof.
  split.
  - intros Hstep Hepisode. unfold fit, bind, lift, TrainFrequencyType_of.
    cbn [fst]. apply String.eqb_neq in Hstep, Hepisode.
    now rewrite Hstep, Hepisode.
  - intros Hstep. unfold fit, bind, lift, TrainFrequencyType_of.
    cbn [fst snd]. rewrite Hstep. reflexivity.
Qed.

(** X14. The kind of the train frequency is read without regard to case:
    [fit] does with any spelling what it does with the lower-case one. *)
Theorem fit_reads_the_kind_in_any_case (fuel : nat)
  (num_steps batch_size actor_epochs critic_epochs every : Z) (kind : string)
  (a : BaseDeepAgent) :
  fit fuel num_steps batch_size actor_epochs critic_epochs (kind, every) a
  = fit fuel num_steps batch_size actor_epochs critic_epochs
      (lower kind, every) a.
Proof.
  unfold fit. cbn [fst snd]. now rewrite lower_idempotent.
Qed.

(** X15. A budget that holds no round, that is [num_steps <= 0], or with a
    step frequency [num_steps < n], makes [fit] reset the environment and
    return: no interaction, not even the warm-up, and no training. *)
Theorem fit_without_a_round_only_resets (fuel : nat)
  (num_steps batch_size actor_epochs critic_epochs : Z)
  (train_frequency : string * Z) (kind : TrainFrequencyType)
  (a : BaseDeepAgent) :
  TrainFrequencyType_of (lower (fst train_frequency)) = Val kind ->
  (kind = STEP -> snd train_frequency <> 0) ->
  rounds_of kind (snd train_frequency) num_steps <= 0 ->
  fit fuel num_steps batch_size actor_epochs critic_epochs train_frequency a
  = (Val tt, set_env (snd (env_reset (env a))) a).
Proof.
  intros Hkind Hevery Hrounds.
  rewrite (fit_unfold _ _ _ _ _ _ _ _ Hkind Hevery).
  replace (Z.to_nat (rounds_of kind (snd train_frequency) num_steps))
    with 0%nat by lia.
  reflexivity.
Qed.

Lemma steps_in_cycles (h : list Call) :
  forall acc,
    (acc + steps_in h)%nat
    = (list_sum (cycles_from acc h) + trailing_from acc h)%nat.
Proof.
  induction h as [| c h IH]; intros acc; simpl; [lia |].
  destruct c; simpl.
  - rewrite <- IH. lia.
  - apply IH.
  - apply IH.
  - specialize (IH 0%nat). lia.
Qed.

Lemma list_sum_repeat (n k : nat) : list_sum (repeat n k) = (k * n)%nat.
Proof. induction k as [| k IH]; simpl; [reflexivity | now rewrite IH]. Qed.

(** X16. With a step frequency [n >= 1] and no veto, a [fit] that runs at
    least one round steps the environment [batch_size + n * (num_steps // n
    - 1)] times in all (a negative [batch_size] counting as zero), which is
    the budget [num_steps] only when [batch_size] makes up the difference. *)
Theorem step_mode_interactions_in_all (fuel : nat)
  (num_steps batch_size actor_epochs critic_epochs every : Z)
  (a : BaseDeepAgent) :
  1 <= every ->
  1 <= num_steps / every ->
  fst (fit fuel num_steps batch_size actor_epochs critic_epochs
         ("step"%string, every) a) = Val tt ->
  done (snd (fit fuel num_steps batch_size actor_epochs critic_epochs
               ("step"%string, every) a)) = false ->
  exists h,
    history (snd (fit fuel num_steps batch_size actor_epochs critic_epochs
                    ("step"%string, every) a)) = history a ++ h
    /\ Z.of_nat (steps_in h)
       = Z.max 0 batch_size + every * (num_steps / every - 1).
Proof.
  intros Hevery Hrounds.
  rewrite (fit_unfold fuel num_steps batch_size actor_epochs critic_epochs
             ("step"%string, every) STEP a eq_refl)
    by (intros _; simpl; lia).
  simpl.
  destruct (fit_rounds fuel STEP every (num_steps / every) batch_size
              actor_epochs critic_epochs (Z.to_nat (num_steps / every)) 0
              (fst (env_reset (env a))) (set_env (snd (env_reset (env a))) a))
    as [r a'] eqn:Hrun.
  apply fit_rounds_step in Hrun as (_ & h & Hh & Hcycles).
  simpl. intros Hr Hd. destruct (Hcycles Hr Hd) as [Hc Ht].
  exists h. split; [exact Hh |].
  pose proof (steps_in_cycles h 0) as Hsum.
  unfold cycles, trailing in Hc, Ht. rewrite Hc, Ht in Hsum.
  destruct (Z.to_nat (num_steps / every)) as [| later] eqn:Hn; [lia |].
  simpl in Hsum. rewrite later_rounds_repeat, list_sum_repeat in Hsum by lia.
  assert (Z.of_nat later = num_steps / every - 1) as Hlater by lia.
  assert (Z.of_nat (steps_in h)
          = Z.of_nat (Z.to_nat batch_size)
            + Z.of_nat later * Z.of_nat (Z.to_nat every)) as Hz by lia.
  rewrite Hz, Hlater, (Z2Nat.id every) by lia.
  replace (Z.of_nat (Z.to_nat batch_size)) with (Z.max 0 batch_size) by lia.
  ring.
Qed.

(** ** The loop of the evolution agent *)

(** The strategy that [fit] initialises the population with. *)
Definition init_strategy (a : BaseEvolutionAgent) : res PopulationInitStrategy :=
  match strategy a with
  | inl s => PopulationInitStrategy_of (lower s)
  | inr v => Val v
  end.

Lemma e_fit_unfold (fuel : nat) (num_steps : Z) (train_frequency : string * Z)
  (kind : TrainFrequencyType) (v : PopulationInitStrategy)
  (a : BaseEvolutionAgent) :
  TrainFrequencyType_of (lower (fst train_frequency)) = Val kind ->
  (kind = STEP -> snd train_frequency <> 0) ->
  init_strategy a = Val v ->
  e_fit fuel num_steps train_frequency a
  = e_fit_rounds fuel kind (snd train_frequency)
      (rounds_of kind (snd train_frequency) num_steps)
      (Z.to_nat (rounds_of kind (snd train_frequency) num_steps))
      (e_set_population (fst (initialize_population (updater a) v))
         (e_set_updater (snd (initialize_population (updater a) v)) a)).
Proof.
  intros Hkind Hevery Hinit. unfold e_fit, bind at 1, lift at 1. rewrite Hkind.
  unfold init_strategy in Hinit.
  assert (forall n,
            bind get
              (fun a0 : BaseEvolutionAgent =>
                 bind
                   match strategy a0 with
                   | inl s => lift (PopulationInitStrategy_of (lower s))
                   | inr v0 => ret v0
                   end
                   (fun population_init_strategy =>
                      let '(p, u) :=
                        initialize_population (updater a0)
                          population_init_strategy in
                      bind
                        (modify (fun a1 => e_set_population p (e_set_updater u a1)))
                        (fun _ =>
                           e_fit_rounds fuel kind (snd train_frequency) n
                             (Z.to_nat n)))) a
            = e_fit_rounds fuel kind (snd train_frequency) n (Z.to_nat n)
                (e_set_population (fst (initialize_population (updater a) v))
                   (e_set_updater (snd (initialize_population (updater a) v))
                      a))) as Hrun.
  { intros n. unfold bind at 1, get. unfold bind at 1.
    destruct (strategy a) as [s | v0].
    - unfold lift. rewrite Hinit.
      destruct (initialize_population (updater a) v) as [p u]. reflexivity.
    - unfold ret. injection Hinit as ->.
      destruct (initialize_population (updater a) v) as [p u]. reflexivity. }
  destruct kind; simpl.
  - unfold bind at 1, lift, floordiv.
    destruct (Z.eqb_spec (snd train_frequency) 0) as [H0 | _];
      [now apply Hevery in H0 |].
    apply Hrun.
  - unfold bind at 1, ret. apply Hrun.
Qed.

Lemma e_interact_buffer (a a' : BaseEvolutionAgent) (r : res ctl) :
  e_interact a = (r, a') -> e_buffer a' <> [].
Proof.
  unfold e_interact. run_monad. intros H.
  repeat break_match.
  all: simpl; intros Hnil; apply app_eq_nil in Hnil as [_ Hnil]; discriminate.
Qed.

Lemma e_step_env_rounds_buffer (rounds : nat) :
  forall (a a' : BaseEvolutionAgent) (r : res unit),
    e_step_env_rounds rounds a = (r, a') ->
    (e_buffer a <> [] \/ rounds <> 0%nat) -> e_buffer a' <> [].
Proof.
  induction rounds as [| rounds IH]; intros a a' r H Hfull; simpl in H.
  - unfold ret in H. injection H as <- <-. destruct Hfull; [assumption | lia].
  - unfold bind in H. destruct (e_interact a) as [r1 a1] eqn:Hint.
    pose proof (e_interact_buffer _ _ _ Hint) as Hb1.
    apply e_interact_inv in Hint as (_ & _ & c & -> & _).
    destruct c.
    + apply IH in H; auto.
    + unfold ret in H. injection H as <- <-. exact Hb1.
Qed.

Lemma e_fit_round_step_inv (fuel : nat) (every num_steps : Z)
  (a : BaseEvolutionAgent) :
  0 < every ->
  exists a' h,
    e_fit_round fuel STEP every num_steps a = (Val Next, a')
    /\ e_history a' = e_history a ++ h
    /\ fit_calls h = [(e_step a', e_episode a')]
    /\ population a' = updater_population (updater a').
Proof.
  intros Hevery. unfold e_fit_round, e_step_env. unfold bind at 1 2.
  destruct (e_step_env_rounds (Z.to_nat every) a) as [r1 a1] eqn:Hsteps.
  assert (e_buffer a1 <> []) as Hfull
    by (eapply e_step_env_rounds_buffer; [exact Hsteps | right; lia]).
  apply e_step_env_rounds_inv in Hsteps as (-> & _ & h1 & Hh1 & Hfit1).
  unfold ret at 1. unfold evaluate_agent. run_monad.
  destruct (e_buffer a1) as [| x buffer1] eqn:Hbuffer; [contradiction |].
  simpl.
  destruct (evolution_fit _ _) as [log [u buf]]. simpl.
  eexists _, _. split; [reflexivity |]. simpl.
  split; [rewrite Hh1, <- !app_assoc; reflexivity |].
  rewrite fit_calls_app, Hfit1. split; reflexivity.
Qed.

(** A round that makes no step on an agent whose buffer is empty raises in
    [evaluate_agent]. *)
Lemma e_fit_round_empty (fuel : nat) (every num_steps : Z)
  (a : BaseEvolutionAgent) :
  every <= 0 ->
  e_buffer a = [] ->
  e_fit_round fuel STEP every num_steps a = (Exc ValueError, a).
Proof.
  intros Hevery Hempty. unfold e_fit_round, e_step_env.
  replace (Z.to_nat every) with 0%nat by lia.
  unfold evaluate_agent. run_monad. rewrite Hempty. reflexivity.
Qed.

Lemma e_fit_rounds_step (fuel : nat) (every num_steps : Z) (rounds : nat) :
  0 < every ->
  forall a : BaseEvolutionAgent,
    exists a' h,
      e_fit_rounds fuel STEP every num_steps rounds a = (Val tt, a')
      /\ e_history a' = e_history a ++ h
      /\ List.length (fit_calls h) = rounds
      /\ ((rounds = 0%nat /\ a' = a)
          \/ population a' = updater_population (updater a')).
Proof.
  intros Hevery.
  induction rounds as [| rounds IH]; intros a; simpl.
  - exists a, []. unfold ret. rewrite app_nil_r. repeat split. now left.
  - unfold bind.
    destruct (e_fit_round_step_inv fuel every num_steps a Hevery)
      as (a1 & h1 & -> & Hh1 & Hf1 & Hp1).
    destruct (IH a1) as (a' & h & -> & Hh & Hlen & Hp).
    exists a', (h1 ++ h).
    split; [reflexivity |].
    split; [rewrite Hh, Hh1, <- app_assoc; reflexivity |].
    split; [rewrite fit_calls_app, Hf1; simpl; now rewrite Hlen |].
    right. destruct Hp as [[_ ->] | Hp]; assumption.
Qed.

(** X17. With a step frequency [n >= 1], the [fit] of the evolution agent
    trains in every round whatever the callbacks answered and whatever [done]
    holds: once the frequency and the initialisation strategy are accepted
    it returns after exactly [num_steps // n] calls of [_fit].  With a
    negative [n] a round makes no step: on an agent whose buffer is empty
    the first round raises a value error in [evaluate_agent], before any
    training. *)
Theorem evolution_fit_trains_every_round (fuel : nat) (num_steps every : Z)
  (v : PopulationInitStrategy) (a : BaseEvolutionAgent) :
  every <> 0 ->
  init_strategy a = Val v ->
  (0 < every ->
   exists a' h,
     e_fit fuel num_steps ("step"%string, every) a = (Val tt, a')
     /\ e_history a' = e_history a ++ h
     /\ List.length (fit_calls h) = Z.to_nat (num_steps / every))
  /\ (every < 0 -> 1 <= num_steps / every -> e_buffer a = [] ->
      fst (e_fit fuel num_steps ("step"%string, every) a) = Exc ValueError
      /\ e_history (snd (e_fit fuel num_steps ("step"%string, every) a))
         = e_history a).
Proof.
  intros Hevery Hinit.
  rewrite (e_fit_unfold fuel num_steps ("step"%string, every) STEP v a eq_refl)
    by (auto; intros _; exact Hevery).
  simpl. split.
  - intros Hpos.
    destruct (e_fit_rounds_step fuel every (num_steps / every)
                (Z.to_nat (num_steps / every)) Hpos
                (e_set_population (fst (initialize_population (updater a) v))
                   (e_set_updater (snd (initialize_population (updater a) v)) a)))
      as (a' & h & Hrun & Hh & Hlen & _).
    exists a', h. auto.
  - intros Hneg Hrounds Hempty.
    destruct (Z.to_nat (num_steps / every)) as [| rounds] eqn:Hn; [lia |].
    simpl. unfold bind.
    rewrite e_fit_round_empty by (simpl; auto; lia).
    simpl. auto.
Qed.

(** X18. After a [fit] of the evolution agent with a step frequency
    [n >= 1] that ran at least one round, the population that the agent
    holds is the one that its updater holds. *)
Theorem evolution_population_follows_the_updater (fuel : nat)
  (num_steps every : Z) (v : PopulationInitStrategy) (a : BaseEvolutionAgent) :
  0 < every ->
  init_strategy a = Val v ->
  1 <= num_steps / every ->
  population (snd (e_fit fuel num_steps ("step"%string, every) a))
  = updater_population
      (updater (snd (e_fit fuel num_steps ("step"%string, every) a))).
Proof.
  intros Hevery Hinit Hrounds.
  rewrite (e_fit_unfold fuel num_steps ("step"%string, every) STEP v a eq_refl)
    by (auto; intros _; simpl; lia).
  simpl.
  destruct (e_fit_rounds_step fuel every (num_steps / every)
              (Z.to_nat (num_steps / every)) Hevery
              (e_set_population (fst (initialize_population (updater a) v))
                 (e_set_updater (snd (initialize_population (updater a) v)) a)))
    as (a' & h & Hrun & _ & _ & Hp).
  rewrite Hrun. simpl. destruct Hp as [[Hzero _] | Hp]; [lia | exact Hp].
Qed.

(** X19. With an episode frequency [n <> 0] and a budget of at least one
    step, the [fit] of the evolution agent does not return: nothing in the
    agent moves its episode counter, so the first wait for the episode
    target outlasts any fuel. *)
Theorem evolution_episode_frequency_never_returns (num_steps every : Z)
  (v : PopulationInitStrategy) (a : BaseEvolutionAgent) :
  every <> 0 ->
  1 <= num_steps ->
  init_strategy a = Val v ->
  forall fuel,
    fst (e_fit fuel num_steps ("episode"%string, every) a) = OutOfFuel.
Proof.
  intros Hevery Hbudget Hinit fuel.
  rewrite (e_fit_unfold fuel num_steps ("episode"%string, every) EPISODE v a
             eq_refl) by (auto; discriminate).
  simpl.
  destruct (Z.to_nat num_steps) as [| rounds] eqn:Hn; [lia |].
  simpl. unfold bind at 1. unfold e_fit_round. unfold bind at 1 2, get at 1.
  unfold bind at 1.
  set (a0 := e_set_population _ _).
  pose proof (evolution_episode_wait_diverges fuel (e_episode a0 + every) a0)
    as Hwait.
  destruct (e_wait_for_episode fuel (e_episode a0 + every) a0) as [r1 a1].
  simpl in Hwait. rewrite Hwait by lia. reflexivity.
Qed.

(** X20. The [fit] of the evolution agent refuses its arguments before it
    touches anything: an unknown kind of frequency or an unknown name of an
    initialisation strategy raises a value error, a step frequency of zero
    a division by zero, and the agent is as it was, with no population
    initialised. *)
Theorem evolution_fit_refuses_bad_arguments (fuel : nat) (num_steps every : Z)
  (kind : string) (a : BaseEvolutionAgent) :
  (lower kind <> "step"%string -> lower kind <> "episode"%string ->
   e_fit fuel num_steps (kind, every) a = (Exc ValueError, a))
  /\ (lower kind = "step"%string ->
      e_fit fuel num_steps (kind, 0) a = (Exc ZeroDivisionError, a))
  /\ (forall k s,
        TrainFrequencyType_of (lower kind) = Val k ->
        (k = STEP -> every <> 0) ->
        strategy a = inl s ->
        lower s <> "normal"%string -> lower s <> "uniform"%string ->
        e_fit fuel num_steps (kind, every) a = (Exc ValueError, a)).
Proof.
  split; [| split].
  - intros Hstep Hepisode. unfold e_fit, bind, lift, TrainFrequencyType_of.
    cbn [fst]. apply String.eqb_neq in Hstep, Hepisode.
    now rewrite Hstep, Hepisode.
  - intros Hstep. unfold e_fit, bind, lift, TrainFrequencyType_of.
    cbn [fst snd]. rewrite Hstep. reflexivity.
  - intros k s Hk Hevery Hs Hnormal Huniform.
    unfold e_fit, bind at 1, lift at 1. cbn [fst snd]. rewrite Hk.
    apply String.eqb_neq in Hnormal, Huniform.
    destruct k; simpl.
    + unfold bind at 1, lift, floordiv.
      destruct (Z.eqb_spec every 0) as [H0 | _]; [now apply Hevery in H0 |].
      unfold bind at 1, get. unfold bind at 1. rewrite Hs.
      unfold PopulationInitStrategy_of. now rewrite Hnormal, Huniform.
    + unfold bind at 1, ret. unfold bind at 1, get. unfold bind at 1.
      rewrite Hs. unfold lift, PopulationInitStrategy_of.
      now rewrite Hnormal, Huniform.
Qed.

End Orchestrator.

Arguments env {Env Ob Act Rew Net Log Cb} b.
Arguments step {Env Ob Act Rew Net Log Cb} b.
Arguments episode {Env Ob Act Rew Net Log Cb} b.
Arguments done {Env Ob Act Rew Net Log Cb} b.
Arguments logger {Env Ob Act Rew Net Log Cb} b.
Arguments callbacks {Env Ob Act Rew Net Log Cb} b.
Arguments history {Env Ob Act Rew Net Log Cb} b.
Arguments episode_dones {Rew Log} l.
Arguments e_step {Env Ob Act Rew Log Cb Upd} b.
Arguments e_episode {Env Ob Act Rew Log Cb Upd} b.
Arguments e_done {Env Ob Act Rew Log Cb Upd} b.
Arguments e_history {Env Ob Act Rew Log Cb Upd} b.

(** ** A single environment with episodes of three steps *)

(** The state of the environment is the number of steps since its reset;
    the third step ends the episode.  Rewards are 1. *)
Definition three_reset (e : nat) : list unit * nat := ([tt], O).

Definition three_step (e : nat) (action : unit)
  : (list unit * Z * list bool) * nat :=
  (([tt], 1, [Nat.eqb (S e) 3]), S e).

Definition no_render (e : nat) : nat := e.

Definition explorer (net : unit) (observation : list unit) (at_step : Z) : unit :=
  tt.

(** A callback [(k, n)] has been asked [n] times and answers false the
    [k]-th time it is asked. *)
Definition veto_at (cb : nat * nat) (at_step : Z) : bool * (nat * nat) :=
  (negb (Nat.eqb (S (snd cb)) (fst cb)), (fst cb, S (snd cb))).

(** A [_fit] that changes nothing. *)
Definition idle_fit (net : unit) (buf : list (Trajectories unit unit Z))
  (batch_size actor_epochs critic_epochs : Z)
  : unit * (unit * list (Trajectories unit unit Z)) :=
  (tt, (net, buf)).

Definition Agent3 : Type := BaseDeepAgent nat unit unit Z unit unit (nat * nat).

(** The agent as [__init__] leaves it, the environment [e] steps into its
    episode. *)
Definition agent_at (e : nat) (cbs : option (list (nat * nat))) : Agent3 :=
  {| env := e; vector_env := false; model := tt; training := false;
     render := false; buffer := []; step := 0; episode := 0; done := false;
     logger := new_Logger Z unit 1; callbacks := cbs; history := [] |}.

Abbreviation interact3 :=
  (interact nat unit unit Z unit unit (nat * nat) three_reset three_step
     no_render explorer veto_at).

Abbreviation step_env3 :=
  (step_env nat unit unit Z unit unit (nat * nat) three_reset three_step
     no_render explorer veto_at).

Abbreviation fit3 :=
  (fit nat unit unit Z unit unit (nat * nat) three_reset three_step no_render
     explorer veto_at idle_fit).

Abbreviation wait_for_episode3 :=
  (wait_for_episode nat unit unit Z unit unit (nat * nat) three_reset
     three_step no_render explorer veto_at).

Abbreviation fit_round3 :=
  (fit_round nat unit unit Z unit unit (nat * nat) three_reset three_step
     no_render explorer veto_at idle_fit).

Abbreviation fit_rounds3 :=
  (fit_rounds nat unit unit Z unit unit (nat * nat) three_reset three_step
     no_render explorer veto_at idle_fit).

Lemma episode_log_flushed_iff_all_done_witness :
  exists mask,
    mark_true [false] (np_where [true]) = Val mask
    /\ (Forall (fun b => b = true) mask ->
        history (snd (interact3 [tt] (agent_at 2 None)))
        = history (agent_at 2 None)
            ++ [env_step_call; write_log_call (step (agent_at 2 None));
                reset_episode_log_call]
        /\ episode (snd (interact3 [tt] (agent_at 2 None)))
           = episode (agent_at 2 None) + 1).
Proof.
  assert (interact3 [tt] (agent_at 2 None)
          = (Val (Next, [tt]), snd (interact3 [tt] (agent_at 2 None)))) as Hrun
    by (vm_compute; reflexivity).
  destruct (episode_log_flushed_iff_all_done nat unit unit Z unit unit
              (nat * nat) three_reset three_step no_render explorer veto_at
              [tt] (agent_at 2 None)) as [_ Hflushes].
  destruct (Hflushes (Next, [tt]) (snd (interact3 [tt] (agent_at 2 None))) Hrun)
    as (mask & Hmask & _ & _ & Hflush & _).
  exists mask. split; [exact Hmask | exact Hflush].
Defined.

Lemma warmup_fills_one_batch_witness :
  exists warm rest,
    history (snd (step_env3 [tt] 3 (agent_at 0 None)))
    = history (agent_at 0 None) ++ warm
    /\ steps_in warm = Z.to_nat 3
    /\ fit_calls warm = []
    /\ history (snd (fit3 3 6 3 1 1 ("episode"%string, 1) (agent_at 0 None)))
       = history (snd (step_env3 [tt] 3 (agent_at 0 None)))
           ++ fit_call (step (snd (step_env3 [tt] 3 (agent_at 0 None))))
                (episode (snd (step_env3 [tt] 3 (agent_at 0 None))))
              :: rest.
Proof.
  refine (warmup_fills_one_batch nat unit unit Z unit unit (nat * nat)
            three_reset three_step no_render explorer veto_at idle_fit
            3 6 3 1 1 ("episode"%string, 1) EPISODE (agent_at 0 None)
            (agent_at 0 None) (snd (step_env3 [tt] 3 (agent_at 0 None)))
            [tt] [tt] _ _ _ _ _ _).
  - vm_compute. reflexivity.
  - discriminate.
  - vm_compute. reflexivity.
  - vm_compute. reflexivity.
  - vm_compute. reflexivity.
  - vm_compute. reflexivity.
Defined.

(** C5, as the specification states it, fails.  With episodes of three
    steps, [("episode", 2)], batch size 1 and a budget of 20 steps, the first
    call of [_fit] is made at step 1, when no episode has completed; the
    later calls are made at episodes 2, 4 and 6.  The round that waits for
    episode 8 is not cut short at the budget: [fit] returns at step 24. *)
Lemma first_trigger_needs_no_episode :
  fst (fit3 10 20 1 1 1 ("episode"%string, 2) (agent_at 0 None)) = Val tt
  /\ fit_calls (history (snd (fit3 10 20 1 1 1 ("episode"%string, 2)
                                (agent_at 0 None))))
     = [(1, 0); (6, 2); (12, 4); (18, 6)]
  /\ snd (hd (0, 0)
            (fit_calls (history (snd (fit3 10 20 1 1 1 ("episode"%string, 2)
                                        (agent_at 0 None)))))) <> 2
  /\ step (snd (fit3 10 20 1 1 1 ("episode"%string, 2) (agent_at 0 None))) = 24.
Proof.
  vm_compute. repeat split; try reflexivity. discriminate.
Qed.

(** The agent after the warm-up step and the first training of that run. *)
Definition after_warmup : Agent3 :=
  snd (fit_round3 10 EPISODE 2 20 1 1 1 0 [tt] (agent_at 0 None)).

Lemma training_cadence_witness :
  (exists h,
     history (snd (fit3 10 20 1 1 1 ("step"%string, 2) (agent_at 0 None)))
     = history (agent_at 0 None) ++ h
     /\ List.length (fit_calls h) = Z.to_nat (20 / 2)
     /\ cycles h = Z.to_nat 1 :: repeat (Z.to_nat 2) 9
     /\ trailing h = 0%nat)
  /\ (exists h,
        history (snd (fit3 10 20 1 1 1 ("episode"%string, 2) (agent_at 0 None)))
        = history (agent_at 0 None) ++ h
        /\ fit_calls h = [(1, 0); (6, 2); (12, 4); (18, 6)]
        /\ chain 2 20 0 [(6, 2); (12, 4); (18, 6)])
  /\ (episode (snd (wait_for_episode3 10 (episode after_warmup + 2) [tt]
                      after_warmup))
      = episode after_warmup + 2
      /\ exists a2,
           fit_round3 10 EPISODE 2 20 1 1 1 1 [tt] after_warmup
           = (Val (Next, [tt]), a2)
           /\ fit_calls (history a2) = [(1, 0); (6, 2)]).
Proof.
  destruct (training_cadence nat unit unit Z unit unit (nat * nat)
              three_reset three_step no_render explorer veto_at idle_fit
              10 20 1 1 1 2 (agent_at 0 None)) as (Hstep & Hepisode & Hround);
    [lia |].
  split; [| split].
  - destruct Hstep as (_ & h & Hh & _ & Hshape).
    destruct Hshape as (Hlen & Hcycles & Htrailing);
      [vm_compute; reflexivity | vm_compute; reflexivity |].
    exists h. exact (conj Hh (conj Hlen (conj Hcycles Htrailing))).
  - destruct Hepisode as (h & Hh & Hshape).
    assert (fit_calls
              (history (snd (fit3 10 20 1 1 1 ("episode"%string, 2)
                               (agent_at 0 None))))
            = [(1, 0); (6, 2); (12, 4); (18, 6)]) as Hcalls
      by (vm_compute; reflexivity).
    rewrite Hh, fit_calls_app in Hcalls.
    change (fit_calls (history (agent_at 0 None)) ++ fit_calls h)
      with (fit_calls h) in Hcalls.
    rewrite Hcalls in Hshape. destruct Hshape as [_ Hchain].
    exists h. exact (conj Hh (conj Hcalls Hchain)).
  - destruct (Hround 0%nat 1%nat [tt] [tt] after_warmup
                (snd (wait_for_episode3 10 (episode after_warmup + 2) [tt]
                        after_warmup)))
      as (Hep & _ & Htrain); [lia | vm_compute; reflexivity |].
    split; [exact Hep |].
    destruct Htrain as (a2 & Ha2 & Hh2 & _);
      [vm_compute; reflexivity | vm_compute; reflexivity |].
    exists a2. split; [exact Ha2 |].
    rewrite Hh2. vm_compute. reflexivity.
Defined.

(** C9, as the specification states it, fails: with episodes of three
    steps, [("episode", 1)], batch size 3 and a budget of 6 steps, [fit]
    returns after one call of [_fit], not two; the episode counter is 2. *)
Lemma two_episodes_train_once :
  fst (fit3 3 6 3 1 1 ("episode"%string, 1) (agent_at 0 None)) = Val tt
  /\ fit_calls (history (snd (fit3 3 6 3 1 1 ("episode"%string, 1)
                                (agent_at 0 None))))
     = [(3, 1)]
  /\ List.length
       (fit_calls (history (snd (fit3 3 6 3 1 1 ("episode"%string, 1)
                                   (agent_at 0 None))))) <> 2%nat
  /\ episode (snd (fit3 3 6 3 1 1 ("episode"%string, 1) (agent_at 0 None))) = 2.
Proof.
  vm_compute. repeat split; try reflexivity. discriminate.
Qed.

(** C9, amended.  A single environment with episodes of three steps,
    train frequency [("episode", 1)], batch size 3, no callbacks and
    [num_steps = 6]: [fit] returns after exactly one call of [_fit], made
    at step 3 when the first episode has completed, and leaves the episode
    counter at 2 and the step counter at 6; the round that completes the
    second episode finds the budget exhausted and leaves the loop without
    training. *)
Theorem two_episodes_one_training (fuel : nat) :
  (3 <= fuel)%nat ->
  fst (fit3 fuel 6 3 1 1 ("episode"%string, 1) (agent_at 0 None)) = Val tt
  /\ fit_calls (history (snd (fit3 fuel 6 3 1 1 ("episode"%string, 1)
                                (agent_at 0 None))))
     = [(3, 1)]
  /\ episode (snd (fit3 fuel 6 3 1 1 ("episode"%string, 1) (agent_at 0 None))) = 2
  /\ step (snd (fit3 fuel 6 3 1 1 ("episode"%string, 1) (agent_at 0 None))) = 6.
Proof.
  intros Hfuel.
  destruct fuel as [| [| [| [| fuel]]]]; try lia.
  all: vm_compute; repeat split; reflexivity.
Qed.

Lemma two_episodes_one_training_witness :
  fst (fit3 5 6 3 1 1 ("episode"%string, 1) (agent_at 0 None)) = Val tt
  /\ fit_calls (history (snd (fit3 5 6 3 1 1 ("episode"%string, 1)
                                (agent_at 0 None))))
     = [(3, 1)]
  /\ episode (snd (fit3 5 6 3 1 1 ("episode"%string, 1) (agent_at 0 None))) = 2
  /\ step (snd (fit3 5 6 3 1 1 ("episode"%string, 1) (agent_at 0 None))) = 6.
Proof.
  apply (two_episodes_one_training 5). lia.
Defined.

(** ** An evolution agent with a vetoing callback *)

Definition population_step (e : nat) (p : option unit) : (Z * list bool) * nat :=
  ((1, [false]), S e).

Definition sample (e : nat) : list unit := [tt].

Definition max_reward (rewards : list Z) : Z := fold_right Z.max 0 rewards.

Definition held_population (u : unit) : option unit := Some tt.

Definition first_population (u : unit) (s : PopulationInitStrategy)
  : option unit * unit :=
  (Some tt, u).

Definition idle_evolution (u : unit)
  (buf : list (list unit * option unit * Z * list unit * list bool))
  : unit * (unit * list (list unit * option unit * Z * list unit * list bool)) :=
  (tt, (u, buf)).

Definition evolution_agent (cbs : option (list (nat * nat)))
  : BaseEvolutionAgent nat unit unit Z unit (nat * nat) unit :=
  {| e_env := O; updater := tt; strategy := inr UNIFORM; e_buffer := [];
     e_step := 0; e_episode := 0; e_done := None;
     e_logger := new_Logger Z unit 1; population := None;
     e_callbacks := cbs; e_history := [] |}.

Abbreviation e_fit3 :=
  (e_fit nat unit unit Z unit (nat * nat) veto_at unit population_step sample
     max_reward held_population first_population idle_evolution).

(** C6 at a failing input.  A callback vetoes the first interaction.  The
    evolution agent sets its flag and stops that interaction before
    counting the step, and its [fit] trains all the same, in this round and
    in the next; the deep agent, on the same callback, leaves its loop
    without training. *)
Theorem evolution_fit_ignores_veto :
  fst (e_fit3 0 2 ("step"%string, 1) (evolution_agent (Some [(1, 0)%nat])))
  = Val tt
  /\ e_done (snd (e_fit3 0 2 ("step"%string, 1)
                    (evolution_agent (Some [(1, 0)%nat])))) = Some true
  /\ fit_calls (e_history (snd (e_fit3 0 2 ("step"%string, 1)
                                  (evolution_agent (Some [(1, 0)%nat])))))
     = [(0, 0); (1, 0)]
  /\ steps_in (e_history (snd (e_fit3 0 2 ("step"%string, 1)
                                 (evolution_agent (Some [(1, 0)%nat])))))
     = 2%nat
  /\ fst (fit3 0 2 1 1 1 ("step"%string, 1) (agent_at 0 (Some [(1, 0)%nat])))
     = Val tt
  /\ done (snd (fit3 0 2 1 1 1 ("step"%string, 1)
                  (agent_at 0 (Some [(1, 0)%nat])))) = true
  /\ history (snd (fit3 0 2 1 1 1 ("step"%string, 1)
                     (agent_at 0 (Some [(1, 0)%nat]))))
     = [env_step_call].
Proof.
  vm_compute. repeat split; reflexivity.
Qed.

(** ** The further properties at concrete agents *)

(** Two callbacks, of which the first answers false the first time it is
    asked. *)
Definition watched_agent : Agent3 := agent_at 0 (Some [(1, 0); (2, 0)]%nat).

(** An agent whose third interaction is vetoed. *)
Definition late_veto_agent : Agent3 := agent_at 0 (Some [(3, 0)]%nat).

(** The same environment, used as a vectorized environment of one row. *)
Definition vector_agent_at (e : nat) : Agent3 :=
  {| env := e; vector_env := true; model := tt; training := false;
     render := false; buffer := []; step := 0; episode := 0; done := false;
     logger := new_Logger Z unit 1; callbacks := None; history := [] |}.

(** An agent whose termination flag is set. *)
Definition stopped_agent : Agent3 :=
  set_done nat unit unit Z unit unit (nat * nat) true (agent_at 0 None).

Abbreviation env_answer3 :=
  (env_answer nat unit unit Z unit unit (nat * nat) three_step no_render
     explorer).

Abbreviation done_flags3 :=
  (done_flags nat unit unit Z unit unit (nat * nat) three_step no_render
     explorer).

Lemma callbacks_are_all_asked_witness :
  callbacks (snd (interact3 [tt] watched_agent))
  = Some (map (fun cb => snd (veto_at cb (step watched_agent)))
            [(1, 0); (2, 0)]%nat)
  /\ (Exists (fun cb => fst (veto_at cb (step watched_agent)) = false)
        [(1, 0); (2, 0)]%nat ->
      fst (Break, [tt]) = Break
      /\ done (snd (interact3 [tt] watched_agent)) = true
      /\ step (snd (interact3 [tt] watched_agent)) = step watched_agent)
  /\ (Forall (fun cb => fst (veto_at cb (step watched_agent)) = true)
        [(1, 0); (2, 0)]%nat ->
      fst (Break, [tt]) = Next
      /\ done (snd (interact3 [tt] watched_agent)) = done watched_agent
      /\ step (snd (interact3 [tt] watched_agent)) = step watched_agent + 1).
Proof.
  refine (callbacks_are_all_asked nat unit unit Z unit unit (nat * nat)
            three_reset three_step no_render explorer veto_at
            [tt] watched_agent (snd (interact3 [tt] watched_agent))
            [(1, 0); (2, 0)]%nat (Break, [tt]) _ _).
  - reflexivity.
  - vm_compute. reflexivity.
Defined.

Lemma step_counter_skips_the_vetoed_step_witness :
  exists h,
    history (snd (step_env3 [tt] 5 late_veto_agent))
    = history late_veto_agent ++ h
    /\ (steps_in h <= Z.to_nat 5)%nat
    /\ step (snd (step_env3 [tt] 5 late_veto_agent))
       = step late_veto_agent + Z.of_nat (steps_in h)
         - (if done (snd (step_env3 [tt] 5 late_veto_agent)) then 1 else 0).
Proof.
  refine (step_counter_skips_the_vetoed_step nat unit unit Z unit unit
            (nat * nat) three_reset three_step no_render explorer veto_at
            [tt] [tt] 5 late_veto_agent
            (snd (step_env3 [tt] 5 late_veto_agent)) _ _).
  - reflexivity.
  - vm_compute. reflexivity.
Defined.

Lemma single_environment_resets_when_done_witness :
  exists finished,
    done_flags3
      [tt] (agent_at 2 None) = [finished]
    /\ [tt]
       = (if finished
          then fst (three_reset
                      (snd (env_answer3 [tt] (agent_at 2 None))))
          else fst (fst (fst (env_answer3 [tt] (agent_at 2 None)))))
    /\ env (snd (interact3 [tt] (agent_at 2 None)))
       = (if finished
          then snd (three_reset
                      (snd (env_answer3 [tt] (agent_at 2 None))))
          else snd (env_answer3 [tt] (agent_at 2 None))).
Proof.
  refine (single_environment_resets_when_done nat unit unit Z unit unit
            (nat * nat) three_reset three_step no_render explorer veto_at
            [tt] [tt] Next (agent_at 2 None)
            (snd (interact3 [tt] (agent_at 2 None))) _ _).
  - reflexivity.
  - vm_compute. reflexivity.
Defined.

Lemma vector_environment_is_reset_at_every_step_witness :
  env (snd (interact3 [tt] (vector_agent_at 0)))
  = snd (three_reset
           (snd (env_answer3 [tt] (vector_agent_at 0))))
  /\ forall j,
       nth_error [tt] j
       = if nth j
              (map negb
                 (done_flags3 [tt] (vector_agent_at 0))) false
         then nth_error
                (fst (fst (fst (env_answer3 [tt]
                                  (vector_agent_at 0))))) j
         else if nth j
                   (done_flags3 [tt] (vector_agent_at 0)) false
              then nth_error
                     (fst (three_reset
                             (snd (env_answer3 [tt]
                                     (vector_agent_at 0))))) j
              else nth_error [tt] j.
Proof.
  refine (vector_environment_is_reset_at_every_step nat unit unit Z unit unit
            (nat * nat) three_reset three_step no_render explorer veto_at
            [tt] [tt] Next (vector_agent_at 0)
            (snd (interact3 [tt] (vector_agent_at 0))) _ _).
  - reflexivity.
  - vm_compute. reflexivity.
Defined.

Lemma episode_wait_ignores_the_flag_witness :
  exists h,
    history (snd (wait_for_episode3 2 1 [tt] stopped_agent))
    = history stopped_agent ++ env_step_call :: h.
Proof.
  refine (episode_wait_ignores_the_flag nat unit unit Z unit unit (nat * nat)
            three_reset three_step no_render explorer veto_at
            1 1 [tt] stopped_agent _).
  vm_compute. discriminate.
Defined.

Lemma fit_refuses_a_bad_frequency_witness :
  fit3 0 5 1 1 1 ("weekly"%string, 1) (agent_at 0 None)
  = (Exc ValueError, agent_at 0 None)
  /\ fit3 0 5 1 1 1 ("Step"%string, 0) (agent_at 0 None)
     = (Exc ZeroDivisionError, agent_at 0 None).
Proof.
  split.
  - apply (fit_refuses_a_bad_frequency nat unit unit Z unit unit (nat * nat)
             three_reset three_step no_render explorer veto_at idle_fit
             0 5 1 1 1 1 "weekly"%string (agent_at 0 None));
      vm_compute; discriminate.
  - apply (fit_refuses_a_bad_frequency nat unit unit Z unit unit (nat * nat)
             three_reset three_step no_render explorer veto_at idle_fit
             0 5 1 1 1 1 "Step"%string (agent_at 0 None)).
    reflexivity.
Defined.

Lemma fit_without_a_round_only_resets_witness :
  fit3 0 3 2 1 1 ("step"%string, 4) (agent_at 1 None)
  = (Val tt,
     set_env nat unit unit Z unit unit (nat * nat)
       (snd (three_reset (env (agent_at 1 None)))) (agent_at 1 None)).
Proof.
  refine (fit_without_a_round_only_resets nat unit unit Z unit unit (nat * nat)
            three_reset three_step no_render explorer veto_at idle_fit
            0 3 2 1 1 ("step"%string, 4) STEP (agent_at 1 None) _ _ _).
  - reflexivity.
  - intros _. discriminate.
  - vm_compute. discriminate.
Defined.

Lemma step_mode_interactions_in_all_witness :
  exists h,
    history (snd (fit3 3 8 3 1 1 ("step"%string, 4) (agent_at 0 None)))
    = history (agent_at 0 None) ++ h
    /\ Z.of_nat (steps_in h) = Z.max 0 3 + 4 * (8 / 4 - 1).
Proof.
  refine (step_mode_interactions_in_all nat unit unit Z unit unit (nat * nat)
            three_reset three_step no_render explorer veto_at idle_fit
            3 8 3 1 1 4 (agent_at 0 None) _ _ _ _).
  - lia.
  - vm_compute. discriminate.
  - vm_compute. reflexivity.
  - vm_compute. reflexivity.
Defined.

Lemma fit_keeps_done_witness :
  done (snd (fit3 3 6 3 1 1 ("episode"%string, 1) stopped_agent)) = true.
Proof.
  refine (fit_keeps_done nat unit unit Z unit unit (nat * nat)
            three_reset three_step no_render explorer veto_at idle_fit
            3 6 3 1 1 ("episode"%string, 1) stopped_agent _).
  reflexivity.
Defined.

Lemma done_round_is_last_witness :
  (exists h,
     history (snd (fit_round3 0 STEP 1 2 1 1 1 0 [tt]
                     (agent_at 0 (Some [(1, 0)]%nat))))
     = history (agent_at 0 (Some [(1, 0)]%nat)) ++ h
     /\ fit_calls h = [])
  /\ fit_rounds3 0 STEP 1 2 1 1 1 2 0 [tt] (agent_at 0 (Some [(1, 0)]%nat))
     = (Val tt,
        snd (fit_round3 0 STEP 1 2 1 1 1 0 [tt]
               (agent_at 0 (Some [(1, 0)]%nat)))).
Proof.
  refine (done_round_is_last nat unit unit Z unit unit (nat * nat)
            three_reset three_step no_render explorer veto_at idle_fit
            0 STEP 1 2 1 1 1 1 0 [tt] (agent_at 0 (Some [(1, 0)]%nat))
            (snd (fit_round3 0 STEP 1 2 1 1 1 0 [tt]
                    (agent_at 0 (Some [(1, 0)]%nat))))
            (Val (Break, [tt])) _ _).
  - vm_compute. reflexivity.
  - vm_compute. reflexivity.
Defined.

Arguments population {Env Ob Act Rew Log Cb Upd} b.
Arguments updater {Env Ob Act Rew Log Cb Upd} b.

(** An evolution agent whose initialisation strategy is given by name. *)
Definition named_strategy_agent (s : string)
  : BaseEvolutionAgent nat unit unit Z unit (nat * nat) unit :=
  {| e_env := O; updater := tt; strategy := inl s; e_buffer := [];
     e_step := 0; e_episode := 0; e_done := None;
     e_logger := new_Logger Z unit 1; population := None;
     e_callbacks := None; e_history := [] |}.

Lemma evolution_fit_trains_every_round_witness :
  (exists a' h,
     e_fit3 0 2 ("step"%string, 1) (evolution_agent (Some [(1, 0)]%nat))
     = (Val tt, a')
     /\ e_history a' = e_history (evolution_agent (Some [(1, 0)]%nat)) ++ h
     /\ List.length (fit_calls h) = Z.to_nat (2 / 1))
  /\ fst (e_fit3 0 (-2) ("step"%string, -1) (evolution_agent None))
     = Exc ValueError
  /\ e_history (snd (e_fit3 0 (-2) ("step"%string, -1) (evolution_agent None)))
     = e_history (evolution_agent None).
Proof.
  split.
  - refine (proj1 (evolution_fit_trains_every_round nat unit unit Z unit
                     (nat * nat) veto_at unit population_step sample max_reward
                     held_population first_population idle_evolution 0 2 1
                     UNIFORM (evolution_agent (Some [(1, 0)]%nat)) _ _) _).
    + discriminate.
    + reflexivity.
    + lia.
  - refine (proj2 (evolution_fit_trains_every_round nat unit unit Z unit
                     (nat * nat) veto_at unit population_step sample max_reward
                     held_population first_population idle_evolution 0 (-2) (-1)
                     UNIFORM (evolution_agent None) _ _) _ _ _).
    + discriminate.
    + reflexivity.
    + lia.
    + vm_compute. discriminate.
    + reflexivity.
Defined.

Lemma evolution_population_follows_the_updater_witness :
  population (snd (e_fit3 0 2 ("step"%string, 1) (evolution_agent None)))
  = held_population
      (updater (snd (e_fit3 0 2 ("step"%string, 1) (evolution_agent None)))).
Proof.
  refine (evolution_population_follows_the_updater nat unit unit Z unit
            (nat * nat) veto_at unit population_step sample max_reward
            held_population first_population idle_evolution 0 2 1 UNIFORM
            (evolution_agent None) _ _ _).
  - lia.
  - reflexivity.
  - vm_compute. discriminate.
Defined.

Lemma evolution_episode_frequency_never_returns_witness :
  fst (e_fit3 7 1 ("episode"%string, 1) (named_strategy_agent "Normal"))
  = OutOfFuel.
Proof.
  refine (evolution_episode_frequency_never_returns nat unit unit Z unit
            (nat * nat) veto_at unit population_step sample max_reward
            held_population first_population idle_evolution 1 1 NORMAL
            (named_strategy_agent "Normal") _ _ _ 7%nat).
  - discriminate.
  - lia.
  - reflexivity.
Defined.

Lemma evolution_fit_refuses_bad_arguments_witness :
  e_fit3 0 2 ("weekly"%string, 1) (evolution_agent None)
  = (Exc ValueError, evolution_agent None)
  /\ e_fit3 0 2 ("STEP"%string, 0) (evolution_agent None)
     = (Exc ZeroDivisionError, evolution_agent None)
  /\ e_fit3 0 2 ("step"%string, 1) (named_strategy_agent "gaussian")
     = (Exc ValueError, named_strategy_agent "gaussian").
Proof.
  split; [| split].
  - apply (evolution_fit_refuses_bad_arguments nat unit unit Z unit
             (nat * nat) veto_at unit population_step sample max_reward
             held_population first_population idle_evolution
             0 2 1 "weekly"%string (evolution_agent None));
      vm_compute; discriminate.
  - apply (evolution_fit_refuses_bad_arguments nat unit unit Z unit
             (nat * nat) veto_at unit population_step sample max_reward
             held_population first_population idle_evolution
             0 2 1 "STEP"%string (evolution_agent None)).
    reflexivity.
  - apply (proj2 (proj2 (evolution_fit_refuses_bad_arguments nat unit unit Z
                           unit (nat * nat) veto_at unit population_step
                           sample max_reward held_population first_population
                           idle_evolution 0 2 1 "step"%string
                           (named_strategy_agent "gaussian")))
             STEP "gaussian"%string).
    + reflexivity.
    + intros _. discriminate.
    + reflexivity.
    + vm_compute. discriminate.
    + vm_compute. discriminate.
Defined.

End Agents.
